(** * qri dataset: reference model, load, save and write engines

    A shallow embedding of the parts of the [dataset] and [dsfs] packages
    that the specification's claims are about, with the claims settled
    as theorems.

    Conventions.
    - A Go [string] is a byte string: Rocq's [string] (a list of 8-bit
      [ascii]); [len], slicing and [strings.Index] count bytes.
    - A Go [int] is a 64-bit two's-complement integer: a [Z] kept in range
      by [wrap64] wherever the code does arithmetic on it.
    - [(T, error)] results are [result T]; a Go [error] is an inductive
      value with one constructor per [fmt.Errorf] site.
    - A JSON document is the tree [json], not its bytes: [encoding/json] is
      the Go standard library, and only its tree-level behaviour matters to
      the claims.  The text of a [JStr] is the text of the string as a
      decoder delivers it; an encoder writes the text of a Go string with
      every byte that is not UTF-8 replaced by U+FFFD.
    - A Go [map] that the code ranges over is an association list in the
      order of one iteration; a pointer is a location in an explicit heap
      where the code writes through it. *)

From Stdlib Require Import ZArith String Ascii List Bool Lia Permutation.
From Stdlib Require Import DecimalString DecimalZ.
From stdpp Require Import base list relations.
Import ListNotations.

Local Open Scope string_scope.
Local Open Scope list_scope.
Local Open Scope Z_scope.

(* ===================================================================== *)
(** * Results and errors *)

Inductive result (E A : Type) : Type :=
| Ok (a : A)
| Err (e : E).
Arguments Ok {E A} a.
Arguments Err {E A} e.

Definition rbind {E A B} (r : result E A) (k : A -> result E B) : result E B :=
  match r with
  | Ok a => k a
  | Err e => Err e
  end.

Definition is_ok {E A} (r : result E A) : bool :=
  match r with Ok _ => true | Err _ => false end.

Declare Scope result_scope.
Delimit Scope result_scope with result.
Notation "'let*' x ':=' c 'in' k" := (rbind c (fun x => k))
  (at level 10, x name, c at level 100, k at level 200) : result_scope.

(* ===================================================================== *)
(** * Go integers *)

Definition int_min : Z := - 2 ^ 63.
Definition int_max : Z := 2 ^ 63 - 1.

(** Two's-complement wrap-around of a 64-bit [int]. *)
Definition wrap64 (z : Z) : Z := (z + 2 ^ 63) mod 2 ^ 64 - 2 ^ 63.

Definition in_int (z : Z) : Prop := int_min <= z <= int_max.

(* ===================================================================== *)
(** * Go byte strings *)

Module Strings.

Definition len (s : string) : Z := Z.of_nat (String.length s).

(** [s[:n]] for [0 <= n <= len s]. *)
Fixpoint take (n : nat) (s : string) : string :=
  match n, s with
  | O, _ => EmptyString
  | S n', EmptyString => EmptyString
  | S n', String.String c s' => String.String c (take n' s')
  end.

(** [s[n:]] for [0 <= n <= len s]. *)
Fixpoint drop (n : nat) (s : string) : string :=
  match n, s with
  | O, _ => s
  | S n', EmptyString => EmptyString
  | S n', String.String _ s' => drop n' s'
  end.

Definition slice_to (s : string) (n : Z) : string := take (Z.to_nat n) s.
Definition slice_from (s : string) (n : Z) : string := drop (Z.to_nat n) s.

Fixpoint has_prefix (p s : string) : bool :=
  match p, s with
  | EmptyString, _ => true
  | String.String a p', String.String b s' => Ascii.eqb a b && has_prefix p' s'
  | String.String _ _, EmptyString => false
  end.

(** [strings.Index(s, sep)]: byte offset of the first occurrence of
    [sep] in [s], or [-1]. *)
Fixpoint Index (s sep : string) : Z :=
  if has_prefix sep s then 0
  else match s with
       | EmptyString => -1
       | String.String _ s' =>
           let i := Index s' sep in
           if i <? 0 then -1 else i + 1
       end.

(** [strings.LastIndex(s, sep)]: byte offset of the last occurrence of
    [sep] in [s], or [-1]. *)
Fixpoint LastIndex (s sep : string) : Z :=
  match s with
  | EmptyString => if has_prefix sep EmptyString then 0 else -1
  | String.String _ s' =>
      let i := LastIndex s' sep in
      if 0 <=? i then i + 1
      else if has_prefix sep s then 0 else -1
  end.

Fixpoint repeat (c : ascii) (n : nat) : string :=
  match n with
  | O => EmptyString
  | S n' => String.String c (repeat c n')
  end.

(** Does [s] contain the byte [c]? *)
Fixpoint contains_byte (c : ascii) (s : string) : bool :=
  match s with
  | EmptyString => false
  | String.String a s' => Ascii.eqb a c || contains_byte c s'
  end.

Definition has_suffix (suf s : string) : bool :=
  String.eqb (drop (String.length s - String.length suf) s) suf
  && (String.length suf <=? String.length s)%nat.

Definition newline : string := String.String (ascii_of_nat 10) EmptyString.

End Strings.

(* ===================================================================== *)
(** * UTF-8, as [unicode/utf8] decodes it *)

Module UTF8.

(** The number a byte stands for; an [ascii] lists its bits from the
    lowest. *)
Definition byte (c : ascii) : N :=
  match c with
  | Ascii b0 b1 b2 b3 b4 b5 b6 b7 =>
      let bit (b : bool) (n : N) := if b then N.succ_double n else N.double n in
      bit b0 (bit b1 (bit b2 (bit b3 (bit b4 (bit b5 (bit b6 (bit b7 0%N)))))))
  end.

Definition within (lo hi : N) (c : ascii) : bool :=
  ((lo <=? byte c) && negb (hi <? byte c))%N.

(** For a leading byte other than ASCII: the width of the encoding it
    starts and the range its second byte has to be in, as the tables
    [first] and [acceptRanges] of the package give them; [None] for a
    byte that starts no encoding. *)
Definition leading (c : ascii) : option (nat * N * N) :=
  if within 194 223 c then Some (2%nat, 128%N, 191%N)
  else if within 224 224 c then Some (3%nat, 160%N, 191%N)
  else if within 225 236 c || within 238 239 c then Some (3%nat, 128%N, 191%N)
  else if within 237 237 c then Some (3%nat, 128%N, 159%N)
  else if within 240 240 c then Some (4%nat, 144%N, 191%N)
  else if within 241 243 c then Some (4%nat, 128%N, 191%N)
  else if within 244 244 c then Some (4%nat, 128%N, 143%N)
  else None.

(** Do [n] continuation bytes come first in [s]? *)
Fixpoint continued (n : nat) (s : string) : bool :=
  match n, s with
  | O, _ => true
  | S n', String.String c s' => within 128 191 c && continued n' s'
  | S _, EmptyString => false
  end.

(** [utf8.DecodeRuneInString] on the text that starts with the byte [c]
    and goes on with [rest]: the width of the rune it decodes, or [0]
    where it returns [(RuneError, 1)] for a byte that encodes no rune. *)
Definition rune_width (c : ascii) (rest : string) : nat :=
  if negb (128 <=? byte c)%N then 1%nat
  else
    match leading c with
    | None => O
    | Some (n, lo, hi) =>
        match rest with
        | String.String c1 rest' =>
            if within lo hi c1 && continued (n - 2) rest' then n else O
        | EmptyString => O
        end
    end.

(** The encoding of U+FFFD, the replacement character. *)
Definition replacement : string :=
  String.String (ascii_of_nat 239)
    (String.String (ascii_of_nat 191) (String.String (ascii_of_nat 189) EmptyString)).

(** The text [encoding/json] writes for the Go string [s]: a byte that
    encodes no rune is written as U+FFFD, one for each such byte.
    [pending] counts the bytes still to copy of a rune that was
    decoded. *)
Fixpoint coerce_from (pending : nat) (s : string) : string :=
  match s with
  | EmptyString => EmptyString
  | String.String c rest =>
      match pending with
      | S k => String.String c (coerce_from k rest)
      | O =>
          match rune_width c rest with
          | O => (replacement ++ coerce_from O rest)%string
          | S k => String.String c (coerce_from k rest)
          end
      end
  end.

Definition coerce (s : string) : string := coerce_from O s.

(** [utf8.ValidString] *)
Fixpoint valid_from (pending : nat) (s : string) : bool :=
  match s with
  | EmptyString => true
  | String.String c rest =>
      match pending with
      | S k => valid_from k rest
      | O =>
          match rune_width c rest with
          | O => false
          | S k => valid_from k rest
          end
      end
  end.

Definition valid (s : string) : bool := valid_from O s.

End UTF8.

(* ===================================================================== *)
(** * JSON documents *)

(** The tree form of a JSON document, which is also the shape of a value
    decoded into Go's [interface{}]: [JObj] is [map[string]interface{}],
    [JArr] is [[]interface{}].  Number literals are kept as integers; the
    encoders below emit no other kind. *)
#[warnings="-register-all"]
Inductive json : Type :=
| JNull
| JBool (b : bool)
| JNum (z : Z)
| JStr (s : string)
| JArr (l : list json)
| JObj (l : list (string * json)).

Fixpoint assoc {A B} (eqb : A -> A -> bool) (k : A) (l : list (A * B)) : option B :=
  match l with
  | [] => None
  | (k', v) :: l' => if eqb k k' then Some v else assoc eqb k l'
  end.

(* ===================================================================== *)
(** * dataFormat.go *)

Module DataFormat.

(** [type DataFormat int] *)
Definition DataFormat : Type := Z.

Definition UnknownDataFormat : DataFormat := 0.
Definition CsvDataFormat : DataFormat := 1.
Definition JsonDataFormat : DataFormat := 2.
Definition JsonArrayDataFormat : DataFormat := 3.
Definition XmlDataFormat : DataFormat := 4.
Definition XlsDataFormat : DataFormat := 5.

Inductive error : Type :=
| ErrInvalidDataFormat (s : string)      (* "invalid DataFormat %q" *)
| ErrFieldTypeNotString (data : json).   (* "Filed type should be a string, got %s" *)

Definition string_table : list (DataFormat * string) :=
  [ (UnknownDataFormat, "");
    (CsvDataFormat, "csv");
    (JsonDataFormat, "json");
    (JsonArrayDataFormat, "jsona");
    (XmlDataFormat, "xml");
    (XlsDataFormat, "xls") ].

(** [func (f DataFormat) String() string] *)
Definition String (f : DataFormat) : string :=
  match assoc Z.eqb f string_table with
  | Some s => s
  | None => ""
  end.

Definition parse_table : list (string * DataFormat) :=
  [ ("", UnknownDataFormat);
    (".csv", CsvDataFormat);
    ("csv", CsvDataFormat);
    (".json", JsonDataFormat);
    ("json", JsonDataFormat);
    (".jsona", JsonArrayDataFormat);
    ("jsona", JsonArrayDataFormat);
    (".xml", XmlDataFormat);
    ("xml", XmlDataFormat);
    (".xls", XlsDataFormat);
    ("xls", XlsDataFormat) ].

(** [func ParseDataFormatString(s string) (df DataFormat, err error)] *)
Definition ParseDataFormatString (s : string) : DataFormat * option error :=
  match assoc String.eqb s parse_table with
  | Some df => (df, None)
  | None => (UnknownDataFormat, Some (ErrInvalidDataFormat s))
  end.

(** [func (f DataFormat) MarshalJSON() ([]byte, error)].  For the unknown
    format the method returns [nil, nil]: no bytes and no error, here
    [None]. *)
Definition MarshalJSON (f : DataFormat) : option json :=
  if f =? UnknownDataFormat then None else Some (JStr (String f)).

(** [json.Unmarshal(data, &s)] for a [string] target: a JSON string is
    stored, [null] leaves the target untouched, anything else is an
    error. *)
Definition json_to_string (data : json) : option string :=
  match data with
  | JStr s => Some s
  | JNull => Some ""
  | _ => None
  end.

(** [func (f *DataFormat) UnmarshalJSON(data []byte) error] *)
Definition UnmarshalJSON (data : json) : result error DataFormat :=
  match json_to_string data with
  | None => Err (ErrFieldTypeNotString data)
  | Some s =>
      match ParseDataFormatString s with
      | (df, None) => Ok df
      | (_, Some e) => Err e
      end
  end.

(** The values the [const] block defines. *)
Definition defined (f : DataFormat) : Prop :=
  In f [ UnknownDataFormat; CsvDataFormat; JsonDataFormat;
         JsonArrayDataFormat; XmlDataFormat; XlsDataFormat ].

End DataFormat.

(* ===================================================================== *)
(** * dsfs/dataset.go: the pure analysers *)

Module Analysis.

(** ** getDepth *)

(** [func getDepth(x interface{}, depth int) int].  The two [range]
    loops update the local [depth] and pass the updated value on to the
    next element. *)
Fixpoint getDepth (x : json) (depth : Z) : Z :=
  match x with
  | JObj v =>
      fold_left
        (fun depth kv =>
           match kv with
           | (_, el) =>
               let d := getDepth el depth in
               if d >? depth then d else depth
           end)
        v (wrap64 (depth + 1))
  | JArr v =>
      fold_left
        (fun depth el =>
           let d := getDepth el depth in
           if d >? depth then d else depth)
        v (wrap64 (depth + 1))
  | _ => depth
  end.

(** The number of object and array nodes in a value. *)
Fixpoint containers (x : json) : Z :=
  match x with
  | JObj v => fold_left (fun n kv => match kv with (_, el) => n + containers el end) v 1
  | JArr v => fold_left (fun n el => n + containers el) v 1
  | _ => 0
  end.

(** The nesting depth of a value: 0 for a scalar, and for an object or
    array one more than the deepest of its elements. *)
Fixpoint nesting (x : json) : Z :=
  match x with
  | JObj v => 1 + fold_left (fun m kv => match kv with (_, el) => Z.max m (nesting el) end) v 0
  | JArr v => 1 + fold_left (fun m el => Z.max m (nesting el)) v 0
  | _ => 0
  end.

(** ** setDepthAndEntryCount *)

(** [dsio.Entry] *)
Record Entry : Type := mkEntry {
  Index : Z;
  Key : string;
  Value : json
}.

Inductive error : Type :=
| ErrReadingDataValues (msg : string)        (* "error reading data values: %s" *)
| ErrReadingEntry (entries : Z) (msg : string). (* "error reading values at entry %d: %s" *)

(** A [dsio.EntryReader] over a body, seen through the calls the
    analyser makes: the entries [ReadEntry] returns, in order, and the
    message of the error that ends the stream (["EOF"] at a regular
    end). *)
Record EntryReader : Type := mkReader {
  read_entries : list Entry;
  read_end : string
}.

(** The [for] loop of [setDepthAndEntryCount]. *)
Definition scan (ents : list Entry) : Z * Z :=
  fold_left
    (fun st ent =>
       match st with
       | (entries, depth) =>
           let d := getDepth (Value ent) 1 in
           (wrap64 (entries + 1), if d >? depth then d else depth)
       end)
    ents (0, 1).

(** [func setDepthAndEntryCount(ds, data, mu, done)]: the value sent on
    [done], and on success the pair written to [ds.Structure.Entries] and
    [ds.Structure.Depth].  [er] is the outcome of
    [dsio.NewEntryReader(ds.Structure, data)]. *)
Definition setDepthAndEntryCount (er : result string EntryReader)
  : result error (Z * Z) :=
  match er with
  | Err msg => Err (ErrReadingDataValues msg)
  | Ok r =>
      match scan (read_entries r) with
      | (entries, depth) =>
          if negb (String.eqb (read_end r) "EOF")
          then Err (ErrReadingEntry entries (read_end r))
          else Ok (entries, depth)
      end
  end.

(** The depth the specification describes for a body: a baseline of 1,
    plus the nesting of the deepest entry. *)
Definition spec_depth (ents : list Entry) : Z :=
  fold_left (fun m ent => Z.max m (1 + nesting (Value ent))) ents 1.

(** ** Sample bodies *)

(** The body of the specification's example: one entry, an object
    holding one object. *)
Definition nested_object_body : EntryReader :=
  mkReader [mkEntry 0 "" (JObj [("a", JObj [("b", JNum 1)])])] "EOF".

(** A body of one entry, an array holding two arrays: [[[1],[2]]]. *)
Definition sibling_arrays_body : EntryReader :=
  mkReader [mkEntry 0 "" (JArr [JArr [JNum 1]; JArr [JNum 2]])] "EOF".

End Analysis.

(* ===================================================================== *)
(** * dsfs/dataset.go: the commit message synthesiser *)

Module CommitMsg.
Import Strings.

(** [func cleanTitleAndMessage(sTitle, sMsg *string, diffDescription string)]:
    the values left in [*sTitle] and [*sMsg]. *)
Definition cleanTitleAndMessage (sTitle sMsg diffDescription : string)
  : string * string :=
  let st := sTitle in
  let sm := sMsg in
  let '(st, sm) :=
    if String.eqb st "" && negb (String.eqb diffDescription "")
    then (diffDescription, sm)
    else if String.eqb st "" then (sm, "")
    else (st, sm) in
  (* adjust for length *)
  let '(st, sm) :=
    if len st >? 70 then
      let cutIndex := 66 in
      let lastSpaceIndex := LastIndex (slice_to st 67) " " in
      let cutIndex := if lastSpaceIndex >? 0 then lastSpaceIndex + 1 else cutIndex in
      let sm' := ("..." ++ slice_from st cutIndex ++ newline ++ sm)%string in
      let st' := (slice_to st cutIndex ++ "...")%string in
      (st', sm')
    else (st, sm) in
  (* adjust for line breaks *)
  let newlineIndex := Index st newline in
  if newlineIndex >? 0
  then (slice_to st newlineIndex,
        (slice_from st (newlineIndex + 1) ++ newline ++ sm)%string)
  else (st, sm).

End CommitMsg.

(* ===================================================================== *)
(** * Collaborators declared outside the files above *)

(** [datastore.Key] of go-datastore: a struct around one string.  Its
    zero value holds the empty string; [String()] returns the string and
    [MarshalJSON] is [json.Marshal] of that string. *)
Module Datastore.

Record Key : Type := mkKey { String : string }.

Definition zero : Key := mkKey "".

Definition MarshalJSON (k : Key) : json := JStr (UTF8.coerce (String k)).

End Datastore.

(** A Go [map[string]V]: [None] is the nil map. *)
Definition gomap (V : Type) : Type := option (list (string * V)).

(** [m[key] = val] on a map kept as an association list. *)
Fixpoint map_set {V} (k : string) (v : V) (l : list (string * V)) : list (string * V) :=
  match l with
  | [] => [(k, v)]
  | (k', v') :: l' =>
      if String.eqb k k' then (k, v) :: l' else (k', v') :: map_set k v l'
  end.

(** [for key, val := range theirs { mine[key] = val }], with a new map
    made first when [mine] is nil. *)
Definition map_merge {V} (mine theirs : gomap V) : gomap V :=
  match theirs with
  | None => mine
  | Some l2 =>
      Some (fold_left (fun acc kv => map_set (fst kv) (snd kv) acc) l2
              (match mine with Some l1 => l1 | None => [] end))
  end.

(** The entries of a map in the order of their keys, which for Go
    strings is the order of their bytes. *)
Fixpoint insert_key {V} (kv : string * V) (l : list (string * V)) : list (string * V) :=
  match l with
  | [] => [kv]
  | kv' :: l' =>
      if String.leb (fst kv) (fst kv') then kv :: l else kv' :: insert_key kv l'
  end.

Definition sort_keys {V} (l : list (string * V)) : list (string * V) :=
  fold_right insert_key [] l.

Definition gomap_len {V} (m : gomap V) : nat :=
  match m with
  | None => O
  | Some l => length l
  end.

(** kind.go, of which only the uses are among the files embedded here. *)
Module Kinds.
(** [type Kind string] *)
Definition Kind : Type := string.
End Kinds.

(** What the reference model takes from declarations that are not part of
    the files embedded here: the key constructor of go-datastore, the
    compression type, the kind constants, the format configuration
    interface, the JSON schema type, the values an [interface{}] holds, and
    the JSON forms of these types as [encoding/json] sees them. *)
Record Externals : Type := mkExternals {
  (** [datastore.NewKey] *)
  NewKey : string -> Datastore.Key;
  (** [compression.Type] and its zero value [compression.None] *)
  CompressionType : Type;
  CompressionNone : CompressionType;
  Compression_eqb : CompressionType -> CompressionType -> bool;
  Compression_marshal : CompressionType -> result string json;
  Compression_unmarshal : json -> result string CompressionType;
  (** [KindStructure], [KindTransform] and the JSON form of a [Kind] *)
  KindStructure : Kinds.Kind;
  KindTransform : Kinds.Kind;
  Kind_marshal : Kinds.Kind -> result string json;
  Kind_unmarshal : json -> result string Kinds.Kind;
  (** the values an [interface{}] holds when it is not nil: what
      [json.Marshal] writes for one, and what [json.Unmarshal] stores in
      an [interface{}] for a document other than [null] *)
  AnyT : Type;
  Any_marshal : AnyT -> result string json;
  Any_unmarshal : json -> result string AnyT;
  (** [FormatConfig] values, their [Map()] and [ParseFormatConfigMap] *)
  FormatConfigT : Type;
  FormatConfig_Map : FormatConfigT -> gomap (option AnyT);
  ParseFormatConfigMap :
    DataFormat.DataFormat -> list (string * option AnyT) ->
    result string (option FormatConfigT);
  (** [jsonschema.RootSchema] *)
  RootSchema : Type;
  RootSchema_marshal : RootSchema -> result string json;
  RootSchema_unmarshal : json -> result string RootSchema;
  (** the [Dataset] values a transform's resources point to *)
  ResourceT : Type;
  Resource_marshal : ResourceT -> result string json;
  Resource_unmarshal : json -> result string ResourceT
}.

(* ===================================================================== *)
(** * encoding/json, at tree level *)

Module GoJSON.

Inductive error : Type :=
| ErrMarshaler (field : string)
    (* "json: error calling MarshalJSON for type ..." *)
| ErrUnmarshalType (field : string)
    (* "json: cannot unmarshal ... into Go struct field ..." *)
| ErrUnmarshaler (field : string)
    (* an error returned by a field's UnmarshalJSON *)
| ErrUnsupported (field : string).
    (* "json: unsupported value: ..." *)

(** One encoded struct field: absent (dropped by [omitempty]), a
    key/value pair, or an error. *)
Definition field : Type := result error (list (string * json)).

Definition present (k : string) (v : json) : field := Ok [(k, v)].
Definition absent : field := Ok [].

(** A [string] field: [json.Marshal] writes its text as UTF-8. *)
Definition field_string_omitempty (k s : string) : field :=
  if String.eqb s "" then absent else present k (JStr (UTF8.coerce s)).

Definition field_string (k s : string) : field := present k (JStr (UTF8.coerce s)).

Definition field_int_omitempty (k : string) (z : Z) : field :=
  if z =? 0 then absent else present k (JNum z).

(** [json.Marshal] of an [interface{}]: [null] for nil, and for the
    value it holds what the value is written as. *)
Definition marshal_any {A} (enc : A -> result string json) (v : option A)
  : result error json :=
  match v with
  | None => Ok JNull
  | Some a =>
      match enc a with
      | Ok j => Ok j
      | Err _ => Err (ErrUnsupported "")
      end
  end.

(** An [interface{}] field with [omitempty]: dropped when nil. *)
Definition field_any_omitempty {A} (k : string) (enc : A -> result string json)
    (v : option A) : field :=
  match v with
  | None => absent
  | Some _ =>
      match marshal_any enc v with
      | Ok j => present k j
      | Err e => Err e
      end
  end.

(** The members [json.Marshal] writes for the entries of a map with
    string keys, in the order given. *)
Fixpoint marshal_members {V} (enc : V -> result error json) (l : list (string * V))
  : result error (list (string * json)) :=
  match l with
  | [] => Ok []
  | (k, v) :: l' =>
      match enc v with
      | Err e => Err e
      | Ok j =>
          match marshal_members enc l' with
          | Err e => Err e
          | Ok rest => Ok ((UTF8.coerce k, j) :: rest)
          end
      end
  end.

(** [json.Marshal] of a map with string keys: the entries are written in
    the order of their keys. *)
Definition marshal_map {V} (enc : V -> result error json) (l : list (string * V))
  : result error (list (string * json)) :=
  marshal_members enc (sort_keys l).

(** A map field with [omitempty]: dropped when nil or of length 0. *)
Definition field_map_omitempty {V} (k : string) (enc : V -> result error json)
    (m : gomap V) : field :=
  match m with
  | None | Some [] => absent
  | Some l =>
      match marshal_map enc l with
      | Ok kvs => present k (JObj kvs)
      | Err e => Err e
      end
  end.

(** A field whose type has its own encoder. *)
Definition field_codec {E} (k : string) (r : result E json) : field :=
  match r with
  | Ok j => present k j
  | Err _ => Err (ErrMarshaler k)
  end.

(** A field whose [MarshalJSON] produced the given bytes: [None] is the
    empty byte slice, which [json.Marshal] rejects ("unexpected end of
    JSON input"). *)
Definition field_marshaler (k : string) (raw : option json) : field :=
  match raw with
  | Some j => present k j
  | None => Err (ErrMarshaler k)
  end.

(** [json.Marshal] of a struct: the fields in declaration order. *)
Fixpoint object (fs : list field) : result error (list (string * json)) :=
  match fs with
  | [] => Ok []
  | f :: fs' =>
      match f with
      | Err e => Err e
      | Ok kv =>
          match object fs' with
          | Err e => Err e
          | Ok rest => Ok (kv ++ rest)
          end
      end
  end.

(** The value a struct decoder sees for key [k]: the last member with
    that key.  Keys are matched exactly; the decoder's fallback to a
    case-insensitive match is not modelled. *)
Definition member (k : string) (l : list (string * json)) : option json :=
  assoc String.eqb k (rev l).

Definition get_string (k : string) (l : list (string * json)) : result error string :=
  match member k l with
  | None | Some JNull => Ok ""
  | Some (JStr s) => Ok s
  | Some _ => Err (ErrUnmarshalType k)
  end.

(** Does a number literal fit a Go [int]? *)
Definition fits_int (z : Z) : bool := (int_min <=? z) && (z <=? int_max).

Definition get_int (k : string) (l : list (string * json)) : result error Z :=
  match member k l with
  | None | Some JNull => Ok 0
  | Some (JNum z) => if fits_int z then Ok z else Err (ErrUnmarshalType k)
  | Some _ => Err (ErrUnmarshalType k)
  end.

(** [json.Unmarshal] into an [interface{}]: [null] leaves it nil, and
    any other document is stored the way the library stores it. *)
Definition unmarshal_any {A} (dec : json -> result string A) (j : json)
  : result error (option A) :=
  match j with
  | JNull => Ok None
  | _ =>
      match dec j with
      | Ok a => Ok (Some a)
      | Err _ => Err (ErrUnmarshalType "")
      end
  end.

Definition get_any {A} (k : string) (dec : json -> result string A)
    (l : list (string * json)) : result error (option A) :=
  match member k l with
  | None => Ok None
  | Some j => unmarshal_any dec j
  end.

Fixpoint unmarshal_members {V} (dec : json -> result error V) (l : list (string * json))
  : result error (list (string * V)) :=
  match l with
  | [] => Ok []
  | (k, j) :: l' =>
      match dec j with
      | Err e => Err e
      | Ok v =>
          match unmarshal_members dec l' with
          | Err e => Err e
          | Ok rest => Ok ((k, v) :: rest)
          end
      end
  end.

(** [json.Unmarshal] of an object into a map with string keys: every
    member is decoded and stored under its key, a later member with the
    same key replacing an earlier one. *)
Definition unmarshal_map {V} (dec : json -> result error V) (l : list (string * json))
  : result error (list (string * V)) :=
  match unmarshal_members dec l with
  | Ok kvs => Ok (fold_left (fun acc kv => map_set (fst kv) (snd kv) acc) kvs [])
  | Err e => Err e
  end.

Definition get_map {V} (k : string) (dec : json -> result error V)
    (l : list (string * json)) : result error (gomap V) :=
  match member k l with
  | None | Some JNull => Ok None
  | Some (JObj m) =>
      match unmarshal_map dec m with
      | Ok kvs => Ok (Some kvs)
      | Err e => Err e
      end
  | Some _ => Err (ErrUnmarshalType k)
  end.

(** What a round trip asks of a value: its encoding decodes to it. *)
Definition survives {V} (enc : V -> result error json) (dec : json -> result error V)
    (v : V) : Prop :=
  exists j, enc v = Ok j /\ dec j = Ok v.

(** What a round trip asks of a map: distinct keys, as every Go map has
    them, that are UTF-8, and values that survive. *)
Definition map_survives {V} (enc : V -> result error json) (dec : json -> result error V)
    (l : list (string * V)) : Prop :=
  List.NoDup (map fst l) /\
  Forall (fun kv => UTF8.valid (fst kv) = true /\ survives enc dec (snd kv)) l.

(** A field whose type has its own decoder; [zero] when the key is
    absent. *)
Definition get_codec {E T} (k : string) (dec : json -> result E T) (zero : T)
    (l : list (string * json)) : result error T :=
  match member k l with
  | None => Ok zero
  | Some j =>
      match dec j with
      | Ok v => Ok v
      | Err _ => Err (ErrUnmarshaler k)
      end
  end.

(** A pointer field: [null] and an absent key give the nil pointer. *)
Definition get_pointer {E T} (k : string) (dec : json -> result E T)
    (l : list (string * json)) : result error (option T) :=
  match member k l with
  | None | Some JNull => Ok None
  | Some j =>
      match dec j with
      | Ok v => Ok (Some v)
      | Err _ => Err (ErrUnmarshaler k)
      end
  end.

End GoJSON.

Arguments UTF8.coerce : simpl never.
Arguments UTF8.valid : simpl never.
Arguments sort_keys : simpl never.
Arguments GoJSON.marshal_map : simpl never.
Arguments GoJSON.unmarshal_map : simpl never.

(* ===================================================================== *)
(** * structure.go *)

Module Structure.
Import GoJSON.

Section WithExternals.
Variable X : Externals.

(** [type Structure struct] *)
Record Structure : Type := mkStructure {
  path : Datastore.Key;
  Checksum : string;
  Compression : CompressionType X;
  Encoding : string;
  Entries : Z;
  Format : DataFormat.DataFormat;
  FormatConfig : option (FormatConfigT X);
  Kind : Kinds.Kind;
  Length : Z;
  Schema : option (RootSchema X)
}.

(** The zero value [Structure{}]. *)
Definition zero : Structure :=
  {| path := Datastore.zero; Checksum := ""; Compression := CompressionNone X;
     Encoding := ""; Entries := 0; Format := DataFormat.UnknownDataFormat;
     FormatConfig := None; Kind := ""; Length := 0; Schema := None |}.

(** [func (s *Structure) Path() datastore.Key] *)
Definition Path (s : Structure) : Datastore.Key := path s.

(** [func NewStructureRef(path datastore.Key) *Structure] *)
Definition NewStructureRef (p : Datastore.Key) : Structure :=
  {| path := p; Checksum := ""; Compression := CompressionNone X;
     Encoding := ""; Entries := 0; Format := DataFormat.UnknownDataFormat;
     FormatConfig := None; Kind := KindStructure X; Length := 0; Schema := None |}.

Definition is_some {A} (o : option A) : bool :=
  match o with Some _ => true | None => false end.

(** [func (s *Structure) IsEmpty() bool] *)
Definition IsEmpty (s : Structure) : bool :=
  String.eqb (Checksum s) "" &&
  Compression_eqb X (Compression s) (CompressionNone X) &&
  String.eqb (Encoding s) "" &&
  (Entries s =? 0) &&
  (Format s =? DataFormat.UnknownDataFormat) &&
  negb (is_some (FormatConfig s)) &&
  (Length s =? 0) &&
  negb (is_some (Schema s)).

(** [type _structure struct], the shadow type of the object form. *)
Record _structure : Type := mk_structure {
  _Checksum : string;
  _Compression : CompressionType X;
  _Encoding : string;
  _Entries : Z;
  _Format : DataFormat.DataFormat;
  _FormatConfig : gomap (option (AnyT X));
  _Kind : Kinds.Kind;
  _Length : Z;
  _Schema : option (RootSchema X)
}.

(** [json.Marshal(&_structure{...})]: the struct tags of [_structure],
    in declaration order. *)
Definition marshal_structure (o : _structure) : result GoJSON.error json :=
  match
    object
      [ field_string_omitempty "checksum" (_Checksum o);
        (if Compression_eqb X (_Compression o) (CompressionNone X) then absent
         else field_codec "compression" (Compression_marshal X (_Compression o)));
        field_string_omitempty "encoding" (_Encoding o);
        field_int_omitempty "entries" (_Entries o);
        field_marshaler "format" (DataFormat.MarshalJSON (_Format o));
        field_map_omitempty "formatConfig" (marshal_any (Any_marshal X))
          (_FormatConfig o);
        field_codec "kind" (Kind_marshal X (_Kind o));
        field_int_omitempty "length" (_Length o);
        match _Schema o with
        | None => absent
        | Some sch => field_codec "schema" (RootSchema_marshal X sch)
        end ]
  with
  | Ok kvs => Ok (JObj kvs)
  | Err e => Err e
  end.

(** [func (s Structure) MarshalJSON() (data []byte, err error)] *)
Definition MarshalJSON (s : Structure) : result GoJSON.error json :=
  if negb (String.eqb (Datastore.String (path s)) "")
     && String.eqb (Encoding s) ""
     && negb (is_some (Schema s))
  then Ok (Datastore.MarshalJSON (path s))
  else
    let kind := Kind s in
    let kind := if String.eqb kind "" then KindStructure X else kind in
    let opt :=
      match FormatConfig s with
      | Some fc => FormatConfig_Map X fc
      | None => None
      end in
    marshal_structure
      {| _Checksum := Checksum s;
         _Compression := Compression s;
         _Encoding := Encoding s;
         _Entries := Entries s;
         _Format := Format s;
         _FormatConfig := opt;
         _Kind := kind;
         _Length := Length s;
         _Schema := Schema s |}.

Inductive error : Type :=
| ErrUnmarshalStructure (e : GoJSON.error)
    (* "error unmarshaling dataset structure from json: %s" *)
| ErrParseFormatConfig (msg : string).
    (* "error parsing structure formatConfig: %s" *)

(** [json.Unmarshal(data, _s)] for a [_structure] target. *)
Definition unmarshal_structure (data : json) : result GoJSON.error _structure :=
  match data with
  | JObj l =>
      (let* checksum := get_string "checksum" l in
       let* compression :=
         get_codec "compression" (Compression_unmarshal X) (CompressionNone X) l in
       let* encoding := get_string "encoding" l in
       let* entries := get_int "entries" l in
       let* format :=
         get_codec "format" DataFormat.UnmarshalJSON DataFormat.UnknownDataFormat l in
       let* formatConfig :=
         get_map "formatConfig" (unmarshal_any (Any_unmarshal X)) l in
       let* kind := get_codec "kind" (Kind_unmarshal X) "" l in
       let* length := get_int "length" l in
       let* schema := get_pointer "schema" (RootSchema_unmarshal X) l in
       Ok {| _Checksum := checksum; _Compression := compression;
             _Encoding := encoding; _Entries := entries; _Format := format;
             _FormatConfig := formatConfig; _Kind := kind; _Length := length;
             _Schema := schema |})%result
  | _ => Err (ErrUnmarshalType "")
  end.

(** [func (s *Structure) UnmarshalJSON(data []byte) (err error)]: the
    value stored in [*s]. *)
Definition UnmarshalJSON (data : json) : result error Structure :=
  match DataFormat.json_to_string data with
  | Some str =>
      Ok {| path := NewKey X str; Checksum := ""; Compression := CompressionNone X;
            Encoding := ""; Entries := 0; Format := DataFormat.UnknownDataFormat;
            FormatConfig := None; Kind := ""; Length := 0; Schema := None |}
  | None =>
      match unmarshal_structure data with
      | Err e => Err (ErrUnmarshalStructure e)
      | Ok _s =>
          let parsed :=
            match _FormatConfig _s with
            | Some m => ParseFormatConfigMap X (_Format _s) m
            | None => Ok None
            end in
          match parsed with
          | Err msg => Err (ErrParseFormatConfig msg)
          | Ok fmtCfg =>
              Ok {| path := Datastore.zero;
                    Checksum := _Checksum _s;
                    Compression := _Compression _s;
                    Encoding := _Encoding _s;
                    Entries := _Entries _s;
                    Format := _Format _s;
                    FormatConfig := fmtCfg;
                    Kind := _Kind _s;
                    Length := _Length _s;
                    Schema := _Schema _s |}
          end
      end
  end.

(** One step of the loop of [Assign]: merge [st] into [s]. *)
Definition assign1 (s st : Structure) : Structure :=
  {| path := if negb (String.eqb (Datastore.String (path st)) "") then path st else path s;
     Checksum := if negb (String.eqb (Checksum st) "") then Checksum st else Checksum s;
     Compression :=
       if negb (Compression_eqb X (Compression st) (CompressionNone X))
       then Compression st else Compression s;
     Encoding := if negb (String.eqb (Encoding st) "") then Encoding st else Encoding s;
     Entries := if negb (Entries st =? 0) then Entries st else Entries s;
     Format :=
       if negb (Format st =? DataFormat.UnknownDataFormat) then Format st else Format s;
     FormatConfig := if is_some (FormatConfig st) then FormatConfig st else FormatConfig s;
     Kind := if negb (String.eqb (Kind st) "") then Kind st else Kind s;
     Length := if negb (Length st =? 0) then Length st else Length s;
     Schema := if is_some (Schema st) then Schema st else Schema s |}.

(** [func (s *Structure) Assign(structures ...*Structure)]: the value
    left in [*s]; a nil argument is skipped. *)
Definition Assign (s : Structure) (structures : list (option Structure)) : Structure :=
  fold_left
    (fun s o => match o with None => s | Some st => assign1 s st end)
    structures s.

(** ** What the round trip is stated with *)

(** The value [UnmarshalJSON] builds from a JSON string: the address, and
    every other field at its zero value. *)
Definition reference (k : Datastore.Key) : Structure :=
  {| path := k; Checksum := ""; Compression := CompressionNone X;
     Encoding := ""; Entries := 0; Format := DataFormat.UnknownDataFormat;
     FormatConfig := None; Kind := ""; Length := 0; Schema := None |}.

(** The kind tag the object form carries. *)
Definition encoded_kind (s : Structure) : Kinds.Kind :=
  if String.eqb (Kind s) "" then KindStructure X else Kind s.

(** [s] as the object form holds it: no address, and the kind tag filled
    in. *)
Definition without_address (s : Structure) : Structure :=
  {| path := Datastore.zero; Checksum := Checksum s; Compression := Compression s;
     Encoding := Encoding s; Entries := Entries s; Format := Format s;
     FormatConfig := FormatConfig s; Kind := encoded_kind s; Length := Length s;
     Schema := Schema s |}.

(** The guard of [MarshalJSON]. *)
Definition encodes_as_reference (s : Structure) : bool :=
  negb (String.eqb (Datastore.String (path s)) "")
  && String.eqb (Encoding s) ""
  && negb (is_some (Schema s)).

(** What decoding the encoding of [s] is expected to give. *)
Definition read_back (s : Structure) : Structure :=
  if encodes_as_reference s
  then reference (NewKey X (Datastore.String (path s)))
  else without_address s.

(** A reference: an empty structure bound to an address, whose text is
    UTF-8. *)
Definition is_reference (s : Structure) : Prop :=
  IsEmpty s = true /\
  Datastore.String (path s) <> "" /\
  Compression s = CompressionNone X /\
  UTF8.valid (Datastore.String (path s)) = true.

(** The codecs of the collaborators, and the format codec of
    dataFormat.go, give back what [s] carries: the checksum and the
    character encoding are UTF-8, the format is one of the defined ones
    other than the unknown format, the counters are Go [int]s, the
    compression, kind tag and schema survive their own encoding, and the
    map of the format configuration, which is not empty and survives the
    encoding of a map, parses to the configuration. *)
Record carried_round_trip (s : Structure) : Prop := mkCarried {
  crt_text : UTF8.valid (Checksum s) = true /\ UTF8.valid (Encoding s) = true;
  crt_format : DataFormat.defined (Format s) /\ Format s <> DataFormat.UnknownDataFormat;
  crt_entries : in_int (Entries s);
  crt_length : in_int (Length s);
  crt_compression :
    if Compression_eqb X (Compression s) (CompressionNone X)
    then Compression s = CompressionNone X
    else exists j, Compression_marshal X (Compression s) = Ok j /\
                   Compression_unmarshal X j = Ok (Compression s);
  crt_kind :
    exists j, Kind_marshal X (encoded_kind s) = Ok j /\
              Kind_unmarshal X j = Ok (encoded_kind s);
  crt_schema :
    match Schema s with
    | None => True
    | Some sch =>
        exists j, RootSchema_marshal X sch = Ok j /\ j <> JNull /\
                  RootSchema_unmarshal X j = Ok sch
    end;
  crt_config :
    match FormatConfig s with
    | None => True
    | Some fc =>
        exists m,
          FormatConfig_Map X fc = Some m /\ m <> [] /\
          map_survives (marshal_any (Any_marshal X)) (unmarshal_any (Any_unmarshal X)) m /\
          ParseFormatConfigMap X (Format s) (sort_keys m) = Ok (Some fc)
    end
}.

(** A structure that takes the object form: no bound address, or a
    character encoding, or a schema. *)
Definition is_object (s : Structure) : Prop :=
  encodes_as_reference s = false /\ carried_round_trip s.

End WithExternals.

Arguments reference {X} _.
Arguments encoded_kind {X} _.
Arguments without_address {X} _.
Arguments encodes_as_reference {X} _.
Arguments read_back {X} _.
Arguments is_reference {X} _.
Arguments carried_round_trip {X} _.
Arguments is_object {X} _.
Arguments path {X} _.
Arguments Checksum {X} _.
Arguments Compression {X} _.
Arguments Encoding {X} _.
Arguments Entries {X} _.
Arguments Format {X} _.
Arguments FormatConfig {X} _.
Arguments Kind {X} _.
Arguments Length {X} _.
Arguments Schema {X} _.
Arguments Path {X} _.
Arguments IsEmpty {X} _.
Arguments MarshalJSON {X} _.

End Structure.

(* ===================================================================== *)
(** * transform.go *)

(** The revision of transform.go that carries the kind tag [Qri]. *)
Module Transform.
Import GoJSON.

Section WithExternals.
Variable X : Externals.

(** [type Transform struct] *)
Record Transform : Type := mkTransform {
  path : Datastore.Key;
  Qri : Kinds.Kind;
  Syntax : string;
  AppVersion : string;
  Data : string;
  Structure : option (Structure.Structure X);
  Config : gomap (option (AnyT X));
  Resources : gomap (ResourceT X)
}.

(** The zero value [Transform{}]. *)
Definition zero : Transform :=
  {| path := Datastore.zero; Qri := ""; Syntax := ""; AppVersion := "";
     Data := ""; Structure := None; Config := None; Resources := None |}.

(** [func NewTransformRef(path datastore.Key) *Transform] *)
Definition NewTransformRef (p : Datastore.Key) : Transform :=
  {| path := p; Qri := ""; Syntax := ""; AppVersion := "";
     Data := ""; Structure := None; Config := None; Resources := None |}.

(** [func (q *Transform) Path() datastore.Key] *)
Definition Path (q : Transform) : Datastore.Key := path q.

Definition is_nil {A} (o : option A) : bool :=
  match o with None => true | Some _ => false end.

(** [func (q *Transform) IsEmpty() bool] *)
Definition IsEmpty (q : Transform) : bool :=
  String.eqb (Data q) "" &&
  is_nil (Resources q) &&
  String.eqb (Syntax q) "" &&
  String.eqb (AppVersion q) "" &&
  is_nil (Structure q) &&
  is_nil (Config q).

(** [type _transform struct] *)
Record _transform : Type := mk_transform {
  _AppVersion : string;
  _Config : gomap (option (AnyT X));
  _Data : string;
  _Qri : Kinds.Kind;
  _Resources : gomap (ResourceT X);
  _Structure : option (Structure.Structure X);
  _Syntax : string
}.

(** [json.Marshal] of one [*Dataset] of the resources. *)
Definition marshal_resource (r : ResourceT X) : result GoJSON.error json :=
  match Resource_marshal X r with
  | Ok j => Ok j
  | Err _ => Err (ErrMarshaler "resources")
  end.

(** [json.Marshal] of a [map[string]*Dataset]. *)
Definition marshal_resources (l : list (string * ResourceT X))
  : result GoJSON.error (list (string * json)) :=
  marshal_map marshal_resource l.

(** [json.Marshal(&_transform{...})] *)
Definition marshal_transform (o : _transform) : result GoJSON.error json :=
  match
    object
      [ field_string_omitempty "appVersion" (_AppVersion o);
        field_map_omitempty "config" (marshal_any (Any_marshal X)) (_Config o);
        field_string_omitempty "data" (_Data o);
        (if String.eqb (_Qri o) "" then absent
         else field_codec "qri" (Kind_marshal X (_Qri o)));
        match _Resources o with
        | None | Some [] => absent
        | Some l =>
            match marshal_resources l with
            | Ok kvs => present "resources" (JObj kvs)
            | Err e => Err e
            end
        end;
        match _Structure o with
        | None => absent
        | Some st =>
            match Structure.MarshalJSON st with
            | Ok j => present "structure" j
            | Err _ => Err (ErrMarshaler "structure")
            end
        end;
        field_string_omitempty "syntax" (_Syntax o) ]
  with
  | Ok kvs => Ok (JObj kvs)
  | Err e => Err e
  end.

(** [func (q Transform) MarshalJSONObject() ([]byte, error)] *)
Definition MarshalJSONObject (q : Transform) : result GoJSON.error json :=
  let kind := Qri q in
  let kind := if String.eqb kind "" then KindTransform X else kind in
  marshal_transform
    {| _AppVersion := AppVersion q;
       _Config := Config q;
       _Data := Data q;
       _Qri := kind;
       _Resources := Resources q;
       _Structure := Structure q;
       _Syntax := Syntax q |}.

(** [func (q Transform) MarshalJSON() ([]byte, error)] *)
Definition MarshalJSON (q : Transform) : result GoJSON.error json :=
  if negb (String.eqb (Datastore.String (path q)) "") && IsEmpty q
  then Ok (Datastore.MarshalJSON (path q))
  else MarshalJSONObject q.

(** "Every field except the address is at its zero value", the kind
    tag among the fields. *)
Definition all_zero (q : Transform) : Prop :=
  Qri q = "" /\ Syntax q = "" /\ AppVersion q = "" /\ Data q = "" /\
  Structure q = None /\ Config q = None /\ Resources q = None.

(** The same, leaving the kind tag aside. *)
Definition content_zero (q : Transform) : Prop :=
  Syntax q = "" /\ AppVersion q = "" /\ Data q = "" /\
  Structure q = None /\ Config q = None /\ Resources q = None.

End WithExternals.

Arguments path {X} _.
Arguments Qri {X} _.
Arguments Syntax {X} _.
Arguments AppVersion {X} _.
Arguments Data {X} _.
Arguments Structure {X} _.
Arguments Config {X} _.
Arguments Resources {X} _.
Arguments IsEmpty {X} _.
Arguments MarshalJSON {X} _.
Arguments MarshalJSONObject {X} _.
Arguments all_zero {X} _.
Arguments content_zero {X} _.

End Transform.

(** The earlier revision of transform.go, without the kind tag. *)
Module TransformV0.

Section WithExternals.
Variable X : Externals.

(** [type Transform struct] *)
Record Transform : Type := mkTransform {
  path : Datastore.Key;
  Syntax : string;
  AppVersion : string;
  Data : string;
  Structure : option (Structure.Structure X);
  Config : gomap (option (AnyT X));
  Resources : gomap (ResourceT X)
}.

(** [func (q *Transform) IsEmpty() bool] *)
Definition IsEmpty (q : Transform) : bool :=
  String.eqb (Data q) "" && Transform.is_nil (Resources q).

End WithExternals.

Arguments Data {X} _.
Arguments Resources {X} _.
Arguments IsEmpty {X} _.

End TransformV0.

(* ===================================================================== *)
(** * A concrete choice of collaborators *)

(** One way to fill in [Externals], to run the reference model on
    examples: keys are slash-rooted strings, a compression type is a
    number, a kind and a schema are encoded as themselves, and a format
    configuration is its own map. *)
Module Sample.

(** Values to hold in an [interface{}]: a Go [int], a [float64] that
    holds a whole number, a string or a boolean.  [json.Marshal] writes an
    [int] and such a [float64] with the same digits, and
    [json.Unmarshal] stores every number as a [float64].  The sample stops
    at the whole numbers a [float64] holds exactly. *)
Inductive value : Type :=
| VInt (z : Z)
| VFloat (z : Z)
| VString (s : string)
| VBool (b : bool).

Definition exact_float (z : Z) : bool := negb (2 ^ 53 <? Z.abs z).

Definition exact_int (z : Z) : bool := (int_min <=? z) && negb (int_max <? z).

Definition value_marshal (v : value) : result string json :=
  match v with
  | VInt z => if exact_int z then Ok (JNum z) else Err "not an int"
  | VFloat z => if exact_float z then Ok (JNum z) else Err "beyond the sample"
  | VString s => Ok (JStr (UTF8.coerce s))
  | VBool b => Ok (JBool b)
  end.

Definition value_unmarshal (j : json) : result string value :=
  match j with
  | JNum z => if exact_float z then Ok (VFloat z) else Err "beyond the sample"
  | JStr s => Ok (VString s)
  | JBool b => Ok (VBool b)
  | _ => Err "beyond the sample"
  end.

Definition rooted (s : string) : Datastore.Key :=
  Datastore.mkKey
    (if String.eqb s "" then "/"
     else if Strings.has_prefix "/" s then s
     else ("/" ++ s)%string).

Definition string_of_json (what : string) (j : json) : result string string :=
  match j with
  | JStr s => Ok s
  | JNull => Ok ""
  | _ => Err what
  end.

Definition number_of_json (what : string) (j : json) : result string Z :=
  match j with
  | JNum z => Ok z
  | JNull => Ok 0
  | _ => Err what
  end.

Definition X : Externals :=
  {| NewKey := rooted;
     CompressionType := Z;
     CompressionNone := 0;
     Compression_eqb := Z.eqb;
     Compression_marshal := fun c => Ok (JNum c);
     Compression_unmarshal := number_of_json "compression";
     KindStructure := "qri:st:0";
     KindTransform := "qri:tf:0";
     Kind_marshal := fun k => Ok (JStr k);
     Kind_unmarshal := string_of_json "kind";
     AnyT := value;
     Any_marshal := value_marshal;
     Any_unmarshal := value_unmarshal;
     FormatConfigT := list (string * option value);
     FormatConfig_Map := fun fc => Some fc;
     ParseFormatConfigMap := fun _ m => Ok (Some m);
     RootSchema := json;
     RootSchema_marshal := fun sch => Ok sch;
     RootSchema_unmarshal := fun j => Ok j;
     ResourceT := string;
     Resource_marshal := fun r => Ok (JStr r);
     Resource_unmarshal := string_of_json "resource" |}.

(** A structure that was loaded from the store and had its address
    bound: a CSV body of two entries, with no schema and no declared
    character encoding. *)
Definition loaded_structure : Structure.Structure X :=
  Structure.mkStructure X
    (Datastore.mkKey "/ipfs/QmStructure")   (* path *)
    "QmBodyChecksum"                        (* Checksum *)
    0                                       (* Compression *)
    ""                                      (* Encoding *)
    2                                       (* Entries *)
    DataFormat.CsvDataFormat                (* Format *)
    None                                    (* FormatConfig *)
    "qri:st:0"                              (* Kind *)
    12                                      (* Length *)
    None.                                   (* Schema *)

(** A structure literal as a caller writes it: format and encoding, no
    address, no kind tag. *)
Definition literal_structure : Structure.Structure X :=
  Structure.mkStructure X
    Datastore.zero                          (* path *)
    ""                                      (* Checksum *)
    0                                       (* Compression *)
    "utf-8"                                 (* Encoding *)
    0                                       (* Entries *)
    DataFormat.CsvDataFormat                (* Format *)
    None                                    (* FormatConfig *)
    ""                                      (* Kind *)
    0                                       (* Length *)
    None.                                   (* Schema *)

(** A reference to a stored structure, as [NewStructureRef] makes it. *)
Definition structure_ref : Structure.Structure X :=
  Structure.NewStructureRef X (Datastore.mkKey "/ipfs/QmStructure").

(** A reference whose address is the text [X], which is not rooted. *)
Definition relative_ref : Structure.Structure X :=
  Structure.NewStructureRef X (Datastore.mkKey "X").

(** The literal with a character encoding that is no UTF-8 text: the
    single byte 255. *)
Definition mistyped_structure : Structure.Structure X :=
  Structure.mkStructure X
    Datastore.zero                          (* path *)
    ""                                      (* Checksum *)
    0                                       (* Compression *)
    (String.String (ascii_of_nat 255) EmptyString)   (* Encoding *)
    0                                       (* Entries *)
    DataFormat.CsvDataFormat                (* Format *)
    None                                    (* FormatConfig *)
    "qri:st:0"                              (* Kind *)
    0                                       (* Length *)
    None.                                   (* Schema *)

(** A CSV structure with a format configuration of two options, listed
    in key order. *)
Definition configured_structure : Structure.Structure X :=
  Structure.mkStructure X
    Datastore.zero                          (* path *)
    ""                                      (* Checksum *)
    0                                       (* Compression *)
    "utf-8"                                 (* Encoding *)
    0                                       (* Entries *)
    DataFormat.CsvDataFormat                (* Format *)
    (Some [("headerRow", Some (VBool true)); ("separator", Some (VString ","))])
    "qri:st:0"                              (* Kind *)
    0                                       (* Length *)
    None.                                   (* Schema *)

(** A transform that holds its kind tag and nothing else. *)
Definition tagged_transform : Transform.Transform X :=
  Transform.mkTransform X
    Datastore.zero                          (* path *)
    "qri:tf:0"                              (* Qri *)
    ""                                      (* Syntax *)
    ""                                      (* AppVersion *)
    ""                                      (* Data *)
    None                                    (* Structure *)
    None                                    (* Config *)
    None.                                   (* Resources *)

End Sample.

(* ===================================================================== *)
(** * dsfs/dataset.go: objects, store and batch *)

(** What [dsfs] takes from declarations outside the files embedded here:
    the contents of the sub-documents it only moves around, and their
    encoders. *)
Record Documents : Type := mkDocuments {
  (** [dataset.Meta] with its [Assign] and [NewMetaRef] *)
  MetaT : Type;
  Meta_Assign : MetaT -> MetaT -> MetaT;
  NewMetaRef : Datastore.Key -> MetaT;
  (** [dataset.Commit] with its [Assign] and [NewCommitRef] *)
  CommitT : Type;
  Commit_Assign : CommitT -> CommitT -> CommitT;
  NewCommitRef : Datastore.Key -> CommitT;
  (** the fields of a [Transform] that [dsfs] does not name (syntax,
      configuration, output structure), with their part of [Assign] *)
  TransformRest : Type;
  TransformRest_zero : TransformRest;
  TransformRest_Assign : TransformRest -> TransformRest -> TransformRest;
  (** the fields of a [Viz] that [dsfs] does not name *)
  VizRest : Type;
  VizRest_zero : VizRest;
  VizRest_Assign : VizRest -> VizRest -> VizRest;
  (** the fields of a [Dataset] that [dsfs] does not name (timestamp,
      kind tag), with their part of [Assign] and of [IsEmpty] *)
  DatasetRest : Type;
  DatasetRest_zero : DatasetRest;
  DatasetRest_Assign : DatasetRest -> DatasetRest -> DatasetRest;
  DatasetRest_IsEmpty : DatasetRest -> bool
}.

Module Dsfs.

(** Modelled from the spec: the canonical object names of section 6
    ("fixed strings": top-level, structure, meta, commit, transform and
    viz documents, and the two script file names), which dsfs declares
    outside dataset.go. *)
Definition PackageFileDataset : string := "dataset.json".
Definition PackageFileStructure : string := "structure.json".
Definition PackageFileMeta : string := "meta.json".
Definition PackageFileCommit : string := "commit.json".
Definition PackageFileTransform : string := "transform.json".
Definition PackageFileViz : string := "viz.json".
Definition transformScriptFilename : string := "transform_script".
Definition vizScriptFilename : string := "viz_script".

(** A pointer: an index into the heap. *)
Definition loc : Type := nat.

(** [cafs.File], as a named in-memory file. *)
Record File : Type := mkFile {
  FileName : string;
  FileBytes : string
}.

(** [cafs.AddedFile], the completion event of a batch. *)
Record AddedFile : Type := mkAddedFile {
  Name : string;
  AddedPath : Datastore.Key
}.

(** [dataset.TransformResource] *)
Record TransformResource : Type := mkResource {
  Path : string
}.

Set Implicit Arguments.

Section WithDocuments.
Variable X : Externals.
Variable D : Documents.

(** Modelled from the spec: the [Transform] of section 3 in the
    revision dataset.go is written against (resources with a [Path],
    an optional [Script] blob and its [ScriptPath]); that revision of
    transform.go is not among the files embedded here.  [Script] is an
    [io.Reader]: nil, or a reader over the given bytes. *)
Record Transform : Type := mkTransform {
  tf_path : Datastore.Key;
  tf_ScriptPath : string;
  tf_Script : option string;
  tf_Resources : gomap TransformResource;
  tf_rest : TransformRest D
}.

(** Modelled from the spec: the [Viz] of section 3, "same referencing
    discipline as Transform"; viz.go is not among the files embedded
    here. *)
Record Viz : Type := mkViz {
  viz_path : Datastore.Key;
  viz_ScriptPath : string;
  viz_Script : option string;
  viz_rest : VizRest D
}.

(** Modelled from the spec: the [Dataset] of section 3, the aggregate
    root with its own address, body address, previous-version address
    and five sub-document slots, each a pointer; the dataset.go of this
    revision is not among the files embedded here. *)
Record Dataset : Type := mkDataset {
  ds_path : Datastore.Key;
  BodyPath : string;
  PreviousPath : string;
  ds_rest : DatasetRest D;
  Meta : option loc;
  Structure : option loc;
  Transform_ : option loc;
  Commit : option loc;
  Viz_ : option loc
}.

(** The objects pointers lead to. *)
Inductive obj : Type :=
| ODataset (d : Dataset)
| OMeta (m : MetaT D)
| OStructure (s : Structure.Structure X)
| OTransform (t : Transform)
| OCommit (c : CommitT D)
| OViz (v : Viz).

Definition heap : Type := list obj.

(** [&T{...}]: a new object at a fresh location. *)
Definition alloc (h : heap) (o : obj) : loc * heap := (length h, h ++ [o]).

Definition as_dataset (o : obj) : option Dataset :=
  match o with ODataset d => Some d | _ => None end.
Definition as_meta (o : obj) : option (MetaT D) :=
  match o with OMeta m => Some m | _ => None end.
Definition as_structure (o : obj) : option (Structure.Structure X) :=
  match o with OStructure s => Some s | _ => None end.
Definition as_transform (o : obj) : option Transform :=
  match o with OTransform t => Some t | _ => None end.
Definition as_commit (o : obj) : option (CommitT D) :=
  match o with OCommit c => Some c | _ => None end.
Definition as_viz (o : obj) : option Viz :=
  match o with OViz v => Some v | _ => None end.

(** [*p] for a pointer to a [T]. *)
Definition deref {T} (proj : obj -> option T) (h : heap) (l : loc) : option T :=
  match h !! l with
  | Some o => proj o
  | None => None
  end.

Definition Dataset_zero : Dataset :=
  {| ds_path := Datastore.zero; BodyPath := ""; PreviousPath := "";
     ds_rest := DatasetRest_zero D;
     Meta := None; Structure := None; Transform_ := None;
     Commit := None; Viz_ := None |}.

(** [dataset.NewDatasetRef], [NewTransformRef], [NewVizRef]: the
    internal path set, and no other field. *)
Definition NewDatasetRef (p : Datastore.Key) : Dataset :=
  {| ds_path := p; BodyPath := ""; PreviousPath := "";
     ds_rest := DatasetRest_zero D;
     Meta := None; Structure := None; Transform_ := None;
     Commit := None; Viz_ := None |}.

Definition NewTransformRef (p : Datastore.Key) : Transform :=
  {| tf_path := p; tf_ScriptPath := ""; tf_Script := None;
     tf_Resources := None; tf_rest := TransformRest_zero D |}.

Definition NewVizRef (p : Datastore.Key) : Viz :=
  {| viz_path := p; viz_ScriptPath := ""; viz_Script := None;
     viz_rest := VizRest_zero D |}.

Definition key_bound (k : Datastore.Key) : bool :=
  negb (String.eqb (Datastore.String k) "").

(** Modelled from the spec: [Transform.Assign], section 4.1: "for each
    non-zero field in each argument, overwrite the receiver's field;
    maps merge key-by-key". *)
Definition Transform_Assign (q q2 : Transform) : Transform :=
  {| tf_path := if key_bound (tf_path q2) then tf_path q2 else tf_path q;
     tf_ScriptPath :=
       if negb (String.eqb (tf_ScriptPath q2) "") then tf_ScriptPath q2
       else tf_ScriptPath q;
     tf_Script := match tf_Script q2 with Some r => Some r | None => tf_Script q end;
     tf_Resources := map_merge (tf_Resources q) (tf_Resources q2);
     tf_rest := TransformRest_Assign D (tf_rest q) (tf_rest q2) |}.

(** Modelled from the spec: [Viz.Assign], section 4.1. *)
Definition Viz_Assign (v v2 : Viz) : Viz :=
  {| viz_path := if key_bound (viz_path v2) then viz_path v2 else viz_path v;
     viz_ScriptPath :=
       if negb (String.eqb (viz_ScriptPath v2) "") then viz_ScriptPath v2
       else viz_ScriptPath v;
     viz_Script := match viz_Script v2 with Some r => Some r | None => viz_Script v end;
     viz_rest := VizRest_Assign D (viz_rest v) (viz_rest v2) |}.

(** Modelled from the spec: the merge of one sub-document slot in
    [Dataset.Assign], section 4.1: a "left-to-right shallow merge" that
    overwrites "the receiver's field" with the argument's non-zero one,
    while "nested sub-documents merge recursively via their own
    Assign".  A slot of the receiver that is nil takes the argument's
    pointer, after which receiver and argument share the sub-document; a
    slot that holds a sub-document has the argument's merged into it.  A
    location that does not hold a [T] stands for no Go pointer to a [T],
    and is passed over. *)
Definition assign_slot {T} (inj : T -> obj) (proj : obj -> option T)
    (merge : T -> T -> T)
    (h : heap) (mine theirs : option loc) : heap * option loc :=
  match theirs with
  | None => (h, mine)
  | Some l2 =>
      match deref proj h l2 with
      | None => (h, mine)
      | Some v2 =>
          match mine with
          | None => (h, Some l2)
          | Some l1 =>
              match deref proj h l1 with
              | Some v1 => (<[l1 := inj (merge v1 v2)]> h, Some l1)
              | None => (h, Some l1)
              end
          end
      end
  end.

(** Modelled from the spec: [Dataset.Assign] for one argument, section
    4.1: the receiver is the dataset at [l], the argument the dataset
    value [d]. *)
Definition Dataset_assign1 (h : heap) (l : loc) (d : Dataset) : heap :=
  match deref as_dataset h l with
  | None => h
  | Some ds =>
      let '(h, meta) :=
        assign_slot OMeta as_meta (Meta_Assign D) h (Meta ds) (Meta d) in
      let '(h, structure) :=
        assign_slot OStructure as_structure (Structure.assign1 X)
          h (Structure ds) (Structure d) in
      let '(h, transform) :=
        assign_slot OTransform as_transform Transform_Assign
          h (Transform_ ds) (Transform_ d) in
      let '(h, commit) :=
        assign_slot OCommit as_commit (Commit_Assign D)
          h (Commit ds) (Commit d) in
      let '(h, viz) :=
        assign_slot OViz as_viz Viz_Assign h (Viz_ ds) (Viz_ d) in
      <[l := ODataset
               {| ds_path := if key_bound (ds_path d) then ds_path d else ds_path ds;
                  BodyPath :=
                    if negb (String.eqb (BodyPath d) "") then BodyPath d else BodyPath ds;
                  PreviousPath :=
                    if negb (String.eqb (PreviousPath d) "") then PreviousPath d
                    else PreviousPath ds;
                  ds_rest := DatasetRest_Assign D (ds_rest ds) (ds_rest d);
                  Meta := meta; Structure := structure; Transform_ := transform;
                  Commit := commit; Viz_ := viz |}]> h
  end.

(** [func (ds *Dataset) Assign(datasets ...*Dataset)] with the
    arguments given as pointers; a nil argument is skipped. *)
Definition Dataset_Assign (h : heap) (l : loc) (datasets : list (option loc)) : heap :=
  fold_left
    (fun h o =>
       match o with
       | None => h
       | Some l2 =>
           match deref as_dataset h l2 with
           | Some d => Dataset_assign1 h l d
           | None => h
           end
       end)
    datasets h.

(** Modelled from the spec: [Dataset.IsEmpty], section 4.1: "true iff
    every field except the address is at its zero value". *)
Definition Dataset_IsEmpty (ds : Dataset) : bool :=
  String.eqb (BodyPath ds) "" &&
  String.eqb (PreviousPath ds) "" &&
  DatasetRest_IsEmpty D (ds_rest ds) &&
  Transform.is_nil (Meta ds) &&
  Transform.is_nil (Structure ds) &&
  Transform.is_nil (Transform_ ds) &&
  Transform.is_nil (Commit ds) &&
  Transform.is_nil (Viz_ ds).

(** ** The content store *)

(** What dataset.go calls that is declared elsewhere: the key of a
    package file, the decoder and the encoders of the documents
    ([json.Marshal] and the [JSONFile] helper, down to bytes), and the
    address the content store gives a file. *)
Record Collaborators : Type := mkCollaborators {
  PackageKeypath : Datastore.Key -> string -> Datastore.Key;
  UnmarshalDataset : string -> result string Dataset;
  json_bytes : json -> string;
  marshalMeta : MetaT D -> result string string;
  marshalTransform : Transform -> result string string;
  marshalCommit : CommitT D -> result string string;
  marshalViz : Viz -> result string string;
  marshalDataset : heap -> Dataset -> result string string;
  address : File -> Datastore.Key
}.

Variable C : Collaborators.

Inductive error : Type :=
| ErrGetFileBytes (msg : string)       (* "error getting file bytes: %s" *)
| ErrUnmarshalFile (msg : string)      (* "error unmarshaling %s file: %s" *)
| ErrEmptyDataset                      (* "cannot save empty dataset" *)
| ErrNewAdder (msg : string)           (* "error creating new adder: %s" *)
| ErrMarshalMeta (msg : string)        (* "error marshaling metadata to json: %s" *)
| ErrTransformResource (key : string)  (* "transform resource %s requires a path to save" *)
| ErrMarshalTransform (msg : string)   (* "error marshalling dataset transform to json: %s" *)
| ErrMarshalCommit (msg : string)      (* "error marshilng dataset commit message to json: %s" *)
| ErrMarshalStructure                  (* "error marshaling dataset structure to json: %s" *)
| ErrMarshalViz (msg : string)         (* "error marshalling dataset viz to json: %s" *)
| ErrJSON (msg : string)               (* an error of json.Marshal, sent on [done] as it is *)
| ErrClose (msg : string)              (* the error of adder.Close() *)
| ErrNilPointer.                       (* a nil pointer dereference *)

(** ** LoadDatasetRefs *)

(** Is the outcome of a read an error, or no bytes?  This is the test
    [err != nil || len(data) == 0]. *)
Definition unusable (r : result string string) : bool :=
  match r with
  | Err _ => true
  | Ok data => Strings.len data =? 0
  end.

(** The store as [LoadDatasetRefs] sees it: [reads n k] is what
    [fileBytes(store.Get(k))] yields at the [n]-th read of the store,
    bytes or an error message. *)
Definition reads : Type := nat -> Datastore.Key -> result string string.

Record Loaded : Type := mkLoaded {
  (** how many times the store was read *)
  gets : nat;
  (** the returned pointer and error, with the heap the dataset lives in *)
  loaded : result error (loc * heap)
}.

(** [func LoadDatasetRefs(store cafs.Filestore, path datastore.Key)],
    which returns a pointer to the dataset, or an error. *)
Definition LoadDatasetRefs (store : reads) (h : heap) (path : Datastore.Key) : Loaded :=
  let path := PackageKeypath C path PackageFileDataset in
  let r := store O path in
  let n := 1%nat in
  let '(r, n) := if unusable r then (store n path, S n) else (r, n) in
  match r with
  | Err msg => mkLoaded n (Err (ErrGetFileBytes msg))
  | Ok data =>
      match UnmarshalDataset C data with
      | Err msg => mkLoaded n (Err (ErrUnmarshalFile msg))
      | Ok d =>
          let '(ds, h) := alloc h (ODataset d) in
          let '(ref, h) := alloc h (ODataset (NewDatasetRef path)) in
          let h := Dataset_Assign h ds [Some ref] in
          mkLoaded n (Ok (ds, h))
      end
  end.

(** ** The batch *)

(** The program point of an [adder.AddFile] call. *)
Inductive Site : Type :=
| SiteMeta
| SiteBody
| SiteTransformScript
| SiteTransform          (* transform.json of a transform without script *)
| SiteCommit
| SiteStructure
| SiteVizScript
| SiteViz                (* viz.json of a viz without script *)
| SiteTransform2         (* transform.json, once the script has an address *)
| SiteViz2               (* viz.json, once the script has an address *)
| SiteDataset.           (* the top-level document *)

(** What happened at the store, in order. *)
Inductive LogEntry : Type :=
| LNewAdder (pin wrap : bool)
| LAdd (site : Site) (f : File)
| LDone (site : Site) (f : File)
| LFail (site : Site) (f : File)
| LClose.

(** Modelled from the spec: the [Batch] of sections 4.2 and 6, which
    is [cafs.Adder]: it "accepts named file-additions and
    asynchronously emits completion events of (name, address) pairs as
    each finishes, in arbitrary completion order, until explicitly
    closed, after which no more events arrive and any outstanding
    error is surfaced".  [pending] holds the additions that have not
    finished; [closed] records a successful [Close]. *)
Record WState : Type := mkWState {
  w_heap : heap;
  (** the local [ds], after [ds = cp] *)
  w_ds : loc;
  (** [dataFile.FileName()] *)
  w_dataFileName : string;
  fileTasks : Z;
  addedDataset : bool;
  (** [var path datastore.Key] *)
  w_path : Datastore.Key;
  pending : list (Site * File);
  closed : bool;
  log : list LogEntry;
  (** the returned [(datastore.Key, error)], once the call has returned *)
  ret : option (Datastore.Key * option error)
}.

Definition with_heap (h : heap) (st : WState) : WState :=
  mkWState h (w_ds st) (w_dataFileName st) (fileTasks st) (addedDataset st)
    (w_path st) (pending st) (closed st) (log st) (ret st).

Definition with_fileTasks (n : Z) (st : WState) : WState :=
  mkWState (w_heap st) (w_ds st) (w_dataFileName st) n (addedDataset st)
    (w_path st) (pending st) (closed st) (log st) (ret st).

Definition with_path (p : Datastore.Key) (st : WState) : WState :=
  mkWState (w_heap st) (w_ds st) (w_dataFileName st) (fileTasks st) (addedDataset st)
    p (pending st) (closed st) (log st) (ret st).

Definition with_ret (r : Datastore.Key * option error) (st : WState) : WState :=
  mkWState (w_heap st) (w_ds st) (w_dataFileName st) (fileTasks st) (addedDataset st)
    (w_path st) (pending st) (closed st) (log st) (Some r).

(** [fileTasks++] *)
Definition incrTasks (st : WState) : WState :=
  with_fileTasks (wrap64 (fileTasks st + 1)) st.

(** [adder.AddFile(f)]: the addition is queued at the batch. *)
Definition AddFile (site : Site) (f : File) (st : WState) : WState :=
  mkWState (w_heap st) (w_ds st) (w_dataFileName st) (fileTasks st) (addedDataset st)
    (w_path st) (pending st ++ [(site, f)]) (closed st)
    (log st ++ [LAdd site f]) (ret st).

(** [adder.Close()]: with [cerr] the error it surfaces, if any. *)
Definition Close (cerr : option string) (st : WState) : result WState WState :=
  let st :=
    mkWState (w_heap st) (w_ds st) (w_dataFileName st) (fileTasks st) (addedDataset st)
      (w_path st) (pending st)
      (match cerr with None => true | Some _ => closed st end)
      (log st ++ [LClose]) (ret st) in
  match cerr with
  | None => Ok st
  | Some msg => Err (with_ret (w_path st, Some (ErrClose msg)) st)
  end.

(** [return datastore.NewKey(""), err] *)
Definition fail (e : error) (st : WState) : result WState WState :=
  Err (with_ret (NewKey X "", Some e) st).

(** [done <- err; return] in the goroutine, and the [return path, err]
    it unblocks. *)
Definition send_done (e : error) (st : WState) : result WState WState :=
  Err (with_ret (w_path st, Some e) st).

(** The dataset the local [ds] points to. *)
Definition the_ds (st : WState) : option Dataset :=
  deref as_dataset (w_heap st) (w_ds st).

(** [ds.f = v] for a field of the dataset the local [ds] points to. *)
Definition update_ds (f : Dataset -> Dataset) (st : WState) : WState :=
  match the_ds st with
  | Some d => with_heap (<[w_ds st := ODataset (f d)]> (w_heap st)) st
  | None => st
  end.

(** A nil pointer dereference panics; the model ends the call there. *)
Definition panic (st : WState) : result WState WState :=
  Err (with_ret (w_path st, Some ErrNilPointer) st).

(** The state a call ends in, returned early or not. *)
Definition settle (r : result WState WState) : WState :=
  match r with
  | Ok st => st
  | Err st => st
  end.

Definition set_BodyPath (p : string) (d : Dataset) : Dataset :=
  mkDataset (ds_path d) p (PreviousPath d) (ds_rest d)
    (Meta d) (Structure d) (Transform_ d) (Commit d) (Viz_ d).
Definition set_Meta (l : option loc) (d : Dataset) : Dataset :=
  mkDataset (ds_path d) (BodyPath d) (PreviousPath d) (ds_rest d)
    l (Structure d) (Transform_ d) (Commit d) (Viz_ d).
Definition set_Structure (l : option loc) (d : Dataset) : Dataset :=
  mkDataset (ds_path d) (BodyPath d) (PreviousPath d) (ds_rest d)
    (Meta d) l (Transform_ d) (Commit d) (Viz_ d).
Definition set_Transform (l : option loc) (d : Dataset) : Dataset :=
  mkDataset (ds_path d) (BodyPath d) (PreviousPath d) (ds_rest d)
    (Meta d) (Structure d) l (Commit d) (Viz_ d).
Definition set_Commit (l : option loc) (d : Dataset) : Dataset :=
  mkDataset (ds_path d) (BodyPath d) (PreviousPath d) (ds_rest d)
    (Meta d) (Structure d) (Transform_ d) l (Viz_ d).
Definition set_Viz (l : option loc) (d : Dataset) : Dataset :=
  mkDataset (ds_path d) (BodyPath d) (PreviousPath d) (ds_rest d)
    (Meta d) (Structure d) (Transform_ d) (Commit d) l.

Definition set_tf_ScriptPath (p : string) (t : Transform) : Transform :=
  mkTransform (tf_path t) p (tf_Script t) (tf_Resources t) (tf_rest t).
Definition set_viz_ScriptPath (p : string) (v : Viz) : Viz :=
  mkViz (viz_path v) p (viz_Script v) (viz_rest v).

(** [ds.f = dataset.NewTRef(ao.Path)]: a new reference object, and the
    slot of the local [ds] pointed at it. *)
Definition set_ref (o : obj) (set : option loc -> Dataset -> Dataset) (st : WState)
  : WState :=
  let '(l, h) := alloc (w_heap st) o in
  update_ds (set (Some l)) (with_heap h st).

(** ** WriteDataset, up to the start of the event loop *)

(** The first resource, in the order of the [range], with an empty
    [Path]. *)
Fixpoint first_unbound (l : list (string * TransformResource)) : option string :=
  match l with
  | [] => None
  | (key, r) :: l' =>
      if String.eqb (Path r) "" then Some key else first_unbound l'
  end.

Definition resources_list (m : gomap TransformResource) : list (string * TransformResource) :=
  match m with
  | Some l => l
  | None => []
  end.

(** [if ds.Meta != nil { ... }] *)
Definition add_meta (st : WState) : result WState WState :=
  match the_ds st with
  | None => panic st
  | Some ds =>
      match Meta ds with
      | None => Ok st
      | Some l =>
          match deref as_meta (w_heap st) l with
          | None => panic st
          | Some m =>
              match marshalMeta C m with
              | Err msg => fail (ErrMarshalMeta msg) st
              | Ok data =>
                  Ok (AddFile SiteMeta (mkFile PackageFileMeta data) (incrTasks st))
              end
          end
      end
  end.

(** [if ds.Transform != nil { ... }] *)
Definition add_transform (st : WState) : result WState WState :=
  match the_ds st with
  | None => panic st
  | Some ds =>
      match Transform_ ds with
      | None => Ok st
      | Some l =>
          match deref as_transform (w_heap st) l with
          | None => panic st
          | Some t =>
              (* all resources must be references *)
              match first_unbound (resources_list (tf_Resources t)) with
              | Some key => fail (ErrTransformResource key) st
              | None =>
                  match tf_Script t with
                  | Some script =>
                      let st := incrTasks st in
                      let st :=
                        AddFile SiteTransformScript
                          (mkFile transformScriptFilename script) st in
                      (* the task of transform.json, counted ahead of time *)
                      Ok (incrTasks st)
                  | None =>
                      match marshalTransform C t with
                      | Err msg => fail (ErrMarshalTransform msg) st
                      | Ok tfdata =>
                          Ok (AddFile SiteTransform
                                (mkFile PackageFileTransform tfdata) (incrTasks st))
                      end
                  end
              end
          end
      end
  end.

(** [if ds.Commit != nil { ... }] *)
Definition add_commit (st : WState) : result WState WState :=
  match the_ds st with
  | None => panic st
  | Some ds =>
      match Commit ds with
      | None => Ok st
      | Some l =>
          match deref as_commit (w_heap st) l with
          | None => panic st
          | Some c =>
              match marshalCommit C c with
              | Err msg => fail (ErrMarshalCommit msg) st
              | Ok data =>
                  Ok (AddFile SiteCommit (mkFile PackageFileCommit data) (incrTasks st))
              end
          end
      end
  end.

(** [if ds.Structure != nil { ... }] *)
Definition add_structure (st : WState) : result WState WState :=
  match the_ds st with
  | None => panic st
  | Some ds =>
      match Structure ds with
      | None => Ok st
      | Some l =>
          match deref as_structure (w_heap st) l with
          | None => panic st
          | Some s =>
              match Structure.MarshalJSON s with
              | Err _ => fail ErrMarshalStructure st
              | Ok j =>
                  Ok (AddFile SiteStructure
                        (mkFile PackageFileStructure (json_bytes C j)) (incrTasks st))
              end
          end
      end
  end.

(** [if ds.Viz != nil { ... }] *)
Definition add_viz (st : WState) : result WState WState :=
  match the_ds st with
  | None => panic st
  | Some ds =>
      match Viz_ ds with
      | None => Ok st
      | Some l =>
          match deref as_viz (w_heap st) l with
          | None => panic st
          | Some v =>
              match viz_Script v with
              | Some script =>
                  let st := incrTasks st in
                  let st := AddFile SiteVizScript (mkFile vizScriptFilename script) st in
                  (* the task of viz.json, counted ahead of time *)
                  Ok (incrTasks st)
              | None =>
                  match marshalViz C v with
                  | Err msg => fail (ErrMarshalViz msg) st
                  | Ok vizdata =>
                      Ok (AddFile SiteViz (mkFile PackageFileViz vizdata) (incrTasks st))
                  end
              end
          end
      end
  end.

(** [store.NewAdder(pin, true)], with [nerr] the error it returns, if
    any. *)
Definition NewAdder (nerr : option string) (pin : bool) (st : WState)
  : result WState WState :=
  match nerr with
  | Some msg => fail (ErrNewAdder msg) st
  | None =>
      Ok (mkWState (w_heap st) (w_ds st) (w_dataFileName st) (fileTasks st)
            (addedDataset st) (w_path st) (pending st) (closed st)
            (log st ++ [LNewAdder pin true]) (ret st))
  end.

(** [func WriteDataset(store, ds, dataFile, pin)] from its first line
    to the start of the goroutine: the state the event loop starts in,
    or the state of an early return.  [ds] is the caller's pointer. *)
Definition WriteDataset_begin (nerr : option string) (h : heap) (ds : option loc)
    (dataFile : File) (pin : bool) : result WState WState :=
  (* assign to a new dataset instance to avoid clobbering input dataset *)
  let '(cp, h) := alloc h (ODataset Dataset_zero) in
  let h := Dataset_Assign h cp [ds] in
  let st :=
    mkWState h cp (FileName dataFile) 0 false Datastore.zero [] false [] None in
  match the_ds st with
  | None => panic st
  | Some d =>
      if Dataset_IsEmpty d then fail ErrEmptyDataset st
      else
        (let* st := NewAdder nerr pin st in
         let* st := add_meta st in
         let st := AddFile SiteBody dataFile (incrTasks st) in
         let* st := add_transform st in
         let* st := add_commit st in
         let* st := add_structure st in
         let* st := add_viz st in
         Ok st)%result
  end.

(** ** The event loop *)

(** [case transformScriptFilename:] *)
Definition on_transform_script (ao : AddedFile) (st : WState) : result WState WState :=
  match the_ds st with
  | None => panic st
  | Some ds =>
      match Transform_ ds with
      | None => panic st
      | Some l =>
          match deref as_transform (w_heap st) l with
          | None => panic st
          | Some t =>
              let t := set_tf_ScriptPath (Datastore.String (AddedPath ao)) t in
              let st := with_heap (<[l := OTransform t]> (w_heap st)) st in
              match marshalTransform C t with
              | Err msg => send_done (ErrJSON msg) st
              | Ok tfdata =>
                  Ok (AddFile SiteTransform2 (mkFile PackageFileTransform tfdata) st)
              end
          end
      end
  end.

(** [case vizScriptFilename:] *)
Definition on_viz_script (ao : AddedFile) (st : WState) : result WState WState :=
  match the_ds st with
  | None => panic st
  | Some ds =>
      match Viz_ ds with
      | None => panic st
      | Some l =>
          match deref as_viz (w_heap st) l with
          | None => panic st
          | Some v =>
              let v := set_viz_ScriptPath (Datastore.String (AddedPath ao)) v in
              let st := with_heap (<[l := OViz v]> (w_heap st)) st in
              match marshalViz C v with
              | Err msg => send_done (ErrJSON msg) st
              | Ok vizdata =>
                  Ok (AddFile SiteViz2 (mkFile PackageFileViz vizdata) st)
              end
          end
      end
  end.

(** [switch ao.Name { ... }]: the cases are tried in order. *)
Definition on_name (ao : AddedFile) (st : WState) : result WState WState :=
  let p := AddedPath ao in
  if String.eqb (Name ao) PackageFileStructure then
    Ok (set_ref (OStructure (Structure.NewStructureRef X p)) set_Structure st)
  else if String.eqb (Name ao) PackageFileTransform then
    Ok (set_ref (OTransform (NewTransformRef p)) set_Transform st)
  else if String.eqb (Name ao) PackageFileMeta then
    Ok (set_ref (OMeta (NewMetaRef D p)) set_Meta st)
  else if String.eqb (Name ao) PackageFileCommit then
    Ok (set_ref (OCommit (NewCommitRef D p)) set_Commit st)
  else if String.eqb (Name ao) PackageFileViz then
    Ok (set_ref (OViz (NewVizRef p)) set_Viz st)
  else if String.eqb (Name ao) (w_dataFileName st) then
    Ok (update_ds (set_BodyPath (Datastore.String p)) st)
  else if String.eqb (Name ao) transformScriptFilename then
    on_transform_script ao st
  else if String.eqb (Name ao) vizScriptFilename then
    on_viz_script ao st
  else Ok st.

(** [if fileTasks == 0 { ... }] *)
Definition on_settled (cerr : option string) (st : WState) : result WState WState :=
  (let* st :=
     if negb (addedDataset st) then
       match the_ds st with
       | None => panic st
       | Some ds =>
           match marshalDataset C (w_heap st) ds with
           | Err msg => send_done (ErrJSON msg) st
           | Ok dsdata =>
               Ok (AddFile SiteDataset (mkFile PackageFileDataset dsdata) st)
           end
       end
     else Ok st in
   Close cerr st)%result.

(** The body of [for ao := range adder.Added()], for one event. *)
Definition on_added (cerr : option string) (ao : AddedFile) (st : WState)
  : result WState WState :=
  let st := with_path (AddedPath ao) st in
  (let* st := on_name ao st in
   let st := with_fileTasks (wrap64 (fileTasks st - 1)) st in
   if fileTasks st =? 0 then on_settled cerr st else Ok st)%result.

(** The batch finishes the addition [(site, f)]: it leaves the queue. *)
Definition finish (entry : LogEntry) (rest : list (Site * File)) (st : WState) : WState :=
  mkWState (w_heap st) (w_ds st) (w_dataFileName st) (fileTasks st) (addedDataset st)
    (w_path st) rest (closed st) (log st ++ [entry]) (ret st).

(** One step of the call after the loop has started.
    - [step_added]: some queued addition finishes, in any order; the
      batch emits its event and the loop body runs on it.
    - [step_failed]: some queued addition fails at the store before
      the batch is closed; no event is emitted for it.
    - [step_end]: the batch is closed and nothing is queued, so the
      event channel is closed; the loop ends, [nil] is sent on [done]
      and the call returns [path, nil].
    A closed batch whose [Close] raised no error finishes what is
    still queued. *)
Inductive step : WState -> WState -> Prop :=
| step_added st site f pre post cerr :
    ret st = None ->
    pending st = pre ++ (site, f) :: post ->
    step st
      (settle (on_added cerr (mkAddedFile (FileName f) (address C f))
                 (finish (LDone site f) (pre ++ post) st)))
| step_failed st site f pre post :
    ret st = None ->
    closed st = false ->
    pending st = pre ++ (site, f) :: post ->
    step st (finish (LFail site f) (pre ++ post) st)
| step_end st :
    ret st = None ->
    closed st = true ->
    pending st = [] ->
    step st (with_ret (w_path st, None) st).

(** The states a call of [WriteDataset] goes through. *)
Definition reachable (nerr : option string) (h : heap) (ds : option loc)
    (dataFile : File) (pin : bool) (st : WState) : Prop :=
  rtc step (settle (WriteDataset_begin nerr h ds dataFile pin)) st.

(** ** Running a call along a given schedule *)

(** The choices the store makes: which queued addition finishes next
    (and what [Close] would surface if the loop body calls it), which
    one fails, or that the event channel is closed. *)
Inductive Choice : Type :=
| Finish (i : nat) (cerr : option string)
| FailAt (i : nat)
| EndOfEvents.

Definition exec1 (c : Choice) (st : WState) : option WState :=
  match ret st with
  | Some _ => None
  | None =>
      match c with
      | Finish i cerr =>
          match pending st !! i with
          | Some (site, f) =>
              Some (settle (on_added cerr (mkAddedFile (FileName f) (address C f))
                              (finish (LDone site f)
                                 (take i (pending st) ++ drop (S i) (pending st)) st)))
          | None => None
          end
      | FailAt i =>
          if closed st then None
          else
            match pending st !! i with
            | Some (site, f) =>
                Some (finish (LFail site f)
                        (take i (pending st) ++ drop (S i) (pending st)) st)
            | None => None
            end
      | EndOfEvents =>
          if closed st then
            match pending st with
            | [] => Some (with_ret (w_path st, None) st)
            | _ :: _ => None
            end
          else None
      end
  end.

Fixpoint exec (cs : list Choice) (st : WState) : option WState :=
  match cs with
  | [] => Some st
  | c :: cs' =>
      match exec1 c st with
      | Some st' => exec cs' st'
      | None => None
      end
  end.

(** The state a schedule leads to, as far as it can be followed. *)
Fixpoint run_to (cs : list Choice) (st : WState) : WState :=
  match cs with
  | [] => st
  | c :: cs' =>
      match exec1 c st with
      | Some st' => run_to cs' st'
      | None => st
      end
  end.

(** ** Reading the log *)

Definition adds (l : list LogEntry) : list (Site * File) :=
  omap (fun e => match e with LAdd s f => Some (s, f) | _ => None end) l.

Definition dones (l : list LogEntry) : list (Site * File) :=
  omap (fun e => match e with LDone s f => Some (s, f) | _ => None end) l.

Definition fails (l : list LogEntry) : list (Site * File) :=
  omap (fun e => match e with LFail s f => Some (s, f) | _ => None end) l.

Definition is_script_site (s : Site) : bool :=
  match s with
  | SiteTransformScript | SiteVizScript => true
  | _ => false
  end.

Definition is_second_site (s : Site) : bool :=
  match s with
  | SiteTransform2 | SiteViz2 => true
  | _ => false
  end.

Definition is_top_site (s : Site) : bool :=
  match s with
  | SiteDataset => true
  | _ => false
  end.

(** How many of the additions were made at a site that [p] holds of. *)
Definition count_sites (p : Site -> bool) (l : list (Site * File)) : Z :=
  Z.of_nat (length (filter (fun e => p (fst e) = true) l)).

(** Was anything asked of the store? *)
Definition store_contacted (st : WState) : bool :=
  match log st with
  | [] => false
  | _ :: _ => true
  end.

(** The name of the file added at a site, for a data file named [dfn]. *)
Definition site_name (dfn : string) (s : Site) : string :=
  match s with
  | SiteMeta => PackageFileMeta
  | SiteBody => dfn
  | SiteTransformScript => transformScriptFilename
  | SiteTransform | SiteTransform2 => PackageFileTransform
  | SiteCommit => PackageFileCommit
  | SiteStructure => PackageFileStructure
  | SiteVizScript => vizScriptFilename
  | SiteViz | SiteViz2 => PackageFileViz
  | SiteDataset => PackageFileDataset
  end.

(** The second phases still owed: scripts added, less the documents added
    after their script. *)
Definition owed (l : list LogEntry) : Z :=
  count_sites is_script_site (adds l) - count_sites is_second_site (adds l).

(** Everything added has finished: the additions and the completions of
    a log are the same files, none has failed, no second phase is owed,
    and the top-level document is not among them. *)
Definition settled_log (l : list LogEntry) : Prop :=
  Permutation (adds l) (dones l) /\
  fails l = [] /\
  owed l = 0 /\
  (forall f, ~ In (LAdd SiteDataset f) l).

(** ** The invariant of the event loop *)

(** The event of a script that the switch lets through to the script's
    case, with the site of the document that was waiting for it. *)
Definition script_event (ao : AddedFile) (st : WState) (s2 : Site) : Prop :=
  Name ao <> w_dataFileName st /\
  ((s2 = SiteTransform2 /\ Name ao = transformScriptFilename) \/
   (s2 = SiteViz2 /\ Name ao = vizScriptFilename)).

(** Every queued file carries the name of its site. *)
Definition names_ok (st : WState) : Prop :=
  Forall (fun e => FileName (snd e) = site_name (w_dataFileName st) (fst e)) (pending st).

(** Every addition is queued, finished or failed. *)
Definition accounted (st : WState) : Prop :=
  Permutation (adds (log st)) (pending st ++ dones (log st) ++ fails (log st)).

(** Before the top-level document is added: it is in no log entry, the
    batch is open, and while the call runs the counter is at least 1 and
    stands for the queued and failed additions and the second phases
    owed, one of which is owed for each queued script. *)
Record before (st : WState) : Prop := mkBefore {
  b_top : forall f, ~ In (LAdd SiteDataset f) (log st);
  b_closed : closed st = false;
  b_added : addedDataset st = false;
  b_counter :
    ret st = None ->
    fileTasks st
    = Z.of_nat (length (pending st)) + Z.of_nat (length (fails (log st))) + owed (log st)
    /\ count_sites is_script_site (pending st) <= owed (log st)
    /\ 1 <= fileTasks st <= 8;
  b_ret :
    forall p e, ret st = Some (p, e) -> exists e', e = Some e' /\ forall msg, e' <> ErrClose msg
}.

(** After the top-level document [f] is added: the log up to that point
    is settled, and the call is at one of four points. *)
Inductive after (st : WState) : Prop :=
| after_queued pre f :
    log st = pre ++ [LAdd SiteDataset f; LClose] ->
    settled_log pre ->
    ret st = None -> closed st = true ->
    pending st = [(SiteDataset, f)] ->
    fileTasks st = 0 ->
    after st
| after_finished pre f :
    log st = pre ++ [LAdd SiteDataset f; LClose; LDone SiteDataset f] ->
    settled_log pre ->
    ret st = None -> closed st = true ->
    pending st = [] ->
    w_path st = address C f ->
    fileTasks st = -1 ->
    after st
| after_returned pre f :
    log st = pre ++ [LAdd SiteDataset f; LClose; LDone SiteDataset f] ->
    settled_log pre ->
    ret st = Some (address C f, None) ->
    fileTasks st = -1 ->
    after st
| after_close_failed pre f p msg :
    log st = pre ++ [LAdd SiteDataset f; LClose] ->
    settled_log pre ->
    ret st = Some (p, Some (ErrClose msg)) ->
    fileTasks st = 0 ->
    after st.

Definition invariant (st : WState) : Prop :=
  accounted st /\ names_ok st /\ (before st \/ after st).

(** The fields of the state other than the heap. *)
Definition control (st : WState) :=
  (w_ds st, w_dataFileName st, fileTasks st, addedDataset st, w_path st,
   pending st, closed st, log st, ret st).

End WithDocuments.

Unset Implicit Arguments.

End Dsfs.

(* ===================================================================== *)
(** * Invariants of the write engine *)

(** The predicates the facts about [WriteDataset] are proved with: what
    holds while the documents are queued, what holds in the loop body,
    and what the call may write to. *)
Module WriteInvariants.
Import Dsfs.

Section WithCollaborators.
Context {X : Externals} {D : Documents}.
Variable C : Collaborators X D.

(** The state of the call while it queues the documents: everything added
    is queued, and the counter stands for the queued additions and the
    second phases owed. *)
Record queueing (lo hi : Z) (st : WState X D) : Prop := mkQueueing {
  q_accounted : accounted st;
  q_names : names_ok st;
  q_top : forall f, ~ In (LAdd SiteDataset f) (log st);
  q_closed : closed st = false;
  q_added : addedDataset st = false;
  q_ret : ret st = None;
  q_fails : fails (log st) = [];
  q_counter : fileTasks st = Z.of_nat (length (pending st)) + owed (log st);
  q_scripts : count_sites is_script_site (pending st) <= owed (log st);
  q_lo : lo <= Z.of_nat (length (pending st));
  q_hi : fileTasks st <= hi
}.

(** What a block of the straight-line part leaves: a state that is
    still queueing, with the counter raised by at most [k], or an early
    return that satisfies the invariant. *)
Definition block_ok (lo hi k : Z) (r : result (WState X D) (WState X D)) : Prop :=
  match r with
  | Ok st' => queueing lo (hi + k) st'
  | Err st' => invariant C st'
  end.

(** The state of the loop body once the switch is through, on an event
    that came before the top-level document was added. *)
Record switched (st : WState X D) : Prop := mkSwitched {
  sw_accounted : accounted st;
  sw_names : names_ok st;
  sw_top : forall f, ~ In (LAdd SiteDataset f) (log st);
  sw_closed : closed st = false;
  sw_added : addedDataset st = false;
  sw_ret : ret st = None;
  sw_counter :
    fileTasks st
    = Z.of_nat (length (pending st)) + 1 + Z.of_nat (length (fails (log st))) + owed (log st);
  sw_scripts : count_sites is_script_site (pending st) <= owed (log st);
  sw_bound : 1 <= fileTasks st <= 8
}.

(** [o'] is [o], or [o] with another script path. *)
Definition script_path_apart (o o' : obj X D) : Prop :=
  o' = o \/
  (exists t p, o = OTransform X t /\ o' = OTransform X (set_tf_ScriptPath p t)) \/
  (exists v p, o = OViz X v /\ o' = OViz X (set_viz_ScriptPath p v)).

(** The heap of the call is the caller's heap [h0] with objects added
    after it and, among the objects of [h0], script paths rewritten; the
    local [ds] points past [h0]. *)
Record shared (h0 : heap X D) (st : WState X D) : Prop := mkShared {
  sh_objects :
    forall l o, h0 !! l = Some o ->
      exists o', w_heap st !! l = Some o' /\ script_path_apart o o';
  sh_ds : (length h0 <= w_ds st)%nat
}.

(** The pointer a nil slot takes from the argument of [Assign]. *)
Definition slot_of {T} (proj : obj X D -> option T) (h : heap X D) (o : option loc)
  : option loc :=
  match o with
  | Some l =>
      match deref proj h l with
      | Some _ => Some l
      | None => None
      end
  | None => None
  end.

(** What [Assign] leaves in a zero dataset that [d] is merged into. *)
Definition copy_of (h : heap X D) (d : Dataset D) : Dataset D :=
  {| ds_path := if key_bound (ds_path d) then ds_path d else Datastore.zero;
     BodyPath := if negb (String.eqb (BodyPath d) "") then BodyPath d else "";
     PreviousPath := if negb (String.eqb (PreviousPath d) "") then PreviousPath d else "";
     ds_rest := DatasetRest_Assign D (DatasetRest_zero D) (ds_rest d);
     Meta := slot_of (@as_meta X D) h (Meta d);
     Structure := slot_of (@as_structure X D) h (Structure d);
     Transform_ := slot_of (@as_transform X D) h (Transform_ d);
     Commit := slot_of (@as_commit X D) h (Commit d);
     Viz_ := slot_of (@as_viz X D) h (Viz_ d) |}.

End WithCollaborators.

End WriteInvariants.

(* ===================================================================== *)
(** * A concrete store and concrete documents *)

(** One way to fill in [Documents] and [Collaborators], to run the load
    and write engines on examples: a meta or commit document is its
    address and a title, the unnamed part of a transform or viz is one
    text field, encoders print a tag and the text, the decoder rejects
    the empty input as [encoding/json] does, and the store's address of a
    file is made of its name and bytes. *)
Module SampleStore.
Import Dsfs.

Definition titled : Type := Datastore.Key * string.

Definition titled_Assign (a b : titled) : titled :=
  (if key_bound (fst b) then fst b else fst a,
   if String.eqb (snd b) "" then snd a else snd b).

Definition text_Assign (a b : string) : string :=
  if String.eqb b "" then a else b.

Definition D : Documents :=
  {| MetaT := titled;
     Meta_Assign := titled_Assign;
     NewMetaRef := fun k => (k, "");
     CommitT := titled;
     Commit_Assign := titled_Assign;
     NewCommitRef := fun k => (k, "");
     TransformRest := string;
     TransformRest_zero := "";
     TransformRest_Assign := text_Assign;
     VizRest := string;
     VizRest_zero := "";
     VizRest_Assign := text_Assign;
     DatasetRest := string;
     DatasetRest_zero := "";
     DatasetRest_Assign := text_Assign;
     DatasetRest_IsEmpty := fun t => String.eqb t "" |}.

Definition print_json (j : json) : string :=
  match j with
  | JStr s => s
  | _ => "{}"
  end.

Definition decode_dataset (data : string) : result string (Dataset D) :=
  if String.eqb data "" then Err "unexpected end of JSON input"
  else Ok (@mkDataset D Datastore.zero data "" "" None None None None None).

Definition C : Collaborators Sample.X D :=
  {| PackageKeypath := fun k name => k;
     UnmarshalDataset := decode_dataset;
     json_bytes := print_json;
     marshalMeta := fun m => Ok ("meta:" ++ snd m)%string;
     marshalTransform := fun t => Ok ("transform:" ++ tf_ScriptPath t)%string;
     marshalCommit := fun c => Ok ("commit:" ++ snd c)%string;
     marshalViz := fun v => Ok ("viz:" ++ viz_ScriptPath v)%string;
     marshalDataset := fun h d => Ok ("dataset:" ++ BodyPath d)%string;
     address := fun f => Datastore.mkKey ("/mem/" ++ FileName f ++ "/" ++ FileBytes f)%string |}.

(** A store that hands out an empty file at every read. *)
Definition always_empty : reads := fun _ _ => Ok "".

(** A store whose first read is empty and whose later reads give the
    document. *)
Definition empty_once : reads :=
  fun n _ => match n with O => Ok "" | _ => Ok "body-at-QmBody" end.

Definition top_key : Datastore.Key := Datastore.mkKey "/mem/QmDataset".


(** ** A dataset to write *)

(** The heap of a caller: a dataset with all five sub-documents, a
    transform and a viz that carry a script, and a transform resource
    that is bound. *)
Definition caller_heap : heap Sample.X D :=
  [ ODataset Sample.X
      (@mkDataset D Datastore.zero "" "" ""
         (Some 1%nat) (Some 2%nat) (Some 3%nat) (Some 4%nat) (Some 5%nat));
    OMeta Sample.X D (Datastore.zero, "population");
    OStructure D Sample.literal_structure;
    OTransform Sample.X
      (@mkTransform D Datastore.zero "" (Some "select * from a")
         (Some [("a", mkResource "/mem/QmA")]) "sql");
    OCommit Sample.X D (Datastore.zero, "initial commit");
    OViz Sample.X (@mkViz D Datastore.zero "" (Some "<html></html>") "html") ].

Definition caller_ds : option loc := Some 0%nat.

Definition body_file : File := mkFile "body.csv" "a,b".

(** The store finishes the additions in the order they were made, and
    then closes the event channel. *)
Definition in_order : list Choice :=
  [Finish 0 None; Finish 0 None; Finish 0 None; Finish 0 None; Finish 0 None;
   Finish 0 None; Finish 0 None; Finish 0 None; Finish 0 None; EndOfEvents].

(** The state the call returns in. *)
Definition written : WState Sample.X D :=
  run_to C in_order (settle (WriteDataset_begin C None caller_heap caller_ds body_file true)).

(** A dataset with a meta document and a transform whose resource has no
    path. *)
Definition unbound_heap : heap Sample.X D :=
  [ ODataset Sample.X
      (@mkDataset D Datastore.zero "" "" "" (Some 1%nat) None (Some 2%nat) None None);
    OMeta Sample.X D (Datastore.zero, "population");
    OTransform Sample.X
      (@mkTransform D Datastore.zero "" None (Some [("a", mkResource "")]) "sql") ].

End SampleStore.

(* ===================================================================== *)
(** * structure.go: abstract forms and names *)

Module Abstraction.

Section WithExternals.
Variable X : Externals.

(** [func (s *Structure) Abstract() *Structure].  The block under
    [if s.Schema != nil] holds comments only, so the schema is not
    carried over. *)
Definition Abstract (s : Structure.Structure X) : Structure.Structure X :=
  Structure.mkStructure X
    Datastore.zero                 (* path *)
    ""                             (* Checksum *)
    (CompressionNone X)            (* Compression *)
    (Structure.Encoding s)         (* Encoding *)
    0                              (* Entries *)
    (Structure.Format s)           (* Format *)
    (Structure.FormatConfig s)     (* FormatConfig *)
    ""                             (* Kind *)
    0                              (* Length *)
    None.                          (* Schema *)

End WithExternals.

Arguments Abstract {X} _.

(** A run-time panic of the Go program. *)
Inductive panic : Type :=
| IndexOutOfRange (i : Z).   (* "index out of range" *)

(** [const b26chars] *)
Definition b26chars : string := "abcdefghijklmnopqrstuvwxyz".

(** [s[i]] for a string [s]: the byte at offset [i], or a panic. *)
Definition byte_at (s : string) (i : Z) : result panic ascii :=
  if (0 <=? i) && (i <? Strings.len s) then
    match String.get (Z.to_nat i) s with
    | Some c => Ok c
    | None => Err (IndexOutOfRange i)
    end
  else Err (IndexOutOfRange i).

(** The first loop of [base26]:
    [for d != 0 { cols = append(cols, d%26); d = d / 26 }],
    run for at most [fuel] rounds.  Go's [%] and [/] truncate towards
    zero: [Z.rem] and [Z.quot]. *)
Fixpoint base26_cols (fuel : nat) (d : Z) : list Z :=
  match fuel with
  | O => []
  | S fuel' =>
      if d =? 0 then [] else Z.rem d 26 :: base26_cols fuel' (Z.quot d 26)
  end.

(** The second loop of [base26], [for i := len(cols) - 1; i >= 0; i--],
    over the columns from the last to the first: the index [i] of the
    column at the head is the number of columns after it. *)
Fixpoint base26_letters (hi : list Z) : result panic string :=
  match hi with
  | [] => Ok ""
  | c :: rest =>
      let i := length rest in
      let k := if negb (Nat.eqb i 0) && (c >? 0) then c - 1 else c in
      (let* ch := byte_at b26chars k in
       let* s := base26_letters rest in
       Ok (String.String ch s))%result
  end.

(** [func base26(d int) (s string)].  A 64-bit [int] is zero after fewer
    than 64 divisions by 26, so 64 rounds are as good as any number
    (this is [base26_cols_enough] below). *)
Definition base26 (d : Z) : result panic string :=
  if d =? 0 then Ok "a" else base26_letters (rev (base26_cols 64 d)).

(** [func AbstractColumnName(i int) string] *)
Definition AbstractColumnName (i : Z) : result panic string := base26 i.

(** [fmt.Sprintf("%d", z)] *)
Definition decimal (z : Z) : string := NilZero.string_of_int (Z.to_int z).

(** [func AbstractTableName(i int) string] *)
Definition AbstractTableName (i : Z) : string :=
  ("t" ++ decimal (wrap64 (i + 1)))%string.

(** Is the byte one of [a] to [z]? *)
Definition lowercase_byte (c : ascii) : bool :=
  (97 <=? nat_of_ascii c)%nat && (nat_of_ascii c <=? 122)%nat.

Fixpoint lowercase (s : string) : bool :=
  match s with
  | EmptyString => true
  | String.String c s' => lowercase_byte c && lowercase s'
  end.

(** Are the strings of a list pairwise different? *)
Fixpoint distinct (l : list string) : bool :=
  match l with
  | [] => true
  | s :: l' => negb (existsb (String.eqb s) l') && distinct l'
  end.

(** The column names of the indices [0 .. n-1]; a panic is listed as the
    empty name. *)
Definition column_names (n : nat) : list string :=
  map (fun i => match base26 (Z.of_nat i) with Ok s => s | Err _ => "" end) (seq 0 n).

End Abstraction.

(* ===================================================================== *)
(** * schema.go *)

(** What schema.go takes from the [datatypes] package and from the
    types it only passes along: the field type with its [String],
    [TypeFromString] and JSON form, the constraints of a field with their
    JSON form, and the values an [interface{}] holds with theirs. *)
Record SchemaExternals : Type := mkSchemaExternals {
  (** [datatypes.Type], an [int] whose zero value is the unknown type *)
  TypeT : Type;
  Type_zero : TypeT;
  Type_eqb : TypeT -> TypeT -> bool;
  Type_String : TypeT -> string;
  TypeFromString : string -> TypeT;
  Type_marshal : TypeT -> result string json;
  Type_unmarshal : json -> result string TypeT;
  (** [FieldConstraints] *)
  ConstraintsT : Type;
  Constraints_marshal : ConstraintsT -> result string json;
  Constraints_unmarshal : json -> result string ConstraintsT;
  (** the values an [interface{}] holds when it is not nil: what
      [json.Marshal] writes for one, and what [json.Unmarshal] stores in
      an [interface{}] for a document other than [null] *)
  MissingT : Type;
  Missing_marshal : MissingT -> result string json;
  Missing_unmarshal : json -> result string MissingT
}.

Module Schema.
Import GoJSON.

Section WithExternals.
Variable T : SchemaExternals.

(** [type Field struct].  [MissingValue] is an [interface{}]: nil, or
    the value it holds. *)
Record Field : Type := mkField {
  Name : string;
  Type_ : TypeT T;
  MissingValue : option (MissingT T);
  Format : string;
  Constraints : option (ConstraintsT T);
  Title : string;
  Description : string
}.

(** The zero value [Field{}]. *)
Definition Field_zero : Field :=
  {| Name := ""; Type_ := Type_zero T; MissingValue := None; Format := "";
     Constraints := None; Title := ""; Description := "" |}.

(** [type Schema struct].  [Fields] is a slice of pointers: [None] is
    the nil slice, and an element [None] a nil pointer. *)
Record Schema : Type := mkSchema {
  Fields : option (list (option Field));
  PrimaryKey : option (list string)
}.

Inductive panic : Type :=
| NilPointer.   (* "invalid memory address or nil pointer dereference" *)

Definition fields_list (s : Schema) : list (option Field) :=
  match Fields s with
  | Some l => l
  | None => []
  end.

(** [names[i] = f.Name] for every [f], in order. *)
Fixpoint each_field {A} (get : Field -> A) (l : list (option Field))
  : result panic (list A) :=
  match l with
  | [] => Ok []
  | None :: _ => Err NilPointer
  | Some f :: l' =>
      match each_field get l' with
      | Ok rest => Ok (get f :: rest)
      | Err e => Err e
      end
  end.

(** [func (s *Schema) FieldNames() (names []string)]: the slice
    returned, which is never the nil slice. *)
Definition FieldNames (s : Schema) : result panic (list string) :=
  match Fields s with
  | None => Ok []
  | Some l => each_field Name l
  end.

(** The loop of [FieldForName]. *)
Fixpoint find_field (name : string) (l : list (option Field))
  : result panic (option Field) :=
  match l with
  | [] => Ok None
  | None :: _ => Err NilPointer
  | Some f :: l' =>
      if String.eqb (Name f) name then Ok (Some f) else find_field name l'
  end.

(** [func (s *Schema) FieldForName(name string) *Field] *)
Definition FieldForName (s : Schema) (name : string) : result panic (option Field) :=
  find_field name (fields_list s).

(** [func (s *Schema) FieldTypeStrings() (types []string)] *)
Definition FieldTypeStrings (s : Schema) : result panic (list string) :=
  each_field (fun f => Type_String T (Type_ f)) (fields_list s).

(** [func NewShortField(name, dataType string) *Field] *)
Definition NewShortField (name dataType : string) : Field :=
  {| Name := name; Type_ := TypeFromString T dataType; MissingValue := None;
     Format := ""; Constraints := None; Title := ""; Description := "" |}.

(** [func (f Field) MarshalJSON() ([]byte, error)]:
    [json.Marshal(_f)] with the struct tags of [_field], in declaration
    order. *)
Definition Field_MarshalJSON (f : Field) : result GoJSON.error json :=
  match
    object
      [ match Constraints f with
        | None => absent
        | Some c => field_codec "constraints" (Constraints_marshal T c)
        end;
        field_string_omitempty "description" (Description f);
        field_string_omitempty "format" (Format f);
        field_any_omitempty "missingValue" (Missing_marshal T) (MissingValue f);
        field_string "name" (Name f);
        field_string_omitempty "title" (Title f);
        (if Type_eqb T (Type_ f) (Type_zero T) then absent
         else field_codec "type" (Type_marshal T (Type_ f))) ]
  with
  | Ok kvs => Ok (JObj kvs)
  | Err e => Err e
  end.

(** [func (f *Field) UnmarshalJSON(data []byte) error]: the value stored
    in [*f].  [json.Unmarshal] leaves a struct as it is for [null]. *)
Definition Field_UnmarshalJSON (data : json) : result GoJSON.error Field :=
  match data with
  | JNull => Ok Field_zero
  | JObj l =>
      (let* constraints := get_pointer "constraints" (Constraints_unmarshal T) l in
       let* description := get_string "description" l in
       let* format := get_string "format" l in
       let* missingValue := get_any "missingValue" (Missing_unmarshal T) l in
       let* name := get_string "name" l in
       let* title := get_string "title" l in
       let* type := get_codec "type" (Type_unmarshal T) (Type_zero T) l in
       Ok {| Name := name; Type_ := type; MissingValue := missingValue;
             Format := format; Constraints := constraints; Title := title;
             Description := description |})%result
  | _ => Err (ErrUnmarshalType "")
  end.

(** What [f] carries is given back: its texts are UTF-8, the constraints
    and the type survive their own encoding, and the missing value, if
    there is one, is written as a document other than [null] that is
    read as the same value. *)
Record field_carried (f : Field) : Prop := mkFieldCarried {
  fc_text :
    UTF8.valid (Name f) = true /\ UTF8.valid (Format f) = true /\
    UTF8.valid (Title f) = true /\ UTF8.valid (Description f) = true;
  fc_constraints :
    match Constraints f with
    | None => True
    | Some c =>
        exists j, Constraints_marshal T c = Ok j /\ j <> JNull /\
                  Constraints_unmarshal T j = Ok c
    end;
  fc_missing :
    match MissingValue f with
    | None => True
    | Some v =>
        exists j, Missing_marshal T v = Ok j /\ j <> JNull /\
                  Missing_unmarshal T j = Ok v
    end;
  fc_type :
    if Type_eqb T (Type_ f) (Type_zero T)
    then Type_ f = Type_zero T
    else exists j, Type_marshal T (Type_ f) = Ok j /\
                   Type_unmarshal T j = Ok (Type_ f)
}.

(** Does the slot hold a field with another name than [name]? *)
Definition other_name (name : string) (o : option Field) : Prop :=
  exists g, o = Some g /\ Name g <> name.

End WithExternals.

Arguments Name {T} _.
Arguments Type_ {T} _.
Arguments MissingValue {T} _.
Arguments Format {T} _.
Arguments Constraints {T} _.
Arguments Title {T} _.
Arguments Description {T} _.
Arguments Fields {T} _.
Arguments PrimaryKey {T} _.
Arguments fields_list {T} _.
Arguments FieldNames {T} _.
Arguments FieldForName {T} _ _.
Arguments FieldTypeStrings {T} _.
Arguments Field_MarshalJSON {T} _.
Arguments field_carried {T} _.
Arguments other_name {T} _ _.

(** A choice of [SchemaExternals] to run examples with: a type is a
    number printed by a table, and constraints are a piece of JSON. *)
Definition type_names : list (Z * string) :=
  [ (1, "string"); (2, "integer"); (3, "float") ].

Definition sample_externals : SchemaExternals :=
  {| TypeT := Z;
     Type_zero := 0;
     Type_eqb := Z.eqb;
     Type_String := fun t => match assoc Z.eqb t type_names with Some s => s | None => "" end;
     TypeFromString := fun s =>
       match assoc String.eqb s [("string", 1); ("integer", 2); ("float", 3)] with
       | Some t => t
       | None => 0
       end;
     Type_marshal := fun t => Ok (JNum t);
     Type_unmarshal := fun j => match j with JNum t => Ok t | _ => Err "type" end;
     ConstraintsT := list (string * json);
     Constraints_marshal := fun c => Ok (JObj c);
     Constraints_unmarshal := fun j => match j with JObj c => Ok c | _ => Err "constraints" end;
     MissingT := Sample.value;
     Missing_marshal := Sample.value_marshal;
     Missing_unmarshal := Sample.value_unmarshal |}.

(** A schema of two fields, and one whose second field is a nil
    pointer. *)
Definition people : Schema sample_externals :=
  mkSchema sample_externals
    (Some [ Some (NewShortField sample_externals "name" "string");
            Some (NewShortField sample_externals "age" "integer") ])
    None.

Definition broken : Schema sample_externals :=
  mkSchema sample_externals
    (Some [ Some (NewShortField sample_externals "name" "string"); None ])
    None.

Definition described_field : Field sample_externals :=
  mkField sample_externals "age" 2 (Some (Sample.VFloat 0)) ""
    (Some [("required", JBool true)]) "Age" "".

(** The same field with its missing value given as a Go [int]. *)
Definition counted_field : Field sample_externals :=
  mkField sample_externals "age" 2 (Some (Sample.VInt 0)) ""
    (Some [("required", JBool true)]) "Age" "".

(** A field whose name is the single byte 255, which is not UTF-8. *)
Definition misnamed_field : Field sample_externals :=
  mkField sample_externals (String.String (ascii_of_nat 255) EmptyString) 1 None ""
    None "" "".

End Schema.

(* ===================================================================== *)
(** * transform.go: merging and decoding *)

Module TransformCodec.
Import GoJSON Transform.

Section WithExternals.
Variable X : Externals.

(** One step of the loop of [Assign]: merge [q2] into [q].  The maps are
    merged key by key, and a nested structure is merged into the
    receiver's, or into a new one when the receiver has none. *)
Definition assign1 (q q2 : Transform X) : Transform X :=
  {| path := if negb (String.eqb (Datastore.String (Path X q2)) "") then path q2 else path q;
     Syntax := if negb (String.eqb (Syntax q2) "") then Syntax q2 else Syntax q;
     Config := map_merge (Config q) (Config q2);
     AppVersion := if negb (String.eqb (AppVersion q2) "") then AppVersion q2 else AppVersion q;
     Qri := if negb (String.eqb (Qri q2) "") then Qri q2 else Qri q;
     Structure :=
       match Structure q2 with
       | None => Structure q
       | Some st2 =>
           Some (Structure.Assign X
                   (match Structure q with
                    | Some st => st
                    | None => Structure.zero X
                    end)
                   [Some st2])
       end;
     Data := if negb (String.eqb (Data q2) "") then Data q2 else Data q;
     Resources := map_merge (Resources q) (Resources q2) |}.

(** [func (q *Transform) Assign(qs ...*Transform)]: the value left in
    [*q]; a nil argument is skipped. *)
Definition Assign (q : Transform X) (qs : list (option (Transform X))) : Transform X :=
  fold_left (fun q o => match o with None => q | Some q2 => assign1 q q2 end) qs q.

(** [func (q *Transform) SetPath(path string)] *)
Definition SetPath (q : Transform X) (p : string) : Transform X :=
  {| path := if String.eqb p "" then Datastore.zero else NewKey X p;
     Qri := Qri q; Syntax := Syntax q; AppVersion := AppVersion q; Data := Data q;
     Structure := Structure q; Config := Config q; Resources := Resources q |}.

(** [json.Unmarshal] of one [*Dataset] of the resources. *)
Definition unmarshal_resource (j : json) : result GoJSON.error (ResourceT X) :=
  match Resource_unmarshal X j with
  | Ok r => Ok r
  | Err _ => Err (ErrUnmarshaler "resources")
  end.

(** [json.Unmarshal] into a [map[string]*Dataset]. *)
Definition get_resources (l : list (string * json))
  : result GoJSON.error (gomap (ResourceT X)) :=
  get_map "resources" unmarshal_resource l.

(** [json.Unmarshal(data, _q)] for a [_transform] target. *)
Definition unmarshal_transform (data : json) : result GoJSON.error (_transform X) :=
  match data with
  | JObj l =>
      (let* appVersion := get_string "appVersion" l in
       let* config := get_map "config" (unmarshal_any (Any_unmarshal X)) l in
       let* data := get_string "data" l in
       let* qri := get_codec "qri" (Kind_unmarshal X) "" l in
       let* resources := get_resources l in
       let* structure := get_pointer "structure" (Structure.UnmarshalJSON X) l in
       let* syntax := get_string "syntax" l in
       Ok {| _AppVersion := appVersion; _Config := config; _Data := data;
             _Qri := qri; _Resources := resources; _Structure := structure;
             _Syntax := syntax |})%result
  | _ => Err (ErrUnmarshalType "")
  end.

(** [func (q *Transform) UnmarshalJSON(data []byte) error]: the value
    stored in [*q]. *)
Definition UnmarshalJSON (data : json) : result GoJSON.error (Transform X) :=
  match DataFormat.json_to_string data with
  | Some s => Ok (NewTransformRef X (NewKey X s))
  | None =>
      match unmarshal_transform data with
      | Err e => Err e
      | Ok _q =>
          Ok {| path := Datastore.zero;
                AppVersion := _AppVersion X _q;
                Config := _Config X _q;
                Data := _Data X _q;
                Qri := _Qri X _q;
                Resources := _Resources X _q;
                Structure := _Structure X _q;
                Syntax := _Syntax X _q |}
      end
  end.

(** What decoding the encoding of [q] is expected to give: for a
    reference the address alone, and for the object form [q] without its
    address, with the kind tag filled in, the nested structure as it
    reads back, and the two maps with their entries in the order of
    their keys (the same Go maps). *)
Definition read_back (q : Transform X) : Transform X :=
  if negb (String.eqb (Datastore.String (path q)) "") && IsEmpty q
  then NewTransformRef X (NewKey X (Datastore.String (path q)))
  else
    {| path := Datastore.zero;
       Qri := if String.eqb (Qri q) "" then KindTransform X else Qri q;
       Syntax := Syntax q; AppVersion := AppVersion q; Data := Data q;
       Structure := option_map Structure.read_back (Structure q);
       Config := option_map sort_keys (Config q);
       Resources := option_map sort_keys (Resources q) |}.

(** The parts of [q] are given back: the address and the texts are
    UTF-8, the maps are not empty maps (which [omitempty] drops) and
    survive the encoding of a map, with every configuration value and
    every resource read as it was written, the kind tag survives its own
    encoding, and a nested structure is a reference or takes the object
    form. *)
Record carried (q : Transform X) : Prop := mkCarried {
  cr_text :
    UTF8.valid (Datastore.String (path q)) = true /\
    UTF8.valid (Syntax q) = true /\ UTF8.valid (AppVersion q) = true /\
    UTF8.valid (Data q) = true;
  cr_config :
    match Config q with
    | None => True
    | Some c =>
        c <> [] /\
        map_survives (marshal_any (Any_marshal X)) (unmarshal_any (Any_unmarshal X)) c
    end;
  cr_resources :
    match Resources q with
    | None => True
    | Some rs =>
        rs <> [] /\ map_survives (marshal_resource X) unmarshal_resource rs
    end;
  cr_kind :
    exists j, Kind_marshal X (if String.eqb (Qri q) "" then KindTransform X else Qri q) = Ok j /\
              Kind_unmarshal X j
              = Ok (if String.eqb (Qri q) "" then KindTransform X else Qri q);
  cr_structure :
    match Structure q with
    | None => True
    | Some st => Structure.is_reference st \/ Structure.is_object st
    end
}.

End WithExternals.

Arguments assign1 {X} q q2.
Arguments Assign {X} q qs.
Arguments SetPath {X} q p.
Arguments read_back {X} q.
Arguments carried {X} q.

End TransformCodec.

(** Transforms to run examples with: one that holds a query and a bound
    resource, and one that holds its address alone. *)
Module SampleTransforms.

Definition query : Transform.Transform Sample.X :=
  Transform.mkTransform Sample.X
    Datastore.zero                          (* path *)
    ""                                      (* Qri *)
    "sql"                                   (* Syntax *)
    ""                                      (* AppVersion *)
    "select * from a"                       (* Data *)
    (Some Sample.literal_structure)         (* Structure *)
    (Some [("limit", Some (Sample.VFloat 10))])   (* Config *)
    (Some [("a", "/ipfs/QmA")]).            (* Resources *)

(** The same query with its limit given as a Go [int]. *)
Definition counted : Transform.Transform Sample.X :=
  Transform.mkTransform Sample.X
    Datastore.zero                          (* path *)
    ""                                      (* Qri *)
    "sql"                                   (* Syntax *)
    ""                                      (* AppVersion *)
    "select * from a"                       (* Data *)
    None                                    (* Structure *)
    (Some [("limit", Some (Sample.VInt 10))])     (* Config *)
    None.                                   (* Resources *)

Definition stored : Transform.Transform Sample.X :=
  Transform.NewTransformRef Sample.X (Datastore.mkKey "/ipfs/QmTransform").

(** A transform of the earlier revision with a bound address and a
    syntax, and neither data nor resources. *)
Definition bound_v0 : TransformV0.Transform Sample.X :=
  TransformV0.mkTransform Sample.X
    (Datastore.mkKey "/ipfs/QmTransform")   (* path *)
    "sql"                                   (* Syntax *)
    "0.1.0"                                 (* AppVersion *)
    ""                                      (* Data *)
    None                                    (* Structure *)
    None                                    (* Config *)
    None.                                   (* Resources *)

End SampleTransforms.

(** The earlier revision of transform.go: its encoder. *)
Module TransformV0Codec.
Import GoJSON TransformV0.

Section WithExternals.
Variable X : Externals.

(** [json.Marshal(&_transform{...})] with the six fields of the earlier
    [_transform]. *)
Definition marshal_transform (q : Transform X) : result GoJSON.error json :=
  match
    object
      [ field_string_omitempty "appVersion" (AppVersion X q);
        field_map_omitempty "config" (marshal_any (Any_marshal X)) (Config X q);
        field_string_omitempty "data" (Data q);
        match Resources q with
        | None | Some [] => absent
        | Some l =>
            match Transform.marshal_resources X l with
            | Ok kvs => present "resources" (JObj kvs)
            | Err e => Err e
            end
        end;
        match Structure X q with
        | None => absent
        | Some st =>
            match Structure.MarshalJSON st with
            | Ok j => present "structure" j
            | Err _ => Err (ErrMarshaler "structure")
            end
        end;
        field_string_omitempty "syntax" (Syntax X q) ]
  with
  | Ok kvs => Ok (JObj kvs)
  | Err e => Err e
  end.

(** [func (q Transform) MarshalJSON() ([]byte, error)] *)
Definition MarshalJSON (q : Transform X) : result GoJSON.error json :=
  if negb (String.eqb (Datastore.String (path X q)) "") && IsEmpty q
  then Ok (Datastore.MarshalJSON (path X q))
  else marshal_transform q.

End WithExternals.

Arguments MarshalJSON {X} q.

End TransformV0Codec.

(* ===================================================================== *)
(** * dsfs/dataset.go: what the shape analyser reports *)

Module AnalysisSummary.
Import Analysis.

(** One more than the largest number of objects and arrays in an
    entry, and 1 for a body without entries. *)
Definition deepest (ents : list Entry) : Z :=
  fold_left (fun m e => Z.max m (1 + containers (Value e))) ents 1.

(** A body of three flat entries whose reader ends with an error. *)
Definition torn_body : EntryReader :=
  mkReader [mkEntry 0 "" (JNum 1); mkEntry 1 "" (JNum 2); mkEntry 2 "" (JNum 3)]
    "unexpected EOF".

End AnalysisSummary.

(* ===================================================================== *)
(** * dsfs/dataset.go: the dereference engine *)

Module Deref.
Import Dsfs.

Section WithDocuments.
Variable X : Externals.
Variable D : Documents.

(** What the five [DerefDataset...] functions call that is declared
    outside dataset.go: [IsEmpty] and [Path] of the meta, commit,
    transform and viz documents, and the loaders of dsfs, each of which
    reads one document from the store and decodes it. *)
Record Loaders : Type := mkLoaders {
  Meta_IsEmpty : MetaT D -> bool;
  Meta_Path : MetaT D -> Datastore.Key;
  Commit_IsEmpty : CommitT D -> bool;
  Commit_Path : CommitT D -> Datastore.Key;
  Transform_IsEmpty : Transform D -> bool;
  Viz_IsEmpty : Viz D -> bool;
  loadMeta : Datastore.Key -> result string (MetaT D);
  loadStructure : Datastore.Key -> result string (Structure.Structure X);
  loadTransform : Datastore.Key -> result string (Transform D);
  loadViz : Datastore.Key -> result string (Viz D);
  loadCommit : Datastore.Key -> result string (CommitT D)
}.

Variable L : Loaders.

Inductive error : Type :=
| ErrLoadStructure (msg : string)   (* "error loading dataset structure: %s" *)
| ErrLoadViz (msg : string)         (* "error loading dataset viz: %s" *)
| ErrLoadTransform (msg : string)   (* "error loading dataset transform: %s" *)
| ErrLoadMeta (msg : string)        (* "error loading dataset metadata: %s" *)
| ErrLoadCommit (msg : string)      (* "error loading dataset commit: %s" *)
| ErrNilPointer.                    (* a nil pointer dereference *)

(** The body the five functions share, for a slot of type [T]:
    [if ds.S != nil && ds.S.IsEmpty() && ds.S.Path().String() != "" {
       v, err := load(store, ds.S.Path()); if err != nil { return wrapped }
       v.Assign(NewRef(ds.S.Path())); ds.S = v }
     return nil].
    The loaded value is a new object; the object the slot pointed to is
    left as it is.  The result is the heap and the returned error. *)
Definition deref_slot {T} (inj : T -> obj X D) (proj : obj X D -> option T)
    (slot : Dataset D -> option loc) (set : option loc -> Dataset D -> Dataset D)
    (isEmpty : T -> bool) (path : T -> Datastore.Key)
    (load : Datastore.Key -> result string T)
    (bind : T -> Datastore.Key -> T) (wrap : string -> error)
    (h : heap X D) (ds : loc) : heap X D * option error :=
  match deref (@as_dataset X D) h ds with
  | None => (h, Some ErrNilPointer)
  | Some d =>
      match slot d with
      | None => (h, None)
      | Some l =>
          match deref proj h l with
          | None => (h, Some ErrNilPointer)
          | Some v =>
              if isEmpty v && negb (String.eqb (Datastore.String (path v)) "") then
                match load (path v) with
                | Err msg => (h, Some (wrap msg))
                | Ok loaded =>
                    let '(l', h) := alloc h (inj (bind loaded (path v))) in
                    (<[ds := ODataset X (set (Some l') d)]> h, None)
                end
              else (h, None)
          end
      end
  end.

(** [func DerefDatasetStructure(store, ds) error] *)
Definition DerefDatasetStructure : heap X D -> loc -> heap X D * option error :=
  deref_slot (@OStructure X D) (@as_structure X D) (@Structure D) (@set_Structure D)
    (@Structure.IsEmpty X) (@Structure.Path X) (loadStructure L)
    (fun st p => Structure.Assign X st [Some (Structure.NewStructureRef X p)])
    ErrLoadStructure.

(** [func DerefDatasetViz(store, ds) error] *)
Definition DerefDatasetViz : heap X D -> loc -> heap X D * option error :=
  deref_slot (@OViz X D) (@as_viz X D) (@Viz_ D) (@set_Viz D)
    (Viz_IsEmpty L) (@viz_path D) (loadViz L)
    (fun v p => Viz_Assign v (NewVizRef D p))
    ErrLoadViz.

(** [func DerefDatasetTransform(store, ds) error] *)
Definition DerefDatasetTransform : heap X D -> loc -> heap X D * option error :=
  deref_slot (@OTransform X D) (@as_transform X D) (@Transform_ D) (@set_Transform D)
    (Transform_IsEmpty L) (@tf_path D) (loadTransform L)
    (fun t p => Transform_Assign t (NewTransformRef D p))
    ErrLoadTransform.

(** [func DerefDatasetMeta(store, ds) error] *)
Definition DerefDatasetMeta : heap X D -> loc -> heap X D * option error :=
  deref_slot (@OMeta X D) (@as_meta X D) (@Meta D) (@set_Meta D)
    (Meta_IsEmpty L) (Meta_Path L) (loadMeta L)
    (fun m p => Meta_Assign D m (NewMetaRef D p))
    ErrLoadMeta.

(** [func DerefDatasetCommit(store, ds) error] *)
Definition DerefDatasetCommit : heap X D -> loc -> heap X D * option error :=
  deref_slot (@OCommit X D) (@as_commit X D) (@Commit D) (@set_Commit D)
    (Commit_IsEmpty L) (Commit_Path L) (loadCommit L)
    (fun c p => Commit_Assign D c (NewCommitRef D p))
    ErrLoadCommit.

(** [if err := f(store, ds); err != nil { return err }] *)
Definition and_then (r : heap X D * option error)
    (k : heap X D -> heap X D * option error) : heap X D * option error :=
  match r with
  | (h, Some e) => (h, Some e)
  | (h, None) => k h
  end.

(** [func DerefDataset(store, ds) error] *)
Definition DerefDataset (h : heap X D) (ds : loc) : heap X D * option error :=
  and_then (DerefDatasetMeta h ds) (fun h =>
  and_then (DerefDatasetStructure h ds) (fun h =>
  and_then (DerefDatasetTransform h ds) (fun h =>
  and_then (DerefDatasetViz h ds) (fun h =>
  DerefDatasetCommit h ds)))).

(** A sub-document slot that needs no dereferencing: nil, or holding a
    document that is not a bare reference. *)
Definition hydrated {T} (proj : obj X D -> option T) (isEmpty : T -> bool)
    (path : T -> Datastore.Key) (h : heap X D) (slot : option loc) : Prop :=
  match slot with
  | None => True
  | Some l =>
      exists v, deref proj h l = Some v /\
                isEmpty v && negb (String.eqb (Datastore.String (path v)) "") = false
  end.

End WithDocuments.

Arguments Meta_IsEmpty {X D} _.
Arguments Meta_Path {X D} _.
Arguments Commit_IsEmpty {X D} _.
Arguments Commit_Path {X D} _.
Arguments Transform_IsEmpty {X D} _.
Arguments Viz_IsEmpty {X D} _.
Arguments loadMeta {X D} _.
Arguments loadStructure {X D} _.
Arguments loadTransform {X D} _.
Arguments loadViz {X D} _.
Arguments loadCommit {X D} _.
Arguments deref_slot {X D T} inj proj slot set isEmpty path load bind wrap h ds.
Arguments DerefDatasetStructure {X D} L h ds.
Arguments DerefDatasetViz {X D} L h ds.
Arguments DerefDatasetTransform {X D} L h ds.
Arguments DerefDatasetMeta {X D} L h ds.
Arguments DerefDatasetCommit {X D} L h ds.
Arguments DerefDataset {X D} L h ds.
Arguments and_then {X D} r k.
Arguments hydrated {X D T} proj isEmpty path h slot.

End Deref.

(** A store to dereference from: it holds one structure, and the other
    loaders find nothing; a meta or commit document is empty when it has
    no title, a transform or viz when it has no text, script or
    resources. *)
Module SampleLoaders.
Import Dsfs Deref.

Definition not_found {T} (k : Datastore.Key) : result string T := Err "not found".

Definition L : Loaders Sample.X SampleStore.D :=
  {| Meta_IsEmpty := fun m : MetaT SampleStore.D => String.eqb (snd m) "";
     Meta_Path := fun m : MetaT SampleStore.D => fst m;
     Commit_IsEmpty := fun c : CommitT SampleStore.D => String.eqb (snd c) "";
     Commit_Path := fun c : CommitT SampleStore.D => fst c;
     Transform_IsEmpty := fun t : Transform SampleStore.D =>
       String.eqb (tf_rest t) "" && Transform.is_nil (tf_Script t)
       && Transform.is_nil (tf_Resources t);
     Viz_IsEmpty := fun v : Viz SampleStore.D =>
       String.eqb (viz_rest v) "" && Transform.is_nil (viz_Script v);
     loadMeta := not_found;
     loadStructure := fun k =>
       if String.eqb (Datastore.String k) "/ipfs/QmStructure"
       then Ok Sample.literal_structure else Err "not found";
     loadTransform := not_found;
     loadViz := not_found;
     loadCommit := not_found |}.

(** A dataset as [LoadDatasetRefs] leaves it: its structure is a bare
    reference. *)
Definition loaded_heap : heap Sample.X SampleStore.D :=
  [ ODataset Sample.X
      (@mkDataset SampleStore.D (Datastore.mkKey "/mem/QmDataset") "/mem/QmBody" "" ""
         None (Some 1%nat) None None None);
    OStructure SampleStore.D Sample.structure_ref ].

End SampleLoaders.

(* ===================================================================== *)
(** * Part II: the claims *)

Lemma wrap64_id z : in_int z -> wrap64 z = z.
Proof.
  unfold in_int, int_min, int_max, wrap64. intros H.
  rewrite Z.mod_small; lia.
Qed.

(* --------------------------------------------------------------------- *)
(** ** Data formats *)

Module DataFormatFacts.
Import DataFormat.

(** C10.  For every data format the [const] block defines, parsing the
    text that [String] gives for it returns that same format and no
    error. *)
Theorem format_string_parses_back (f : DataFormat) :
  defined f -> ParseDataFormatString (String f) = (f, None).
Proof.
  unfold defined. simpl.
  intros H; repeat (destruct H as [<- | H]; [reflexivity |]).
  contradiction.
Qed.

Lemma format_string_parses_back_witness :
  defined CsvDataFormat /\
  ParseDataFormatString (String CsvDataFormat) = (CsvDataFormat, None).
Proof.
  split.
  - unfold defined. simpl. auto.
  - apply (format_string_parses_back CsvDataFormat). unfold defined. simpl. auto.
Defined.

(** A value outside the [const] block prints as the empty text, which
    parses as the unknown format. *)
Example undefined_format_does_not_round_trip :
  ParseDataFormatString (String 999) = (UnknownDataFormat, None).
Proof. reflexivity. Qed.

End DataFormatFacts.

(* --------------------------------------------------------------------- *)
(** ** The shape analyser *)

Module AnalysisFacts.
Import Analysis.

(** An induction principle for [json] that reaches into arrays and
    objects. *)
Lemma json_ind' (P : json -> Prop) :
  P JNull ->
  (forall b, P (JBool b)) ->
  (forall z, P (JNum z)) ->
  (forall s, P (JStr s)) ->
  (forall l, Forall P l -> P (JArr l)) ->
  (forall l, Forall (fun kv => P (snd kv)) l -> P (JObj l)) ->
  forall x, P x.
Proof.
  intros Hnull Hbool Hnum Hstr Harr Hobj.
  exact
    (fix rec (x : json) : P x :=
       match x with
       | JNull => Hnull
       | JBool b => Hbool b
       | JNum z => Hnum z
       | JStr s => Hstr s
       | JArr l =>
           Harr l
             ((fix go (l : list json) : Forall P l :=
                 match l with
                 | [] => @List.Forall_nil _ P
                 | y :: l' => @List.Forall_cons _ P y l' (rec y) (go l')
                 end) l)
       | JObj l =>
           Hobj l
             ((fix go (l : list (string * json)) : Forall (fun kv => P (snd kv)) l :=
                 match l with
                 | [] => @List.Forall_nil _ (fun kv => P (snd kv))
                 | kv :: l' =>
                     @List.Forall_cons _ (fun kv => P (snd kv)) kv l' (rec (snd kv)) (go l')
                 end) l)
       end).
Qed.

Lemma containers_nonneg x : 0 <= containers x.
Proof.
  induction x using json_ind'; simpl; try lia.
  - assert (G : forall n, 0 <= n -> 0 <= fold_left (fun n el => n + containers el) l n).
    { induction H as [| y l Hy Hl IH]; simpl; intros n Hn; [lia |].
      apply IH. lia. }
    apply G. lia.
  - assert (G : forall n, 0 <= n ->
              0 <= fold_left (fun n kv => match kv with (_, el) => n + containers el end) l n).
    { induction H as [| [k y] l Hy Hl IH]; simpl; intros n Hn; [lia |].
      apply IH. simpl in Hy. lia. }
    apply G. lia.
Qed.

Lemma fold_left_snd {A} (F : A -> json -> A) (l : list (string * json)) (a : A) :
  fold_left (fun a kv => match kv with (_, el) => F a el end) l a
  = fold_left F (map snd l) a.
Proof.
  revert a. induction l as [| [k y] l IH]; simpl; intros a; [reflexivity | apply IH].
Qed.

(** Starting a count at [n] only shifts it. *)
Lemma count_shift (l : list json) (n : Z) :
  fold_left (fun n el => n + containers el) l n
  = n + fold_left (fun n el => n + containers el) l 0.
Proof.
  revert n. induction l as [| y l IH]; simpl; intros n; [lia |].
  rewrite IH. rewrite (IH (0 + containers y)). lia.
Qed.

Lemma count_nonneg (l : list json) :
  0 <= fold_left (fun n el => n + containers el) l 0.
Proof.
  induction l as [| y l IH]; simpl; [lia |].
  rewrite count_shift. pose proof (containers_nonneg y). lia.
Qed.

(** The loop over the elements of a container: when every element adds
    its own container count to the depth it is handed, the loop adds the
    counts of all the elements. *)
Lemma range_counts (l : list json) :
  Forall (fun y => forall d, in_int d -> in_int (d + containers y) ->
                             getDepth y d = d + containers y) l ->
  forall depth,
    in_int depth ->
    in_int (depth + fold_left (fun n el => n + containers el) l 0) ->
    fold_left (fun depth el => let d := getDepth el depth in
                               if d >? depth then d else depth) l depth
    = depth + fold_left (fun n el => n + containers el) l 0.
Proof.
  induction 1 as [| y l Hy Hl IH]; simpl; intros depth Hd Hsum; [lia |].
  rewrite count_shift in Hsum |- *.
  pose proof (containers_nonneg y) as Hy0.
  pose proof (count_nonneg l) as Hl0.
  assert (Hin : in_int (depth + containers y)).
  { unfold in_int in *. lia. }
  rewrite (Hy depth Hd Hin).
  assert (E : (if depth + containers y >? depth then depth + containers y else depth)
              = depth + containers y).
  { destruct (Z.gtb_spec (depth + containers y) depth); lia. }
  rewrite E, IH; [lia | exact Hin |].
  unfold in_int in *. lia.
Qed.

(** What [getDepth] computes: the depth it is handed plus the number of
    objects and arrays anywhere in the value, not the length of the
    longest chain of nested ones. *)
Lemma getDepth_arr l d :
  getDepth (JArr l) d
  = fold_left (fun depth el => let d := getDepth el depth in
                               if d >? depth then d else depth) l (wrap64 (d + 1)).
Proof. reflexivity. Qed.

Lemma getDepth_obj l d :
  getDepth (JObj l) d
  = fold_left (fun depth el => let d := getDepth el depth in
                               if d >? depth then d else depth)
      (map snd l) (wrap64 (d + 1)).
Proof. simpl. apply (fold_left_snd (fun depth el => let d := getDepth el depth in
                               if d >? depth then d else depth)). Qed.

Lemma containers_arr l :
  containers (JArr l) = 1 + fold_left (fun n el => n + containers el) l 0.
Proof. simpl. apply count_shift. Qed.

Lemma containers_obj l :
  containers (JObj l) = 1 + fold_left (fun n el => n + containers el) (map snd l) 0.
Proof.
  simpl. rewrite (fold_left_snd (fun n el => n + containers el)). apply count_shift.
Qed.

(** What [getDepth] computes: the depth it is handed plus the number of
    objects and arrays anywhere in the value, not the length of the
    longest chain of nested ones. *)
Lemma getDepth_counts_containers (x : json) :
  forall d, in_int d -> in_int (d + containers x) ->
            getDepth x d = d + containers x.
Proof.
  induction x as [| b | z | s | l IH | l IH] using json_ind';
    intros d Hd Hsum; try (simpl; lia).
  - rewrite getDepth_arr. rewrite containers_arr in Hsum |- *.
    pose proof (count_nonneg l) as Hl0.
    assert (Hd1 : in_int (d + 1)) by (unfold in_int in *; lia).
    rewrite (wrap64_id _ Hd1).
    rewrite (range_counts l IH (d + 1) Hd1); [lia |].
    unfold in_int in *. lia.
  - rewrite getDepth_obj. rewrite containers_obj in Hsum |- *.
    pose proof (count_nonneg (map snd l)) as Hl0.
    assert (Hd1 : in_int (d + 1)) by (unfold in_int in *; lia).
    rewrite (wrap64_id _ Hd1).
    rewrite (range_counts (map snd l)); [lia | | exact Hd1 |].
    + apply Forall_map. exact IH.
    + unfold in_int in *. lia.
Qed.

Lemma getDepth_counts_containers_witness :
  getDepth (JArr [JArr [JNum 1]; JArr [JNum 2]]) 1
  = 1 + containers (JArr [JArr [JNum 1]; JArr [JNum 2]]).
Proof.
  apply (getDepth_counts_containers (JArr [JArr [JNum 1]; JArr [JNum 2]]) 1);
    unfold in_int, int_min, int_max; simpl; lia.
Defined.

Example nested_object_depth :
  setDepthAndEntryCount (Ok nested_object_body) = Ok (1, 3).
Proof. reflexivity. Qed.

(** C9.  On the body [[[1],[2]]] the analyser reports one entry and depth
    4, while the deepest branch has baseline 1, the entry's array and
    one nested array, which is 3: the second inner array is counted on
    top of the first instead of beside it. *)
Theorem sibling_containers_are_added_up :
  setDepthAndEntryCount (Ok sibling_arrays_body) = Ok (1, 4) /\
  spec_depth (read_entries sibling_arrays_body) = 3.
Proof. split; reflexivity. Qed.

End AnalysisFacts.

(* --------------------------------------------------------------------- *)
(** ** The commit message synthesiser *)

Module CommitMsgFacts.
Import Strings CommitMsg.

Lemma len_nonneg s : 0 <= len s.
Proof. unfold len. lia. Qed.

Lemma len_cons c s : len (String.String c s) = len s + 1.
Proof. unfold len. simpl String.length. lia. Qed.

Lemma len_append s t : len (s ++ t)%string = len s + len t.
Proof.
  induction s as [| c s IH]; simpl.
  - unfold len at 2. simpl. lia.
  - rewrite !len_cons, IH. lia.
Qed.

Lemma len_take n s : len (take n s) <= Z.of_nat n.
Proof.
  revert s. induction n as [| n IH]; intros s; simpl.
  - unfold len. simpl. lia.
  - destruct s as [| c s].
    + unfold len. simpl. lia.
    + rewrite len_cons. specialize (IH s). lia.
Qed.

Lemma len_take_le n s : len (take n s) <= len s.
Proof.
  revert s. induction n as [| n IH]; intros s; simpl.
  - unfold len. simpl. lia.
  - destruct s as [| c s].
    + lia.
    + rewrite !len_cons. specialize (IH s). lia.
Qed.

(** An offset returned by [LastIndex] for a one-byte separator lies
    inside the string. *)
Lemma LastIndex_space_lt s : LastIndex s " " <= len s - 1.
Proof.
  induction s as [| c s IH].
  - unfold len. simpl. lia.
  - rewrite len_cons. pose proof (len_nonneg s).
    cbn [LastIndex].
    destruct (0 <=? LastIndex s " "); [lia |].
    destruct (has_prefix " " (String.String c s)); lia.
Qed.

(** X18.  The title never exceeds 70 bytes. *)
Lemma title_at_most_70 (sTitle sMsg diffDescription : string) :
  len (fst (cleanTitleAndMessage sTitle sMsg diffDescription)) <= 70.
Proof.
  unfold cleanTitleAndMessage.
  set (c := if (sTitle =? "")%string && negb (diffDescription =? "")%string
            then (diffDescription, sMsg)
            else if (sTitle =? "")%string then (sMsg, "") else (sTitle, sMsg)).
  destruct c as [st sm].
  set (cut := if LastIndex (slice_to st 67) " " >? 0
              then LastIndex (slice_to st 67) " " + 1 else 66).
  assert (Hcut : 0 <= cut <= 67).
  { unfold cut.
    pose proof (LastIndex_space_lt (slice_to st 67)) as H1.
    pose proof (len_take 67 st) as H2. unfold slice_to in *.
    change (Z.to_nat 67) with 67%nat in *.
    destruct (Z.gtb_spec (LastIndex (take 67 st) " ") 0); lia. }
  set (long := if len st >? 70
               then ((slice_to st cut ++ "...")%string,
                     ("..." ++ slice_from st cut ++ newline ++ sm)%string)
               else (st, sm)).
  assert (Hlong : len (fst long) <= 70).
  { unfold long. destruct (Z.gtb_spec (len st) 70); simpl; [| lia].
    rewrite len_append. unfold slice_to.
    pose proof (len_take (Z.to_nat cut) st).
    change (len "...") with 3. lia. }
  destruct long as [st' sm']. simpl in Hlong.
  destruct (Index st' newline >? 0); simpl; [| exact Hlong].
  unfold slice_to. pose proof (len_take_le (Z.to_nat (Index st' newline)) st'). lia.
Qed.

(** The specification's example: a title of 100 ['x'] and no message. *)
Example hundred_x_title :
  cleanTitleAndMessage (repeat "x" 100) "" ""
  = ((repeat "x" 66 ++ "...")%string,
     ("..." ++ repeat "x" 34 ++ newline)%string).
Proof. vm_compute. reflexivity. Qed.

(** C7.  A title that begins with a line break is returned as it is:
    [strings.Index] gives offset 0 for it and the split is taken only
    for an offset above 0, so the title handed back still holds the
    line break. *)
Theorem leading_line_break_stays_in_title :
  cleanTitleAndMessage (newline ++ "abc")%string "" "" = ((newline ++ "abc")%string, "") /\
  contains_byte (ascii_of_nat 10)
    (fst (cleanTitleAndMessage (newline ++ "abc")%string "" "")) = true.
Proof. split; vm_compute; reflexivity. Qed.

End CommitMsgFacts.

(* --------------------------------------------------------------------- *)
(** ** Transform: emptiness and the two encodings *)

Module TransformFacts.
Import Transform.

Lemma eqb_empty s : String.eqb s "" = true <-> s = "".
Proof. apply String.eqb_eq. Qed.

Lemma is_nil_true {A} (o : option A) : is_nil o = true <-> o = None.
Proof. destruct o; simpl; split; congruence. Qed.

(** C8, as the code has it.  [IsEmpty] holds exactly when [Data],
    [Resources], [Syntax], [AppVersion], [Structure] and [Config] are at
    their zero values; neither the address nor the kind tag is looked
    at. *)
Theorem IsEmpty_iff_content_zero (X : Externals) (q : Transform X) :
  IsEmpty q = true <-> content_zero q.
Proof.
  unfold IsEmpty, content_zero.
  rewrite !andb_true_iff, !eqb_empty, !is_nil_true. tauto.
Qed.

(** C8, as the claim has it, fails: a transform that holds only its kind
    tag is empty for the code, with a field other than the address
    set. *)
Lemma kind_tag_alone_counts_as_empty :
  ~ (IsEmpty Sample.tagged_transform = true <-> all_zero Sample.tagged_transform).
Proof.
  intros [H _].
  assert (E : IsEmpty Sample.tagged_transform = true) by reflexivity.
  destruct (H E) as [Hq _]. discriminate Hq.
Qed.

(** The earlier revision of [IsEmpty] agrees on everything that is
    content-free, and looks at [Data] and [Resources] alone. *)
Lemma IsEmpty_V0_iff (X : Externals) (q : TransformV0.Transform X) :
  TransformV0.IsEmpty q = true
  <-> TransformV0.Data q = "" /\ TransformV0.Resources q = None.
Proof.
  unfold TransformV0.IsEmpty.
  rewrite andb_true_iff, eqb_empty, is_nil_true. tauto.
Qed.

(** The transform encoder gives the bare address exactly for an empty
    transform with a bound address. *)
Lemma Transform_reference_iff (X : Externals) (q : Transform X) :
  (exists k, MarshalJSON q = Ok (JStr k))
  <-> Datastore.String (path q) <> "" /\ IsEmpty q = true.
Proof.
  unfold MarshalJSON. split.
  - intros [k Hk].
    destruct (String.eqb_spec (Datastore.String (path q)) "") as [E | E];
      destruct (IsEmpty q); simpl in Hk; try (split; [exact E | reflexivity]);
      exfalso; unfold MarshalJSONObject, marshal_transform in Hk;
      match type of Hk with
      | match ?o with _ => _ end = _ => destruct o; discriminate
      end.
  - intros [Hp He]. rewrite He.
    destruct (String.eqb_spec (Datastore.String (path q)) "") as [E | E];
      [contradiction |].
    simpl. eexists. reflexivity.
Qed.

End TransformFacts.

(* --------------------------------------------------------------------- *)
(** ** Text and maps through [encoding/json] *)

Module CodecFacts.
Import GoJSON.

Lemma coerce_from_valid (k : nat) (s : string) :
  UTF8.valid_from k s = true -> UTF8.coerce_from k s = s.
Proof.
  revert k. induction s as [| c s IH]; intros k H; [reflexivity |].
  cbn [UTF8.valid_from UTF8.coerce_from] in *.
  destruct k as [| k].
  - destruct (UTF8.rune_width c s) as [| w]; [discriminate H |].
    rewrite (IH w H). reflexivity.
  - rewrite (IH k H). reflexivity.
Qed.

(** Text that is UTF-8 is written as it is. *)
Lemma coerce_valid (s : string) : UTF8.valid s = true -> UTF8.coerce s = s.
Proof. apply coerce_from_valid. Qed.

Lemma map_set_fresh {V} (k : string) (v : V) (l : list (string * V)) :
  ~ In k (map fst l) -> map_set k v l = l ++ [(k, v)].
Proof.
  induction l as [| [k' v'] l IH]; simpl; intros Hk; [reflexivity |].
  destruct (String.eqb_spec k k') as [-> | Hne].
  - exfalso. apply Hk. left. reflexivity.
  - rewrite IH; [reflexivity |]. intros Hin. apply Hk. right. exact Hin.
Qed.

(** Merging a map with distinct keys into an empty one gives the map. *)
Lemma merge_fresh {V} (l2 acc : list (string * V)) :
  List.NoDup (map fst (acc ++ l2)) ->
  fold_left (fun acc kv => map_set (fst kv) (snd kv) acc) l2 acc = acc ++ l2.
Proof.
  revert acc. induction l2 as [| [k v] l2 IH]; intros acc Hnd; simpl.
  - rewrite app_nil_r. reflexivity.
  - rewrite map_set_fresh.
    + rewrite IH; rewrite <- app_assoc; [reflexivity | exact Hnd].
    + rewrite map_app in Hnd. simpl in Hnd.
      apply List.NoDup_remove_2 in Hnd. intros Hin. apply Hnd.
      apply in_or_app. left. exact Hin.
Qed.

Lemma insert_key_perm {V} (kv : string * V) (l : list (string * V)) :
  Permutation (insert_key kv l) (kv :: l).
Proof.
  induction l as [| kv' l IH]; simpl; [reflexivity |].
  destruct (String.leb (fst kv) (fst kv')); [reflexivity |].
  rewrite IH. apply perm_swap.
Qed.

(** Listing a map in key order keeps its entries. *)
Lemma sort_keys_perm {V} (l : list (string * V)) : Permutation (sort_keys l) l.
Proof.
  induction l as [| kv l IH]; [reflexivity |].
  change (sort_keys (kv :: l)) with (insert_key kv (sort_keys l)).
  rewrite insert_key_perm. rewrite IH. reflexivity.
Qed.

Lemma sort_keys_survives {V} (enc : V -> result error json) (dec : json -> result error V)
    (l : list (string * V)) :
  map_survives enc dec l -> map_survives enc dec (sort_keys l).
Proof.
  intros [Hnd Hall]. pose proof (sort_keys_perm l) as P. split.
  - apply (Permutation_NoDup (l := map fst l)); [| exact Hnd].
    apply Permutation_map. symmetry. exact P.
  - apply (Permutation_Forall (x := l)); [symmetry; exact P | exact Hall].
Qed.

(** The members written for entries that survive read back as the
    entries. *)
Lemma members_round_trip {V} (enc : V -> result error json) (dec : json -> result error V)
    (l : list (string * V)) :
  Forall (fun kv => UTF8.valid (fst kv) = true /\ survives enc dec (snd kv)) l ->
  exists kvs,
    marshal_members enc l = Ok kvs /\ unmarshal_members dec kvs = Ok l /\
    (l <> [] -> kvs <> []).
Proof.
  induction l as [| [k v] l IH]; intros Hall.
  - exists []. split; [reflexivity |]. split; [reflexivity |]. intros H. contradiction.
  - apply Forall_cons_iff in Hall. destruct Hall as [[Hk (j & He & Hd)] Hall].
    destruct (IH Hall) as (kvs & Hm & Hu & _). simpl in Hk, He, Hd.
    exists ((k, j) :: kvs). cbn [marshal_members unmarshal_members].
    rewrite He, Hm, (coerce_valid k Hk), Hd, Hu.
    split; [reflexivity |]. split; [reflexivity |]. intros _. discriminate.
Qed.

(** A map that survives is read back as the same map, its entries in
    key order. *)
Lemma map_round_trip {V} (enc : V -> result error json) (dec : json -> result error V)
    (l : list (string * V)) :
  map_survives enc dec l ->
  exists kvs,
    marshal_map enc l = Ok kvs /\ unmarshal_map dec kvs = Ok (sort_keys l) /\
    (l <> [] -> kvs <> []).
Proof.
  intros Hs. destruct (sort_keys_survives enc dec l Hs) as [Hnd Hall].
  destruct (members_round_trip enc dec (sort_keys l) Hall) as (kvs & Hm & Hu & Hne).
  exists kvs. unfold marshal_map, unmarshal_map. rewrite Hm, Hu.
  split; [reflexivity |]. split.
  - rewrite (merge_fresh (sort_keys l) []) by exact Hnd. reflexivity.
  - intros Hl. apply Hne. intros E. apply Hl.
    apply Permutation_nil. rewrite <- E. apply sort_keys_perm.
Qed.

(** A value held in an [interface{}] survives when it is written as a
    document other than [null] that is read as the same value; nil
    always does. *)
Lemma any_survives {A} (enc : A -> result string json) (dec : json -> result string A)
    (v : option A) :
  match v with
  | None => True
  | Some a => exists j, enc a = Ok j /\ j <> JNull /\ dec j = Ok a
  end ->
  survives (marshal_any enc) (unmarshal_any dec) v.
Proof.
  destruct v as [a |].
  - intros (j & He & Hn & Hd). exists j. simpl. rewrite He. split; [reflexivity |].
    unfold unmarshal_any. destruct j; try congruence; rewrite Hd; reflexivity.
  - intros _. exists JNull. split; reflexivity.
Qed.

End CodecFacts.

(* --------------------------------------------------------------------- *)
(** ** Structure: the two encodings *)

Module StructureFacts.
Import Structure.

(** The guard of the structure encoder looks at the address, the
    character encoding and the schema only. *)
Lemma Structure_reference_iff (X : Externals) (s : Structure X) :
  (exists k, MarshalJSON s = Ok (JStr k))
  <-> Datastore.String (path s) <> "" /\ Encoding s = "" /\ Schema s = None.
Proof.
  unfold MarshalJSON. split.
  - intros [k Hk].
    destruct (String.eqb_spec (Datastore.String (path s)) "") as [E | E];
      destruct (String.eqb_spec (Encoding s) "") as [E2 | E2];
      destruct (Schema s) as [sch |]; simpl in Hk;
      try (repeat split; solve [assumption | reflexivity]);
      exfalso; unfold marshal_structure in Hk;
      match type of Hk with
      | match ?o with _ => _ end = _ => destruct o; discriminate
      end.
  - intros (Hp & He & Hs). rewrite He, Hs.
    destruct (String.eqb_spec (Datastore.String (path s)) "") as [E | E];
      [contradiction |].
    simpl. eexists. reflexivity.
Qed.

(** C1.  A structure with a bound address, a checksum, a format, an
    entry count and a length, but no character encoding and no schema,
    is not empty, and is still encoded as the bare address: the guard of
    [Structure.MarshalJSON] tests two fields where [Transform.MarshalJSON]
    calls [IsEmpty]. *)
Theorem populated_structure_encodes_as_reference :
  IsEmpty Sample.loaded_structure = false /\
  MarshalJSON Sample.loaded_structure = Ok (JStr "/ipfs/QmStructure").
Proof. split; reflexivity. Qed.

Lemma format_json_round_trip (f : DataFormat.DataFormat) :
  DataFormat.defined f -> f <> DataFormat.UnknownDataFormat ->
  DataFormat.MarshalJSON f = Some (JStr (DataFormat.String f)) /\
  DataFormat.UnmarshalJSON (JStr (DataFormat.String f)) = Ok f.
Proof.
  unfold DataFormat.defined. simpl.
  intros H Hne; repeat (destruct H as [<- | H]; [try (split; reflexivity) |]);
    contradiction.
Qed.

Lemma IsEmpty_fields (X : Externals) (s : Structure X) :
  IsEmpty s = true ->
  Encoding s = "" /\ Schema s = None /\
  Compression_eqb X (Compression s) (CompressionNone X) = true.
Proof.
  unfold IsEmpty. rewrite !andb_true_iff.
  intros (((((((_ & Hc) & He) & _) & _) & _) & _) & Hs).
  apply String.eqb_eq in He. destruct (Schema s); [discriminate |]. auto.
Qed.

(** The reference half of the round trip. *)
Lemma reference_round_trip (X : Externals) (v : Structure X) :
  is_reference v ->
  MarshalJSON v = Ok (JStr (Datastore.String (path v))) /\
  UnmarshalJSON X (JStr (Datastore.String (path v))) = Ok (read_back v) /\
  read_back v = reference (NewKey X (Datastore.String (path v))) /\
  IsEmpty (read_back v) = true /\
  Path (read_back v) = NewKey X (Datastore.String (path v)).
Proof.
  intros (He & Hp & Hc & Hk).
  destruct (IsEmpty_fields X v He) as (Henc & Hsch & Hcmp).
  assert (G : encodes_as_reference v = true).
  { unfold encodes_as_reference. rewrite Henc, Hsch.
    destruct (String.eqb_spec (Datastore.String (path v)) ""); [contradiction |].
    reflexivity. }
  unfold read_back. rewrite G.
  split; [| split; [| split; [| split]]].
  - unfold MarshalJSON. fold (encodes_as_reference v). rewrite G.
    unfold Datastore.MarshalJSON. rewrite (CodecFacts.coerce_valid _ Hk). reflexivity.
  - reflexivity.
  - reflexivity.
  - unfold IsEmpty, reference. simpl. rewrite <- Hc at 1. rewrite Hcmp. reflexivity.
  - reflexivity.
Qed.

Lemma fits_int_in_int z : in_int z -> GoJSON.fits_int z = true.
Proof.
  unfold in_int, GoJSON.fits_int. intros [H1 H2].
  apply andb_true_iff. split; apply Z.leb_le; assumption.
Qed.

(** The object half of the round trip. *)
Lemma object_round_trip (X : Externals) (v : Structure X) :
  is_object v ->
  exists j, MarshalJSON v = Ok j /\ UnmarshalJSON X j = Ok (read_back v).
Proof.
  intros [G [[Hcs Henc0] [Hfd Hfn] Hent Hlen Hcmp Hkind Hsch Hcfg]].
  unfold read_back. rewrite G.
  unfold MarshalJSON. fold (encodes_as_reference v). rewrite G.
  fold (encoded_kind v).
  destruct (format_json_round_trip _ Hfd Hfn) as [Hfm Hfu].
  destruct Hkind as (jk & Hkm & Hku).
  apply fits_int_in_int in Hent. apply fits_int_in_int in Hlen.
  unfold without_address.
  set (kind := encoded_kind v) in *. clearbody kind. clear G.
  destruct v as [p cs cmp enc ents fmt fc kd len sch]; simpl in *.
  unfold marshal_structure; simpl.
  rewrite Hfm, Hkm.
  unfold GoJSON.field_string_omitempty, GoJSON.field_int_omitempty,
    GoJSON.field_marshaler, GoJSON.field_map_omitempty, GoJSON.field_codec,
    GoJSON.absent, GoJSON.present.
  rewrite (CodecFacts.coerce_valid cs Hcs), (CodecFacts.coerce_valid enc Henc0).
  destruct (String.eqb_spec cs "") as [-> | Hcs0].
  all: destruct (Compression_eqb X cmp (CompressionNone X)) eqn:Ecmp;
    [subst cmp | destruct Hcmp as (jc & Hcm & Hcu); rewrite Hcm].
  all: destruct (String.eqb_spec enc "") as [-> | Henc].
  all: destruct (Z.eqb_spec ents 0) as [-> | Hents].
  all: destruct fc as [fc |];
    [destruct Hcfg as (m & Hmap & Hne & Hsurv & Hparse);
     destruct (CodecFacts.map_round_trip _ _ m Hsurv) as (kvs & Hmm & Hmu & _);
     rewrite Hmap; destruct m as [| kv m]; [contradiction |];
     cbv beta iota; rewrite Hmm |].
  all: destruct (Z.eqb_spec len 0) as [-> | Hlen0].
  all: destruct sch as [sch |];
    [destruct Hsch as (js & Hsm & Hsn & Hsu); rewrite Hsm |].
  all: simpl; eexists; (split; [reflexivity |]).
  all: unfold UnmarshalJSON, unmarshal_structure, GoJSON.get_string, GoJSON.get_codec,
         GoJSON.get_int, GoJSON.get_map, GoJSON.get_pointer, GoJSON.member; simpl.
  all: rewrite ?Hfu, ?Hku, ?Hcu, ?Hent, ?Hlen, ?Hmu; simpl.
  all: try (destruct js; try congruence; rewrite Hsu; simpl).
  all: rewrite ?Hparse; reflexivity.
Qed.

(** C2, as the code has it.  A reference (an empty structure bound to an
    address that is UTF-8 text) is encoded as the bare address string, and
    decoding that string gives a structure that is empty, carries the
    address [datastore.NewKey] makes of the string, and has every other
    field, the kind tag among them, at its zero value.  A structure that
    takes the object form (no bound address, or a character encoding, or a
    schema) with a known format and texts that are UTF-8 is encoded as an
    object, and decoding it gives the same structure field for field,
    save that the address is cleared and an unset kind tag reads back as
    [KindStructure]. *)
Theorem structure_round_trip (X : Externals) (v : Structure X) :
  is_reference v \/ is_object v ->
  exists j,
    MarshalJSON v = Ok j /\
    UnmarshalJSON X j = Ok (read_back v) /\
    (is_reference v ->
     j = JStr (Datastore.String (path v)) /\
     read_back v = reference (NewKey X (Datastore.String (path v))) /\
     IsEmpty (read_back v) = true /\
     Path (read_back v) = NewKey X (Datastore.String (path v))) /\
    (is_object v -> read_back v = without_address v).
Proof.
  intros [Href | Hobj].
  - destruct (reference_round_trip X v Href) as (Hm & Hu & Hr & He & Hp).
    exists (JStr (Datastore.String (path v))).
    split; [exact Hm |]. split; [exact Hu |]. split.
    + intros _. auto.
    + intros [G _]. exfalso.
      destruct Href as (Hemp & Hb & _ & _).
      destruct (IsEmpty_fields X v Hemp) as (Henc & Hsch & _).
      unfold encodes_as_reference in G. rewrite Henc, Hsch in G.
      destruct (String.eqb_spec (Datastore.String (path v)) ""); [contradiction |].
      discriminate G.
  - destruct (object_round_trip X v Hobj) as (j & Hm & Hu).
    exists j. split; [exact Hm |]. split; [exact Hu |]. split.
    + intros Href. exfalso.
      destruct Hobj as [G _].
      destruct Href as (Hemp & Hb & _ & _).
      destruct (IsEmpty_fields X v Hemp) as (Henc & Hsch & _).
      unfold encodes_as_reference in G. rewrite Henc, Hsch in G.
      destruct (String.eqb_spec (Datastore.String (path v)) ""); [contradiction |].
      discriminate G.
    + intros [G _]. unfold read_back. rewrite G. reflexivity.
Qed.

Lemma literal_structure_is_object : is_object Sample.literal_structure.
Proof.
  split; [reflexivity |].
  constructor; simpl.
  - split; reflexivity.
  - split; [unfold DataFormat.defined; simpl; auto | discriminate].
  - unfold in_int, int_min, int_max. lia.
  - unfold in_int, int_min, int_max. lia.
  - reflexivity.
  - exists (JStr "qri:st:0"). split; reflexivity.
  - exact I.
  - exact I.
Defined.

Lemma structure_ref_is_reference : is_reference Sample.structure_ref.
Proof.
  split; [reflexivity |]. split; [discriminate |]. split; reflexivity.
Defined.

Lemma structure_round_trip_witness :
  (exists j,
     MarshalJSON Sample.structure_ref = Ok j /\
     UnmarshalJSON Sample.X j = Ok (read_back Sample.structure_ref) /\
     (is_reference Sample.structure_ref ->
      j = JStr (Datastore.String (path Sample.structure_ref)) /\
      read_back Sample.structure_ref
      = reference (NewKey Sample.X (Datastore.String (path Sample.structure_ref))) /\
      IsEmpty (read_back Sample.structure_ref) = true /\
      Path (read_back Sample.structure_ref)
      = NewKey Sample.X (Datastore.String (path Sample.structure_ref))) /\
     (is_object Sample.structure_ref ->
      read_back Sample.structure_ref = without_address Sample.structure_ref)) /\
  (exists j,
     MarshalJSON Sample.literal_structure = Ok j /\
     UnmarshalJSON Sample.X j = Ok (read_back Sample.literal_structure) /\
     (is_reference Sample.literal_structure ->
      j = JStr (Datastore.String (path Sample.literal_structure)) /\
      read_back Sample.literal_structure
      = reference (NewKey Sample.X (Datastore.String (path Sample.literal_structure))) /\
      IsEmpty (read_back Sample.literal_structure) = true /\
      Path (read_back Sample.literal_structure)
      = NewKey Sample.X (Datastore.String (path Sample.literal_structure))) /\
     (is_object Sample.literal_structure ->
      read_back Sample.literal_structure = without_address Sample.literal_structure)).
Proof.
  split.
  - apply (structure_round_trip Sample.X Sample.structure_ref).
    left. exact structure_ref_is_reference.
  - apply (structure_round_trip Sample.X Sample.literal_structure).
    right. exact literal_structure_is_object.
Defined.

(** C2, as the claim has it, fails: a structure literal with a format and
    a character encoding, no address and no kind tag, is encoded as an
    object that carries [KindStructure], so what is decoded differs from
    the literal in its kind tag. *)
Lemma unset_kind_does_not_round_trip :
  exists j d,
    MarshalJSON Sample.literal_structure = Ok j /\
    UnmarshalJSON Sample.X j = Ok d /\
    Kind d = "qri:st:0" /\
    Kind Sample.literal_structure = "" /\
    d <> Sample.literal_structure.
Proof.
  eexists. eexists.
  split; [reflexivity |]. split; [reflexivity |].
  split; [reflexivity |]. split; [reflexivity |].
  discriminate.
Qed.

(** The address of a reference is read back through [datastore.NewKey]:
    a reference to the unrooted [X] is encoded as the string [X], and what
    is decoded carries the rooted [/X]. *)
Example unrooted_address_is_rooted :
  MarshalJSON Sample.relative_ref = Ok (JStr "X") /\
  exists d,
    UnmarshalJSON Sample.X (JStr "X") = Ok d /\
    IsEmpty d = true /\
    Path d = Datastore.mkKey "/X" /\
    Path Sample.relative_ref = Datastore.mkKey "X".
Proof.
  split; [reflexivity |]. eexists.
  split; [reflexivity |]. split; [reflexivity |]. split; reflexivity.
Qed.

(** Text that is not UTF-8 is not given back: a character encoding that
    is the single byte 255 is written as U+FFFD, and read as its three
    bytes. *)
Example invalid_text_is_rewritten :
  UTF8.valid (Encoding Sample.mistyped_structure) = false /\
  exists j d,
    MarshalJSON Sample.mistyped_structure = Ok j /\
    UnmarshalJSON Sample.X j = Ok d /\
    Encoding d = UTF8.replacement /\
    d <> Sample.mistyped_structure.
Proof.
  split; [reflexivity |]. eexists. eexists.
  split; [reflexivity |]. split; [reflexivity |]. split; [reflexivity |].
  discriminate.
Qed.

(** A format configuration goes through the encoding of its map. *)
Example configured_structure_round_trip :
  exists j,
    MarshalJSON Sample.configured_structure = Ok j /\
    UnmarshalJSON Sample.X j = Ok Sample.configured_structure.
Proof. eexists. split; reflexivity. Qed.

(** The same literal bound to an address: the object form has no place
    for the address, and what is decoded has none. *)
Example bound_object_loses_address :
  exists j d,
    MarshalJSON (Assign Sample.X Sample.literal_structure [Some Sample.structure_ref]) = Ok j /\
    UnmarshalJSON Sample.X j = Ok d /\
    Path (Assign Sample.X Sample.literal_structure [Some Sample.structure_ref])
      = Datastore.mkKey "/ipfs/QmStructure" /\
    Path d = Datastore.zero.
Proof.
  eexists. eexists.
  split; [reflexivity |]. split; [reflexivity |]. split; reflexivity.
Qed.

End StructureFacts.

(* --------------------------------------------------------------------- *)
(** ** The heap *)

Module HeapFacts.
Import Dsfs.

Section WithDocuments.
Context {X : Externals} {D : Documents}.

Lemma lookup_alloc_new (h : heap X D) (o : obj X D) :
  snd (alloc h o) !! fst (alloc h o) = Some o.
Proof.
  unfold alloc, heap, loc in *. simpl.
  rewrite lookup_app_r by lia. rewrite Nat.sub_diag. reflexivity.
Qed.

Lemma lookup_alloc_old (h : heap X D) (o : obj X D) (l : loc) :
  (l < length h)%nat -> snd (alloc h o) !! l = h !! l.
Proof.
  unfold alloc, heap, loc in *. simpl. intros Hl.
  apply lookup_app_l. exact Hl.
Qed.

Lemma length_alloc (h : heap X D) (o : obj X D) :
  length (snd (alloc h o)) = S (length h).
Proof. unfold alloc. simpl. rewrite length_app. simpl. lia. Qed.

Lemma fst_alloc (h : heap X D) (o : obj X D) : fst (alloc h o) = length h.
Proof. reflexivity. Qed.

Lemma lookup_write_other (h : heap X D) (l l' : loc) (o : obj X D) :
  l <> l' -> (<[l := o]> h) !! l' = h !! l'.
Proof. unfold heap, loc in *. intros Hne. apply list_lookup_insert_ne. exact Hne. Qed.

Lemma lookup_write_same (h : heap X D) (l : loc) (o : obj X D) :
  (l < length h)%nat -> (<[l := o]> h) !! l = Some o.
Proof. unfold heap, loc in *. intros Hl. apply list_lookup_insert_eq. exact Hl. Qed.

Lemma length_write (h : heap X D) (l : loc) (o : obj X D) :
  length (<[l := o]> h) = length h.
Proof. unfold heap, loc in *. apply length_insert. Qed.

End WithDocuments.
End HeapFacts.

(* --------------------------------------------------------------------- *)
(** ** The load engine *)

Module LoadFacts.
Import Dsfs HeapFacts.

Section WithCollaborators.
Variable X : Externals.
Variable D : Documents.
Variable C : Collaborators X D.

(** Merging a bare reference into a dataset binds the address and leaves
    the other fields the code names as they are. *)
Lemma assign_ref_binds (h : heap X D) (ds ref : loc) (d : Dataset D) (key : Datastore.Key) :
  ds <> ref ->
  h !! ds = Some (ODataset X d) ->
  h !! ref = Some (ODataset X (NewDatasetRef D key)) ->
  exists d',
    deref (@as_dataset X D) (Dataset_Assign h ds [Some ref]) ds = Some d' /\
    ds_path d' = (if key_bound key then key else ds_path d) /\
    BodyPath d' = BodyPath d /\
    PreviousPath d' = PreviousPath d /\
    Meta d' = Meta d /\
    Structure d' = Structure d /\
    Transform_ d' = Transform_ d /\
    Commit d' = Commit d /\
    Viz_ d' = Viz_ d.
Proof.
  intros Hne Hds Href.
  unfold Dataset_Assign, Dataset_assign1, deref, heap, loc in *. simpl.
  rewrite Href. simpl. rewrite Hds. simpl.
  rewrite list_lookup_insert_eq by (apply lookup_lt_Some in Hds; exact Hds).
  simpl. eexists. split; [reflexivity |]. simpl. repeat split.
Qed.

(** C4, as the code has it.  [LoadDatasetRefs] reads the store once, and
    once more exactly when the first read gave an error or no bytes.
    With the result of the read it keeps (the second, if there was one):
    an error is returned as the get-file-bytes error; bytes, empty or not,
    are decoded, and a decoding failure is returned as the unmarshal
    error; a decoded dataset is returned with its address bound to the
    key it was read from. *)
Theorem load_outcome (store : reads) (h : heap X D) (path : Datastore.Key) :
  let key := PackageKeypath C path PackageFileDataset in
  let r := LoadDatasetRefs C store h path in
  let retried := unusable (store O key) in
  gets r = (if retried then 2%nat else 1%nat) /\
  match (if retried then store 1%nat key else store O key) with
  | Err msg => loaded r = Err (ErrGetFileBytes msg)
  | Ok data =>
      match UnmarshalDataset C data with
      | Err msg => loaded r = Err (ErrUnmarshalFile msg)
      | Ok d =>
          exists l h' d',
            loaded r = Ok (l, h') /\
            deref (@as_dataset X D) h' l = Some d' /\
            ds_path d' = (if key_bound key then key else ds_path d) /\
            BodyPath d' = BodyPath d /\
            PreviousPath d' = PreviousPath d /\
            Meta d' = Meta d /\ Structure d' = Structure d /\
            Transform_ d' = Transform_ d /\ Commit d' = Commit d /\
            Viz_ d' = Viz_ d
      end
  end.
Proof.
  intros key r retried. subst r retried.
  unfold LoadDatasetRefs. fold key.
  assert (Bind : forall d,
            exists d',
              deref (@as_dataset X D)
                (Dataset_Assign
                   (snd (alloc (snd (alloc h (ODataset X d)))
                           (ODataset X (NewDatasetRef D key))))
                   (length h) [Some (length (snd (alloc h (ODataset X d))))])
                (length h) = Some d' /\
              ds_path d' = (if key_bound key then key else ds_path d) /\
              BodyPath d' = BodyPath d /\
              PreviousPath d' = PreviousPath d /\
              Meta d' = Meta d /\ Structure d' = Structure d /\
              Transform_ d' = Transform_ d /\ Commit d' = Commit d /\
              Viz_ d' = Viz_ d).
  { intros d. apply assign_ref_binds.
    - rewrite length_alloc. lia.
    - rewrite lookup_alloc_old by (rewrite length_alloc; lia).
      apply (lookup_alloc_new h (ODataset X d)).
    - apply (lookup_alloc_new (snd (alloc h (ODataset X d)))). }
  destruct (unusable (store O key)); simpl.
  - destruct (store 1%nat key) as [data | msg]; simpl; [| split; reflexivity].
    destruct (UnmarshalDataset C data) as [d | msg]; simpl; [| split; reflexivity].
    split; [reflexivity |].
    destruct (Bind d) as (d' & Hd' & Hrest).
    eexists. eexists. exists d'.
    split; [reflexivity |]. split; [exact Hd' | exact Hrest].
  - destruct (store O key) as [data | msg]; simpl; [| split; reflexivity].
    destruct (UnmarshalDataset C data) as [d | msg]; simpl; [| split; reflexivity].
    split; [reflexivity |].
    destruct (Bind d) as (d' & Hd' & Hrest).
    eexists. eexists. exists d'.
    split; [reflexivity |]. split; [exact Hd' | exact Hrest].
Qed.

End WithCollaborators.

(** C4, as the claim has it, fails: when both reads give no bytes and no
    error, the call does not fail with the get-file-bytes error; it
    decodes the empty input and fails with the unmarshal error. *)
Lemma empty_reads_fail_at_decoding :
  gets (LoadDatasetRefs SampleStore.C SampleStore.always_empty [] SampleStore.top_key) = 2%nat /\
  loaded (LoadDatasetRefs SampleStore.C SampleStore.always_empty [] SampleStore.top_key)
  = Err (ErrUnmarshalFile "unexpected end of JSON input") /\
  (forall msg,
     loaded (LoadDatasetRefs SampleStore.C SampleStore.always_empty [] SampleStore.top_key)
     <> Err (ErrGetFileBytes msg)).
Proof.
  split; [reflexivity |]. split; [reflexivity |].
  intros msg. discriminate.
Qed.

(** A first read without bytes followed by a good one: two reads, and the
    dataset comes back bound to the key it was read from. *)
Example retry_after_empty_read :
  gets (LoadDatasetRefs SampleStore.C SampleStore.empty_once [] SampleStore.top_key) = 2%nat /\
  exists l h,
    loaded (LoadDatasetRefs SampleStore.C SampleStore.empty_once [] SampleStore.top_key)
    = Ok (l, h) /\
    option_map (@ds_path SampleStore.D) (deref (@as_dataset Sample.X SampleStore.D) h l)
    = Some SampleStore.top_key.
Proof.
  split; [reflexivity |]. eexists. eexists. split; reflexivity.
Qed.

End LoadFacts.

(* --------------------------------------------------------------------- *)
(** ** The write engine: what the loop body does to the batch *)

Module WriteFacts.
Import Dsfs WriteInvariants HeapFacts.

#[local] Arguments count_sites : simpl never.
#[local] Arguments owed : simpl never.
#[local] Arguments adds : simpl never.
#[local] Arguments dones : simpl never.
#[local] Arguments fails : simpl never.
#[local] Arguments wrap64 : simpl never.

Section WithCollaborators.
Context {X : Externals} {D : Documents}.
Variable C : Collaborators X D.

Lemma control_with_heap (h : heap X D) (st : WState X D) :
  control (with_heap h st) = control st.
Proof. reflexivity. Qed.

Lemma control_update_ds (f : Dataset D -> Dataset D) (st : WState X D) :
  control (update_ds f st) = control st.
Proof. unfold update_ds. destruct (the_ds st); reflexivity. Qed.

Lemma control_set_ref (o : obj X D) (set : option loc -> Dataset D -> Dataset D)
    (st : WState X D) :
  control (set_ref o set st) = control st.
Proof. unfold set_ref. simpl. rewrite control_update_ds. reflexivity. Qed.

(** What [switch ao.Name] does to the fields other than the heap: nothing,
    or, on the event of a script, either the addition of the document
    that was waiting for it or an early end with an error. *)
Lemma on_name_control (ao : AddedFile) (st : WState X D) :
  match on_name C ao st with
  | Ok st' =>
      control st' = control st \/
      exists s2 data,
        script_event ao st s2 /\
        control st' = control (AddFile s2 (mkFile (site_name (w_dataFileName st) s2) data) st)
  | Err st' =>
      exists s2 e,
        script_event ao st s2 /\
        (forall msg, e <> ErrClose msg) /\
        control st' = control (with_ret (w_path st, Some e) st)
  end.
Proof.
  unfold on_name.
  destruct (String.eqb_spec (Name ao) PackageFileStructure) as [E1 | E1];
    [left; apply control_set_ref |].
  destruct (String.eqb_spec (Name ao) PackageFileTransform) as [E2 | E2];
    [left; apply control_set_ref |].
  destruct (String.eqb_spec (Name ao) PackageFileMeta) as [E3 | E3];
    [left; apply control_set_ref |].
  destruct (String.eqb_spec (Name ao) PackageFileCommit) as [E4 | E4];
    [left; apply control_set_ref |].
  destruct (String.eqb_spec (Name ao) PackageFileViz) as [E5 | E5];
    [left; apply control_set_ref |].
  destruct (String.eqb_spec (Name ao) (w_dataFileName st)) as [E6 | E6];
    [left; apply control_update_ds |].
  destruct (String.eqb_spec (Name ao) transformScriptFilename) as [E7 | E7].
  { unfold on_transform_script, panic, send_done.
    assert (S : script_event ao st SiteTransform2) by (split; auto).
    destruct (the_ds st) as [ds |];
      [| exists SiteTransform2, ErrNilPointer; split; [exact S | split; [discriminate | reflexivity]]].
    destruct (Transform_ ds) as [l |];
      [| exists SiteTransform2, ErrNilPointer; split; [exact S | split; [discriminate | reflexivity]]].
    destruct (deref _ _ l) as [t |];
      [| exists SiteTransform2, ErrNilPointer; split; [exact S | split; [discriminate | reflexivity]]].
    destruct (marshalTransform C _) as [tfdata | msg].
    - right. exists SiteTransform2, tfdata. split; [exact S | reflexivity].
    - exists SiteTransform2, (ErrJSON msg). split; [exact S | split; [discriminate | reflexivity]]. }
  destruct (String.eqb_spec (Name ao) vizScriptFilename) as [E8 | E8].
  { unfold on_viz_script, panic, send_done.
    assert (S : script_event ao st SiteViz2) by (split; auto).
    destruct (the_ds st) as [ds |];
      [| exists SiteViz2, ErrNilPointer; split; [exact S | split; [discriminate | reflexivity]]].
    destruct (Viz_ ds) as [l |];
      [| exists SiteViz2, ErrNilPointer; split; [exact S | split; [discriminate | reflexivity]]].
    destruct (deref _ _ l) as [v |];
      [| exists SiteViz2, ErrNilPointer; split; [exact S | split; [discriminate | reflexivity]]].
    destruct (marshalViz C _) as [vizdata | msg].
    - right. exists SiteViz2, vizdata. split; [exact S | reflexivity].
    - exists SiteViz2, (ErrJSON msg). split; [exact S | split; [discriminate | reflexivity]]. }
  left. reflexivity.
Qed.

(** Two states with the same fields other than the heap. *)
Lemma control_fields (st st' : WState X D) :
  control st = control st' ->
  w_ds st = w_ds st' /\ w_dataFileName st = w_dataFileName st' /\
  fileTasks st = fileTasks st' /\ addedDataset st = addedDataset st' /\
  w_path st = w_path st' /\ pending st = pending st' /\
  closed st = closed st' /\ log st = log st' /\ ret st = ret st'.
Proof. unfold control. intros H. injection H as -> -> -> -> -> -> -> -> ->. repeat split. Qed.

Ltac same_control H :=
  apply control_fields in H;
  destruct H as (?Eds & ?Edfn & ?Etasks & ?Eadded & ?Epath & ?Epending & ?Eclosed & ?Elog & ?Eret).

(** The invariant does not look at the heap. *)
Lemma invariant_control (st st' : WState X D) :
  control st = control st' -> invariant C st -> invariant C st'.
Proof.
  intros H (Hacc & Hnames & Hphase). same_control H.
  split; [| split].
  - unfold accounted in *. rewrite <- Elog, <- Epending. exact Hacc.
  - unfold names_ok in *. rewrite <- Epending, <- Edfn. exact Hnames.
  - destruct Hphase as [Hb | Ha]; [left | right].
    + destruct Hb as [b1 b2 b3 b4 b5].
      constructor; rewrite <- ?Elog, <- ?Eclosed, <- ?Eadded, <- ?Eret,
                     <- ?Etasks, <- ?Epending; assumption.
    + destruct Ha as [pre f H1 H2 H3 H4 H5 H6 | pre f H1 H2 H3 H4 H5 H6 H7
                     | pre f H1 H2 H3 H4 | pre f p msg H1 H2 H3 H4].
      * apply after_queued with (pre := pre) (f := f); congruence.
      * apply after_finished with (pre := pre) (f := f); congruence.
      * apply after_returned with (pre := pre) (f := f); congruence.
      * apply after_close_failed with (pre := pre) (f := f) (p := p) (msg := msg);
          congruence.
Qed.

(** *** Reading a log that grows *)

Lemma adds_app (l1 l2 : list LogEntry) : adds (l1 ++ l2) = adds l1 ++ adds l2.
Proof. unfold adds. apply omap_app. Qed.

Lemma dones_app (l1 l2 : list LogEntry) : dones (l1 ++ l2) = dones l1 ++ dones l2.
Proof. unfold dones. apply omap_app. Qed.

Lemma fails_app (l1 l2 : list LogEntry) : fails (l1 ++ l2) = fails l1 ++ fails l2.
Proof. unfold fails. apply omap_app. Qed.

Lemma count_sites_app (p : Site -> bool) (l1 l2 : list (Site * File)) :
  count_sites p (l1 ++ l2) = count_sites p l1 + count_sites p l2.
Proof. unfold count_sites. rewrite filter_app, length_app. lia. Qed.

Lemma count_sites_one (p : Site -> bool) (s : Site) (f : File) :
  count_sites p [(s, f)] = if p s then 1 else 0.
Proof.
  unfold count_sites. rewrite filter_cons. simpl.
  destruct (decide (p s = true)) as [E | E].
  - rewrite E. reflexivity.
  - destruct (p s); [congruence | reflexivity].
Qed.

Lemma count_sites_nonneg (p : Site -> bool) (l : list (Site * File)) :
  0 <= count_sites p l.
Proof. unfold count_sites. lia. Qed.

Lemma count_sites_middle (p : Site -> bool) (pre post : list (Site * File)) s f :
  count_sites p (pre ++ (s, f) :: post)
  = count_sites p (pre ++ post) + (if p s then 1 else 0).
Proof.
  change ((s, f) :: post) with ([(s, f)] ++ post).
  rewrite !count_sites_app, count_sites_one. lia.
Qed.

Lemma owed_app (l1 l2 : list LogEntry) : owed (l1 ++ l2) = owed l1 + owed l2.
Proof. unfold owed. rewrite adds_app, !count_sites_app. lia. Qed.

Lemma length_middle {A} (pre post : list A) (x : A) :
  Z.of_nat (length (pre ++ x :: post)) = Z.of_nat (length (pre ++ post)) + 1.
Proof. rewrite !length_app. simpl. lia. Qed.

Lemma in_app_one {A} (x y : A) (l : list A) : In x (l ++ [y]) <-> In x l \/ x = y.
Proof.
  rewrite in_app_iff. simpl. split; intros [H | H]; auto.
  - destruct H as [H | []]. auto.
Qed.

Lemma owed_fail s f : owed [LFail s f] = 0.
Proof. reflexivity. Qed.

Lemma owed_done s f : owed [LDone s f] = 0.
Proof. reflexivity. Qed.

Lemma owed_close : owed [LClose] = 0.
Proof. reflexivity. Qed.

Lemma owed_add s f :
  owed [LAdd s f]
  = (if is_script_site s then 1 else 0) - (if is_second_site s then 1 else 0).
Proof. destruct s; reflexivity. Qed.

(** Moving an addition from the queue to the finished or to the failed
    ones keeps every addition accounted for. *)
Lemma accounted_move (a pre post dn fl : list (Site * File)) (x : Site * File) :
  Permutation a ((pre ++ x :: post) ++ dn ++ fl) ->
  Permutation a ((pre ++ post) ++ (dn ++ [x]) ++ fl) /\
  Permutation a ((pre ++ post) ++ dn ++ (fl ++ [x])).
Proof.
  intros H.
  assert (E1 : (pre ++ x :: post) ++ dn ++ fl = pre ++ x :: (post ++ dn ++ fl))
    by (rewrite <- app_assoc; reflexivity).
  assert (E2 : (pre ++ post) ++ (dn ++ [x]) ++ fl = (pre ++ post ++ dn) ++ x :: fl)
    by (rewrite <- !app_assoc; reflexivity).
  assert (E3 : (pre ++ post) ++ dn ++ fl ++ [x] = (pre ++ post ++ dn ++ fl) ++ [x])
    by (rewrite <- !app_assoc; reflexivity).
  rewrite E1 in H. rewrite <- Permutation_middle in H.
  split; rewrite H.
  - rewrite E2. rewrite <- Permutation_middle. rewrite <- !app_assoc. reflexivity.
  - rewrite E3. rewrite <- Permutation_cons_append. reflexivity.
Qed.

(** The event that a script case handles comes from a script site. *)
Lemma script_event_site (dfn name : string) (site s2 : Site) :
  site_name dfn site = name ->
  name <> dfn ->
  (s2 = SiteTransform2 /\ name = transformScriptFilename) \/
  (s2 = SiteViz2 /\ name = vizScriptFilename) ->
  is_script_site site = true /\ is_second_site s2 = true /\
  is_script_site s2 = false /\ is_top_site s2 = false.
Proof.
  intros Hn Hd [[-> ->] | [-> ->]]; destruct site; simpl in *;
    try discriminate; try congruence; auto.
Qed.

Lemma names_ok_sub (st : WState X D) pre post x :
  pending st = pre ++ x :: post ->
  names_ok st ->
  Forall (fun e => FileName (snd e) = site_name (w_dataFileName st) (fst e)) (pre ++ post)
  /\ FileName (snd x) = site_name (w_dataFileName st) (fst x).
Proof.
  unfold names_ok. intros -> H.
  apply Forall_app in H. destruct H as [H1 H2].
  apply Forall_cons in H2. destruct H2 as [H2 H3].
  split; [apply Forall_app; auto | exact H2].
Qed.

(** A failed addition keeps the invariant. *)
Lemma failed_invariant (st : WState X D) site f pre post :
  invariant C st ->
  ret st = None -> closed st = false ->
  pending st = pre ++ (site, f) :: post ->
  invariant C (finish (LFail site f) (pre ++ post) st).
Proof.
  intros (Hacc & Hnames & Hphase) Hret Hclosed Hpend.
  destruct (names_ok_sub st pre post (site, f) Hpend Hnames) as [Hn1 Hn2].
  split; [| split].
  - unfold accounted in *. simpl.
    rewrite adds_app, dones_app, fails_app. simpl. rewrite !app_nil_r.
    rewrite Hpend in Hacc.
    apply (accounted_move _ pre post _ _ (site, f)). exact Hacc.
  - unfold names_ok. simpl. exact Hn1.
  - destruct Hphase as [Hb | Ha].
    + left. destruct Hb as [b1 b2 b3 b4 b5].
      destruct (b4 Hret) as (Hc1 & Hc2 & Hc3).
      constructor; simpl.
      * intros g Hg. apply in_app_one in Hg. destruct Hg as [Hg | Hg]; [| discriminate].
        exact (b1 g Hg).
      * exact b2.
      * exact b3.
      * intros _. rewrite fails_app, owed_app, owed_fail.
        change (fails [LFail site f]) with [(site, f)].
        rewrite length_app. simpl length.
        rewrite Hpend in Hc1, Hc2. rewrite length_middle in Hc1.
        rewrite count_sites_middle in Hc2.
        rewrite !length_app in *. simpl length in *.
        split; [lia |]. split; [| lia].
        destruct (is_script_site site); lia.
      * intros p e He. rewrite Hret in He. discriminate.
    + exfalso. destruct Ha; congruence.
Qed.

(** The end of the event stream keeps the invariant. *)
Lemma end_invariant (st : WState X D) :
  invariant C st ->
  ret st = None -> closed st = true -> pending st = [] ->
  invariant C (with_ret (w_path st, None) st).
Proof.
  intros (Hacc & Hnames & Hphase) Hret Hclosed Hpend.
  split; [exact Hacc | split; [exact Hnames |]].
  destruct Hphase as [Hb | Ha].
  - destruct Hb. congruence.
  - right. destruct Ha as [pre f H1 H2 H3 H4 H5 H6 | pre f H1 H2 H3 H4 H5 H6 H7
                         | pre f H1 H2 H3 H4 | pre f p msg H1 H2 H3 H4];
      try congruence.
    apply after_returned with (pre := pre) (f := f); simpl; congruence.
Qed.

Lemma length_zero_nil {A} (l : list A) : Z.of_nat (length l) = 0 -> l = [].
Proof. destruct l; simpl; [reflexivity | lia]. Qed.

(** [fileTasks--] and the test for zero keep the invariant: the top-level
    document is added when, and only when, nothing is queued, failed or
    owed. *)
Lemma settle_invariant (cerr : option string) (st : WState X D) :
  switched st ->
  invariant C
    (settle
       (let st := with_fileTasks (wrap64 (fileTasks st - 1)) st in
        if fileTasks st =? 0 then on_settled C cerr st else Ok st)).
Proof.
  intros [Hacc Hnames Htop Hclosed Hadded Hret Hcount Hscripts Hbound].
  assert (Hw : wrap64 (fileTasks st - 1) = fileTasks st - 1).
  { apply wrap64_id. unfold in_int, int_min, int_max. lia. }
  cbv zeta. simpl fileTasks. rewrite Hw.
  pose proof (count_sites_nonneg is_script_site (pending st)) as Hs0.
  destruct (Z.eqb_spec (fileTasks st - 1) 0) as [Hz | Hnz].
  - (* the counter has reached zero *)
    assert (Hp : pending st = []) by (apply length_zero_nil; lia).
    assert (Hf : fails (log st) = []) by (apply length_zero_nil; lia).
    assert (Ho : owed (log st) = 0) by lia.
    assert (Hset : settled_log (log st)).
    { split; [| split; [exact Hf | split; [exact Ho | exact Htop]]].
      unfold accounted in Hacc. rewrite Hp, Hf, app_nil_r in Hacc. exact Hacc. }
    unfold on_settled. simpl addedDataset. rewrite Hadded. simpl negb. cbv iota.
    unfold the_ds. simpl w_heap. simpl w_ds.
    destruct (deref _ _ _) as [ds |].
    + destruct (marshalDataset C _ ds) as [dsdata | msg].
      * simpl rbind. unfold Close.
        destruct cerr as [msg |]; simpl settle.
        -- (* Close surfaces an error *)
           split; [| split].
           ++ unfold accounted in *. simpl. rewrite Hp, Hf in *.
              rewrite !adds_app, !dones_app, !fails_app, Hf. simpl.
              change (adds [LAdd SiteDataset (mkFile PackageFileDataset dsdata)])
                with [(SiteDataset, mkFile PackageFileDataset dsdata)].
              change (adds [LClose]) with (@nil (Site * File)).
              change (dones [LAdd SiteDataset (mkFile PackageFileDataset dsdata)])
                with (@nil (Site * File)).
              change (dones [LClose]) with (@nil (Site * File)).
              rewrite !app_nil_r in *. rewrite Hacc. simpl.
              symmetry. apply Permutation_cons_append.
           ++ unfold names_ok. simpl. rewrite Hp. simpl.
              constructor; [reflexivity | constructor].
           ++ right.
              apply after_close_failed
                with (pre := log st) (f := mkFile PackageFileDataset dsdata)
                     (p := w_path st) (msg := msg); simpl.
              ** rewrite <- app_assoc. reflexivity.
              ** exact Hset.
              ** reflexivity.
              ** lia.
        -- (* the batch is closed *)
           split; [| split].
           ++ unfold accounted in *. simpl. rewrite Hp, Hf in *.
              rewrite !adds_app, !dones_app, !fails_app, Hf. simpl.
              change (adds [LAdd SiteDataset (mkFile PackageFileDataset dsdata)])
                with [(SiteDataset, mkFile PackageFileDataset dsdata)].
              change (adds [LClose]) with (@nil (Site * File)).
              change (dones [LAdd SiteDataset (mkFile PackageFileDataset dsdata)])
                with (@nil (Site * File)).
              change (dones [LClose]) with (@nil (Site * File)).
              rewrite !app_nil_r in *. rewrite Hacc. simpl.
              symmetry. apply Permutation_cons_append.
           ++ unfold names_ok. simpl. rewrite Hp. simpl.
              constructor; [reflexivity | constructor].
           ++ right.
              apply after_queued
                with (pre := log st) (f := mkFile PackageFileDataset dsdata); simpl.
              ** rewrite <- app_assoc. reflexivity.
              ** exact Hset.
              ** exact Hret.
              ** reflexivity.
              ** rewrite Hp. reflexivity.
              ** lia.
      * (* the top-level document cannot be encoded *)
        simpl. split; [exact Hacc | split; [exact Hnames |]].
        left. constructor; simpl; try assumption.
        -- intros H. discriminate H.
        -- intros p e H. injection H as <- <-. eexists. split; [reflexivity | discriminate].
    + simpl. split; [exact Hacc | split; [exact Hnames |]].
      left. constructor; simpl; try assumption.
      * intros H. discriminate H.
      * intros p e H. injection H as <- <-. eexists. split; [reflexivity | discriminate].
  - (* the counter is above zero *)
    simpl settle. split; [exact Hacc | split; [exact Hnames |]].
    left. constructor; simpl; try assumption.
    + intros _. pose proof (count_sites_nonneg is_script_site (pending st)).
      split; [lia |]. split; [exact Hscripts | lia].
    + intros p e H. rewrite Hret in H. discriminate.
Qed.

Lemma accounted_add (a p dn fl : list (Site * File)) (x : Site * File) :
  Permutation a (p ++ dn ++ fl) ->
  Permutation (a ++ [x]) ((p ++ [x]) ++ dn ++ fl).
Proof.
  intros H. rewrite H. rewrite <- !app_assoc. apply Permutation_app_head.
  simpl. rewrite (app_assoc dn fl [x]). rewrite <- Permutation_cons_append.
  reflexivity.
Qed.

Lemma accounted_AddFile (st : WState X D) s f :
  accounted st -> accounted (AddFile s f st).
Proof.
  unfold accounted. simpl. intros H.
  rewrite adds_app, dones_app, fails_app.
  change (adds [LAdd s f]) with [(s, f)].
  change (dones [LAdd s f]) with (@nil (Site * File)).
  change (fails [LAdd s f]) with (@nil (Site * File)).
  rewrite !app_nil_r. apply accounted_add. exact H.
Qed.

Lemma names_ok_AddFile (st : WState X D) s f :
  FileName f = site_name (w_dataFileName st) s ->
  names_ok st -> names_ok (AddFile s f st).
Proof.
  unfold names_ok. simpl. intros Hf H.
  apply Forall_app. split; [exact H |]. constructor; [exact Hf | constructor].
Qed.

Lemma switched_control (st st' : WState X D) :
  control st = control st' -> switched st -> switched st'.
Proof.
  intros H [s1 s2 s3 s4 s5 s6 s7 s8 s9]. same_control H.
  constructor; unfold accounted, names_ok in *;
    rewrite <- ?Elog, <- ?Epending, <- ?Edfn, <- ?Eclosed, <- ?Eadded, <- ?Eret, <- ?Etasks;
    assumption.
Qed.

Lemma middle_singleton {A} (pre post : list A) (x y : A) :
  [y] = pre ++ x :: post -> pre = [] /\ post = [] /\ x = y.
Proof.
  destruct pre as [| a pre]; simpl; intros H.
  - injection H as -> <-. auto.
  - injection H as _ H. destruct pre; discriminate.
Qed.

(** A finished addition keeps the invariant. *)
Lemma added_invariant (st : WState X D) site f pre post cerr :
  invariant C st ->
  ret st = None ->
  pending st = pre ++ (site, f) :: post ->
  invariant C
    (settle (on_added C cerr (mkAddedFile (FileName f) (address C f))
               (finish (LDone site f) (pre ++ post) st))).
Proof.
  intros (Hacc & Hnames & Hphase) Hret Hpend.
  destruct (names_ok_sub st pre post (site, f) Hpend Hnames) as [Hn1 Hn2].
  simpl in Hn2.
  unfold on_added.
  set (ao := mkAddedFile (FileName f) (address C f)).
  set (st2 := with_path (AddedPath ao) (finish (LDone site f) (pre ++ post) st)).
  assert (Hacc2 : accounted st2).
  { unfold accounted in *. simpl.
    rewrite adds_app, dones_app, fails_app.
    change (adds [LDone site f]) with (@nil (Site * File)).
    change (fails [LDone site f]) with (@nil (Site * File)).
    change (dones [LDone site f]) with [(site, f)].
    rewrite !app_nil_r. rewrite Hpend in Hacc.
    apply (accounted_move _ pre post _ _ (site, f)). exact Hacc. }
  assert (Hnames2 : names_ok st2) by exact Hn1.
  pose proof (on_name_control ao st2) as Hname.
  destruct Hphase as [Hb | Ha].
  - (* before the top-level document *)
    destruct Hb as [b1 b2 b3 b4 b5]. destruct (b4 Hret) as (Hc1 & Hc2 & Hc3).
    rewrite Hpend in Hc1, Hc2. rewrite length_middle in Hc1.
    rewrite count_sites_middle in Hc2.
    assert (Htop2 : forall g, ~ In (LAdd SiteDataset g) (log st2)).
    { intros g Hg. simpl in Hg. apply in_app_one in Hg.
      destruct Hg as [Hg | Hg]; [exact (b1 g Hg) | discriminate]. }
    assert (Howed2 : owed (log st2) = owed (log st)).
    { simpl. rewrite owed_app, owed_done. lia. }
    assert (Hfails2 : fails (log st2) = fails (log st)).
    { simpl. rewrite fails_app. change (fails [LDone site f]) with (@nil (Site * File)).
      apply app_nil_r. }
    destruct (on_name C ao st2) as [st3 | st3]; simpl rbind.
    + apply settle_invariant.
      destruct Hname as [Hsame | (s2 & data & [Hne Hev] & Hadd)].
      * apply (switched_control st2 st3); [symmetry; exact Hsame |].
        constructor; try assumption.
        -- rewrite Hfails2, Howed2. simpl. lia.
        -- rewrite Howed2. simpl. destruct (is_script_site site); lia.
      * destruct (script_event_site (w_dataFileName st) (FileName f) site s2)
          as (Hsite & Hsec & Hnotscript & Hnottop); [congruence | exact Hne | exact Hev |].
        rewrite Hsite in Hc2.
        apply (switched_control
                 (AddFile s2 (mkFile (site_name (w_dataFileName st2) s2) data) st2) st3);
          [symmetry; exact Hadd |].
        constructor; simpl.
        -- apply accounted_AddFile. exact Hacc2.
        -- apply names_ok_AddFile; [reflexivity | exact Hnames2].
        -- intros g Hg. apply in_app_one in Hg.
           destruct Hg as [Hg | Hg]; [exact (Htop2 g Hg) |].
           injection Hg as Hs _. rewrite <- Hs in Hnottop. discriminate.
        -- exact b2.
        -- exact b3.
        -- exact Hret.
        -- rewrite !fails_app, !owed_app, owed_done, owed_add, Hsec, Hnotscript.
           change (fails [LDone site f]) with (@nil (Site * File)).
           change (fails [LAdd s2 (mkFile (site_name (w_dataFileName st) s2) data)])
             with (@nil (Site * File)).
           rewrite !app_nil_r, !length_app in *. simpl length in *. lia.
        -- rewrite !owed_app, owed_done, owed_add, Hsec, Hnotscript.
           rewrite count_sites_app, count_sites_one, Hnotscript. lia.
        -- exact Hc3.
    + destruct Hname as (s2 & e & Hev & Hne & Hctl).
      simpl settle.
      apply (invariant_control (with_ret (w_path st2, Some e) st2) st3);
        [symmetry; exact Hctl |].
      split; [exact Hacc2 | split; [exact Hnames2 |]].
      left. constructor; simpl; try assumption.
      * intros H. discriminate H.
      * intros p e0 H. injection H as <- <-. exists e. split; [reflexivity | exact Hne].
  - (* after the top-level document: this is its own event *)
    destruct Ha as [pre0 f0 H1 H2 H3 H4 H5 H6 | pre0 f0 H1 H2 H3 H4 H5 H6 H7
                   | pre0 f0 H1 H2 H3 H4 | pre0 f0 p msg H1 H2 H3 H4];
      try congruence.
    + rewrite Hpend in H5. symmetry in H5.
      apply middle_singleton in H5. destruct H5 as (-> & -> & Hx).
      injection Hx as -> ->. simpl in Hn2.
      assert (Hnoscript : forall s2, ~ script_event ao st2 s2).
      { intros s2 [_ [[_ Hs] | [_ Hs]]]; simpl in Hs; rewrite Hn2 in Hs; discriminate Hs. }
      destruct (on_name C ao st2) as [st3 | st3]; simpl rbind.
      * destruct Hname as [Hsame | (s2 & data & Hev & _)];
          [| exfalso; exact (Hnoscript s2 Hev)].
        assert (Hsame' := Hsame). same_control Hsame'.
        cbv zeta. simpl fileTasks. rewrite Etasks. simpl fileTasks. rewrite H6.
        change (wrap64 (0 - 1) =? 0) with false. cbv iota. simpl settle.
        apply (invariant_control (with_fileTasks (-1) st2)).
        { unfold control. simpl. unfold control in Hsame. simpl in Hsame.
          injection Hsame as e1 e2 e3 e4 e5 e6 e7 e8 e9.
          rewrite e1, e2, e4, e5, e6, e7, e8, e9. reflexivity. }
        split; [exact Hacc2 | split; [exact Hnames2 |]].
        right. apply after_finished with (pre := pre0) (f := f0); simpl.
        -- rewrite H1. rewrite <- app_assoc. reflexivity.
        -- exact H2.
        -- exact Hret.
        -- exact H4.
        -- reflexivity.
        -- reflexivity.
        -- reflexivity.
      * destruct Hname as (s2 & e & Hev & _). exfalso. exact (Hnoscript s2 Hev).
    + rewrite Hpend in H5. destruct pre; discriminate H5.
Qed.

(** Every step keeps the invariant. *)
Lemma step_invariant (st st' : WState X D) :
  invariant C st -> step C st st' -> invariant C st'.
Proof.
  intros Hinv Hstep. destruct Hstep as [st site f pre post cerr Hr Hp
                                       | st site f pre post Hr Hc Hp
                                       | st Hr Hc Hp].
  - apply added_invariant; assumption.
  - apply failed_invariant; assumption.
  - apply end_invariant; assumption.
Qed.

(** *** From the first line to the start of the loop *)

Lemma queueing_control lo hi (st st' : WState X D) :
  control st = control st' -> queueing lo hi st -> queueing lo hi st'.
Proof.
  intros H [q1 q2 q3 q4 q5 q6 q7 q8 q9 q10 q11]. same_control H.
  constructor; unfold accounted, names_ok in *;
    rewrite <- ?Elog, <- ?Epending, <- ?Edfn, <- ?Eclosed, <- ?Eadded, <- ?Eret, <- ?Etasks;
    assumption.
Qed.

Lemma queueing_weaken lo hi lo' hi' (st : WState X D) :
  lo' <= lo -> hi <= hi' -> queueing lo hi st -> queueing lo' hi' st.
Proof.
  intros H1 H2 [q1 q2 q3 q4 q5 q6 q7 q8 q9 q10 q11].
  constructor; try assumption; lia.
Qed.

(** An early return with an error other than that of [Close]. *)
Lemma queueing_return lo hi (st : WState X D) (p : Datastore.Key) (e : error) :
  (forall msg, e <> ErrClose msg) ->
  queueing lo hi st ->
  invariant C (with_ret (p, Some e) st).
Proof.
  intros He [q1 q2 q3 q4 q5 q6 q7 q8 q9 q10 q11].
  split; [exact q1 | split; [exact q2 |]].
  left. constructor; simpl; try assumption.
  - intros H. discriminate H.
  - intros p0 e0 H. injection H as <- <-. exists e. split; [reflexivity | exact He].
Qed.

(** The start of the loop. *)
Lemma queueing_start hi (st : WState X D) :
  hi <= 8 -> queueing 1 hi st -> invariant C st.
Proof.
  intros Hhi [q1 q2 q3 q4 q5 q6 q7 q8 q9 q10 q11].
  split; [exact q1 | split; [exact q2 |]].
  left. constructor; try assumption.
  - intros _. rewrite q7. simpl length.
    pose proof (count_sites_nonneg is_script_site (pending st)).
    split; [lia |]. split; [exact q9 | lia].
  - intros p e H. rewrite q6 in H. discriminate.
Qed.

(** [fileTasks++; adder.AddFile(f)] for a document without script. *)
Lemma queueing_add lo hi (st : WState X D) (s : Site) (f : File) :
  FileName f = site_name (w_dataFileName st) s ->
  is_script_site s = false -> is_second_site s = false -> is_top_site s = false ->
  0 <= hi <= 8 ->
  queueing lo hi st ->
  queueing (lo + 1) (hi + 1) (AddFile s f (incrTasks st)).
Proof.
  intros Hf Hs1 Hs2 Hs3 Hhi [q1 q2 q3 q4 q5 q6 q7 q8 q9 q10 q11].
  pose proof (count_sites_nonneg is_script_site (pending st)) as H0.
  assert (Hw : wrap64 (fileTasks st + 1) = fileTasks st + 1).
  { apply wrap64_id. unfold in_int, int_min, int_max. lia. }
  constructor; simpl.
  - apply (accounted_AddFile (incrTasks st)). exact q1.
  - apply (names_ok_AddFile (incrTasks st)); [exact Hf | exact q2].
  - intros g Hg. apply in_app_one in Hg. destruct Hg as [Hg | Hg]; [exact (q3 g Hg) |].
    injection Hg as Hg _. rewrite <- Hg in Hs3. discriminate.
  - exact q4.
  - exact q5.
  - exact q6.
  - rewrite fails_app, q7. reflexivity.
  - rewrite Hw, owed_app, owed_add, Hs1, Hs2, length_app. simpl length. lia.
  - rewrite owed_app, owed_add, Hs1, Hs2, count_sites_app, count_sites_one, Hs1. lia.
  - rewrite length_app. simpl length. lia.
  - rewrite Hw. lia.
Qed.

(** [fileTasks++; adder.AddFile(script); fileTasks++] for a script. *)
Lemma queueing_add_script lo hi (st : WState X D) (s : Site) (f : File) :
  FileName f = site_name (w_dataFileName st) s ->
  is_script_site s = true -> is_second_site s = false -> is_top_site s = false ->
  0 <= hi <= 8 ->
  queueing lo hi st ->
  queueing (lo + 1) (hi + 2) (incrTasks (AddFile s f (incrTasks st))).
Proof.
  intros Hf Hs1 Hs2 Hs3 Hhi [q1 q2 q3 q4 q5 q6 q7 q8 q9 q10 q11].
  pose proof (count_sites_nonneg is_script_site (pending st)) as H0.
  assert (Hw : wrap64 (fileTasks st + 1) = fileTasks st + 1).
  { apply wrap64_id. unfold in_int, int_min, int_max. lia. }
  assert (Hw2 : wrap64 (fileTasks st + 1 + 1) = fileTasks st + 1 + 1).
  { apply wrap64_id. unfold in_int, int_min, int_max. lia. }
  constructor; unfold incrTasks at 1; simpl.
  - apply (accounted_AddFile (incrTasks st)). exact q1.
  - apply (names_ok_AddFile (incrTasks st)); [exact Hf | exact q2].
  - intros g Hg. apply in_app_one in Hg. destruct Hg as [Hg | Hg]; [exact (q3 g Hg) |].
    injection Hg as Hg _. rewrite <- Hg in Hs3. discriminate.
  - exact q4.
  - exact q5.
  - exact q6.
  - rewrite fails_app, q7. reflexivity.
  - rewrite Hw, Hw2, owed_app, owed_add, Hs1, Hs2, length_app. simpl length. lia.
  - rewrite owed_app, owed_add, Hs1, Hs2, count_sites_app, count_sites_one, Hs1. lia.
  - rewrite length_app. simpl length. lia.
  - rewrite Hw, Hw2. lia.
Qed.

Ltac early_return q :=
  simpl; unfold panic, fail; simpl;
  eapply queueing_return; [intros ?; discriminate | exact q].

Lemma add_meta_ok lo hi (st : WState X D) :
  0 <= hi <= 7 -> queueing lo hi st -> block_ok C lo hi 1 (add_meta C st).
Proof.
  intros Hhi q. unfold add_meta, block_ok.
  destruct (the_ds st) as [ds |]; [| early_return q].
  destruct (Meta ds) as [l |]; [| apply (queueing_weaken lo hi); [lia | lia | exact q]].
  destruct (deref _ _ l) as [m |]; [| early_return q].
  destruct (marshalMeta C m) as [data | msg]; [| early_return q].
  apply (queueing_weaken (lo + 1) (hi + 1)); [lia | lia |].
  apply queueing_add; try reflexivity; [lia | exact q].
Qed.

Lemma add_commit_ok lo hi (st : WState X D) :
  0 <= hi <= 7 -> queueing lo hi st -> block_ok C lo hi 1 (add_commit C st).
Proof.
  intros Hhi q. unfold add_commit, block_ok.
  destruct (the_ds st) as [ds |]; [| early_return q].
  destruct (Commit ds) as [l |]; [| apply (queueing_weaken lo hi); [lia | lia | exact q]].
  destruct (deref _ _ l) as [m |]; [| early_return q].
  destruct (marshalCommit C m) as [data | msg]; [| early_return q].
  apply (queueing_weaken (lo + 1) (hi + 1)); [lia | lia |].
  apply queueing_add; try reflexivity; [lia | exact q].
Qed.

Lemma add_structure_ok lo hi (st : WState X D) :
  0 <= hi <= 7 -> queueing lo hi st -> block_ok C lo hi 1 (add_structure C st).
Proof.
  intros Hhi q. unfold add_structure, block_ok.
  destruct (the_ds st) as [ds |]; [| early_return q].
  destruct (Structure ds) as [l |]; [| apply (queueing_weaken lo hi); [lia | lia | exact q]].
  destruct (deref _ _ l) as [m |]; [| early_return q].
  destruct (Structure.MarshalJSON m) as [j | e]; [| early_return q].
  apply (queueing_weaken (lo + 1) (hi + 1)); [lia | lia |].
  apply queueing_add; try reflexivity; [lia | exact q].
Qed.

Lemma add_transform_ok lo hi (st : WState X D) :
  0 <= hi <= 6 -> queueing lo hi st -> block_ok C lo hi 2 (add_transform C st).
Proof.
  intros Hhi q. unfold add_transform, block_ok.
  destruct (the_ds st) as [ds |]; [| early_return q].
  destruct (Transform_ ds) as [l |]; [| apply (queueing_weaken lo hi); [lia | lia | exact q]].
  destruct (deref _ _ l) as [t |]; [| early_return q].
  destruct (first_unbound _) as [key |]; [early_return q |].
  destruct (tf_Script t) as [script |].
  - apply (queueing_weaken (lo + 1) (hi + 2)); [lia | lia |].
    apply queueing_add_script; try reflexivity; [lia | exact q].
  - destruct (marshalTransform C t) as [data | msg]; [| early_return q].
    apply (queueing_weaken (lo + 1) (hi + 1)); [lia | lia |].
    apply queueing_add; try reflexivity; [lia | exact q].
Qed.

Lemma add_viz_ok lo hi (st : WState X D) :
  0 <= hi <= 6 -> queueing lo hi st -> block_ok C lo hi 2 (add_viz C st).
Proof.
  intros Hhi q. unfold add_viz, block_ok.
  destruct (the_ds st) as [ds |]; [| early_return q].
  destruct (Viz_ ds) as [l |]; [| apply (queueing_weaken lo hi); [lia | lia | exact q]].
  destruct (deref _ _ l) as [v |]; [| early_return q].
  destruct (viz_Script v) as [script |].
  - apply (queueing_weaken (lo + 1) (hi + 2)); [lia | lia |].
    apply queueing_add_script; try reflexivity; [lia | exact q].
  - destruct (marshalViz C v) as [data | msg]; [| early_return q].
    apply (queueing_weaken (lo + 1) (hi + 1)); [lia | lia |].
    apply queueing_add; try reflexivity; [lia | exact q].
Qed.

Lemma NewAdder_ok lo hi (nerr : option string) (pin : bool) (st : WState X D) :
  queueing lo hi st -> block_ok C lo hi 0 (NewAdder nerr pin st).
Proof.
  intros q. unfold NewAdder, block_ok.
  destruct nerr as [msg |]; [early_return q |].
  destruct q as [q1 q2 q3 q4 q5 q6 q7 q8 q9 q10 q11].
  constructor; simpl; try assumption.
  - unfold accounted in *. simpl. rewrite adds_app, dones_app, fails_app.
    change (adds [LNewAdder pin true]) with (@nil (Site * File)).
    change (dones [LNewAdder pin true]) with (@nil (Site * File)).
    change (fails [LNewAdder pin true]) with (@nil (Site * File)).
    rewrite !app_nil_r. exact q1.
  - intros g Hg. apply in_app_one in Hg. destruct Hg as [Hg | Hg]; [exact (q3 g Hg) |].
    discriminate.
  - rewrite fails_app, q7. reflexivity.
  - rewrite owed_app. change (owed [LNewAdder pin true]) with 0. lia.
  - rewrite owed_app. change (owed [LNewAdder pin true]) with 0. lia.
  - lia.
Qed.

Lemma NewAdder_dfn (nerr : option string) (pin : bool) (st st' : WState X D) :
  NewAdder nerr pin st = Ok st' -> w_dataFileName st' = w_dataFileName st.
Proof.
  unfold NewAdder, fail. destruct nerr; [discriminate |].
  intros H. injection H as <-. reflexivity.
Qed.

Lemma add_meta_dfn (st st' : WState X D) :
  add_meta C st = Ok st' -> w_dataFileName st' = w_dataFileName st.
Proof.
  unfold add_meta, panic, fail.
  destruct (the_ds st) as [ds |]; [| discriminate].
  destruct (Meta ds) as [l |]; [| intros H; injection H as <-; reflexivity].
  destruct (deref _ _ l) as [m |]; [| discriminate].
  destruct (marshalMeta C m) as [data | msg]; [| discriminate].
  intros H. injection H as <-. reflexivity.
Qed.

(** The straight-line part of [WriteDataset] ends in a state that
    satisfies the invariant, whether it returns early or starts the
    loop. *)
Lemma begin_invariant (nerr : option string) (h : heap X D) (ds : option loc)
    (dataFile : File) (pin : bool) :
  invariant C (settle (WriteDataset_begin C nerr h ds dataFile pin)).
Proof.
  unfold WriteDataset_begin.
  destruct (alloc h (ODataset X (Dataset_zero D))) as [cp h1].
  set (st0 := mkWState (Dataset_Assign h1 cp [ds]) cp (FileName dataFile) 0 false
                Datastore.zero [] false [] None).
  assert (q0 : queueing 0 0 st0).
  { constructor; simpl; try reflexivity; try lia.
    - unfold accounted. simpl. reflexivity.
    - unfold names_ok. simpl. constructor. }
  destruct (the_ds st0) as [d |]; [| early_return q0].
  destruct (Dataset_IsEmpty d); [early_return q0 |].
  pose proof (NewAdder_ok 0 0 nerr pin st0 q0) as H1. unfold block_ok in H1.
  pose proof (NewAdder_dfn nerr pin st0) as D1.
  destruct (NewAdder nerr pin st0) as [st1 | st1]; simpl rbind; [| exact H1].
  specialize (D1 st1 eq_refl).
  pose proof (add_meta_ok 0 (0 + 0) st1 ltac:(lia) H1) as H2. unfold block_ok in H2.
  pose proof (add_meta_dfn st1) as D2.
  destruct (add_meta C st1) as [st2 | st2]; simpl rbind; [| exact H2].
  specialize (D2 st2 eq_refl).
  assert (H3 : queueing 1 2 (AddFile SiteBody dataFile (incrTasks st2))).
  { apply (queueing_weaken (0 + 1) (0 + 0 + 1 + 1)); [lia | lia |].
    apply queueing_add; try reflexivity; [| lia | exact H2].
    simpl. rewrite D2, D1. reflexivity. }
  pose proof (add_transform_ok 1 2 _ ltac:(lia) H3) as H4. unfold block_ok in H4.
  destruct (add_transform C _) as [st4 | st4]; simpl rbind; [| exact H4].
  pose proof (add_commit_ok 1 (2 + 2) _ ltac:(lia) H4) as H5. unfold block_ok in H5.
  destruct (add_commit C _) as [st5 | st5]; simpl rbind; [| exact H5].
  pose proof (add_structure_ok 1 (2 + 2 + 1) _ ltac:(lia) H5) as H6. unfold block_ok in H6.
  destruct (add_structure C _) as [st6 | st6]; simpl rbind; [| exact H6].
  pose proof (add_viz_ok 1 (2 + 2 + 1 + 1) _ ltac:(lia) H6) as H7. unfold block_ok in H7.
  destruct (add_viz C _) as [st7 | st7]; simpl rbind; [| exact H7].
  simpl settle. apply (queueing_start (2 + 2 + 1 + 1 + 2)); [| exact H7].
  lia.
Qed.

(** Every state of a call satisfies the invariant. *)
Lemma reachable_invariant nerr (h : heap X D) ds dataFile pin (st : WState X D) :
  reachable C nerr h ds dataFile pin st -> invariant C st.
Proof.
  unfold reachable. intros H.
  apply (@rtc_ind_r _ (step C) (fun st => invariant C st)
           (settle (WriteDataset_begin C nerr h ds dataFile pin))); [| | exact H].
  - apply begin_invariant.
  - intros st1 st2 _ Hstep IH. exact (step_invariant st1 st2 IH Hstep).
Qed.

(** A run along a schedule is a run of the step relation. *)
Lemma exec1_step (c : Choice) (st st' : WState X D) :
  exec1 C c st = Some st' -> step C st st'.
Proof.
  unfold exec1. destruct (ret st) eqn:Hret; [discriminate |].
  destruct c as [i cerr | i |].
  - destruct (pending st !! i) as [[site f] |] eqn:Hi; [| discriminate].
    intros H. injection H as <-.
    apply step_added; [exact Hret |].
    symmetry. apply take_drop_middle. exact Hi.
  - destruct (closed st) eqn:Hc; [discriminate |].
    destruct (pending st !! i) as [[site f] |] eqn:Hi; [| discriminate].
    intros H. injection H as <-.
    apply step_failed; [exact Hret | exact Hc |].
    symmetry. apply take_drop_middle. exact Hi.
  - destruct (closed st) eqn:Hc; [| discriminate].
    destruct (pending st) eqn:Hp; [| discriminate].
    intros H. injection H as <-.
    apply step_end; assumption.
Qed.

Lemma exec_steps (cs : list Choice) (st st' : WState X D) :
  exec C cs st = Some st' -> rtc (step C) st st'.
Proof.
  revert st. induction cs as [| c cs IH]; simpl; intros st H.
  - injection H as <-. apply rtc_refl.
  - destruct (exec1 C c st) as [st1 |] eqn:H1; [| discriminate].
    eapply rtc_l; [apply (exec1_step c); exact H1 | apply IH; exact H].
Qed.

Lemma run_to_steps (cs : list Choice) (st : WState X D) :
  rtc (step C) st (run_to C cs st).
Proof.
  revert st. induction cs as [| c cs IH]; simpl; intros st; [apply rtc_refl |].
  destruct (exec1 C c st) as [st1 |] eqn:H1; [| apply rtc_refl].
  eapply rtc_l; [apply (exec1_step c); exact H1 | apply IH].
Qed.

Lemma not_in_settled pre f : settled_log pre -> ~ In (LAdd SiteDataset f) pre.
Proof. intros (_ & _ & _ & H). apply H. Qed.

(** C3.  In every state a call of [WriteDataset] goes through:
    - if the top-level document has been added, the log up to that
      addition is settled (every earlier addition has finished, none has
      failed, every script has had its document added after it), nothing
      has failed since, and the counter is at zero or below;
    - while the call runs and the top-level document has not been added,
      the counter is above zero;
    - a return without error returns the address the store gave the
      top-level document, which has been added and has finished;
    - a return with an error other than that of [Close] has not added the
      top-level document, and neither has a call in which an addition
      failed. *)
Theorem top_level_document_is_added_last
    nerr (h : heap X D) ds dataFile pin (st : WState X D) :
  reachable C nerr h ds dataFile pin st ->
  (forall f, In (LAdd SiteDataset f) (log st) ->
     exists pre post,
       log st = pre ++ LAdd SiteDataset f :: post /\
       settled_log pre /\ fails (log st) = [] /\ fileTasks st <= 0) /\
  (ret st = None -> (forall f, ~ In (LAdd SiteDataset f) (log st)) -> 1 <= fileTasks st) /\
  (forall p, ret st = Some (p, None) ->
     exists f, In (LAdd SiteDataset f) (log st) /\ In (LDone SiteDataset f) (log st) /\
               p = address C f) /\
  (forall p e, ret st = Some (p, Some e) -> (forall msg, e <> ErrClose msg) ->
     forall f, ~ In (LAdd SiteDataset f) (log st)) /\
  (fails (log st) <> [] -> forall f, ~ In (LAdd SiteDataset f) (log st)).
Proof.
  intros Hreach.
  destruct (reachable_invariant _ _ _ _ _ _ Hreach) as (Hacc & Hnames & Hphase).
  assert (Hafter : after C st ->
            exists pre f post,
              log st = pre ++ LAdd SiteDataset f :: post /\ settled_log pre /\
              fails post = [] /\ fileTasks st <= 0 /\
              (forall g, In (LAdd SiteDataset g) post -> False) /\
              (forall p, ret st = Some (p, None) ->
                         In (LDone SiteDataset f) post /\ p = address C f) /\
              (forall p e, ret st = Some (p, Some e) -> exists msg, e = ErrClose msg)).
  { intros [pre f H1 H2 H3 H4 H5 H6 | pre f H1 H2 H3 H4 H5 H6 H7
           | pre f H1 H2 H3 H4 | pre f p msg H1 H2 H3 H4].
    - exists pre, f, [LClose].
      refine (conj H1 (conj H2 (conj eq_refl (conj _ (conj _ (conj _ _)))))).
      + lia.
      + intros g [Hg | []]. discriminate.
      + intros p Hp. congruence.
      + intros p e Hp. congruence.
    - exists pre, f, [LClose; LDone SiteDataset f].
      refine (conj H1 (conj H2 (conj eq_refl (conj _ (conj _ (conj _ _)))))).
      + lia.
      + intros g [Hg | [Hg | []]]; discriminate.
      + intros p Hp. congruence.
      + intros p e Hp. congruence.
    - exists pre, f, [LClose; LDone SiteDataset f].
      refine (conj H1 (conj H2 (conj eq_refl (conj _ (conj _ (conj _ _)))))).
      + lia.
      + intros g [Hg | [Hg | []]]; discriminate.
      + intros p Hp. split; [right; left; reflexivity | congruence].
      + intros p e Hp. congruence.
    - exists pre, f, [LClose].
      refine (conj H1 (conj H2 (conj eq_refl (conj _ (conj _ (conj _ _)))))).
      + lia.
      + intros g [Hg | []]. discriminate.
      + intros p0 Hp. congruence.
      + intros p0 e Hp. exists msg. congruence. }
  assert (Htop : forall f, In (LAdd SiteDataset f) (log st) ->
            exists pre post,
              log st = pre ++ LAdd SiteDataset f :: post /\
              settled_log pre /\ fails (log st) = [] /\ fileTasks st <= 0).
  { intros f Hf. destruct Hphase as [Hb | Ha].
    - destruct Hb as [b1 _ _ _ _]. exfalso. exact (b1 f Hf).
    - destruct (Hafter Ha) as (pre & f0 & post & Hlog & Hset & Hfl & Hft & Hpost & _).
      rewrite Hlog in Hf. apply in_app_iff in Hf. destruct Hf as [Hf | [Hf | Hf]].
      + exfalso. exact (not_in_settled pre f Hset Hf).
      + injection Hf as <-. exists pre, post.
        refine (conj Hlog (conj Hset (conj _ Hft))).
        * rewrite Hlog. rewrite fails_app.
          change (LAdd SiteDataset f0 :: post) with ([LAdd SiteDataset f0] ++ post).
          rewrite fails_app, Hfl.
          destruct Hset as (_ & -> & _). reflexivity.
      + exfalso. exact (Hpost f Hf). }
  split; [exact Htop |]. split; [| split; [| split]].
  - intros Hret Hno. destruct Hphase as [Hb | Ha].
    + destruct Hb as [_ _ _ b4 _]. destruct (b4 Hret) as (_ & _ & Hb). lia.
    + destruct (Hafter Ha) as (pre & f0 & post & Hlog & _).
      exfalso. apply (Hno f0). rewrite Hlog. apply in_app_iff. right. left. reflexivity.
  - intros p Hp. destruct Hphase as [Hb | Ha].
    + destruct Hb as [_ _ _ _ b5]. destruct (b5 p None Hp) as (e' & He & _). discriminate.
    + destruct (Hafter Ha) as (pre & f0 & post & Hlog & _ & _ & _ & _ & Hok & _).
      destruct (Hok p Hp) as [Hdone ->].
      exists f0. rewrite Hlog. split; [| split; [| reflexivity]].
      * apply in_app_iff. right. left. reflexivity.
      * apply in_app_iff. right. right. exact Hdone.
  - intros p e Hp Hne f Hf. destruct Hphase as [Hb | Ha].
    + destruct Hb as [b1 _ _ _ _]. exact (b1 f Hf).
    + destruct (Hafter Ha) as (pre & f0 & post & _ & _ & _ & _ & _ & _ & Herr).
      destruct (Herr p e Hp) as [msg Hmsg].
      exact (Hne msg Hmsg).
  - intros Hfails f Hf. destruct (Htop f Hf) as (_ & _ & _ & _ & Hnone & _).
    exact (Hfails Hnone).
Qed.

End WithCollaborators.

(** The sample call, with the store finishing the additions in order,
    goes through states of [WriteDataset]. *)
Lemma written_is_reachable :
  reachable SampleStore.C None SampleStore.caller_heap SampleStore.caller_ds
    SampleStore.body_file true SampleStore.written.
Proof. apply run_to_steps. Qed.

Lemma top_level_document_is_added_last_witness :
  reachable SampleStore.C None SampleStore.caller_heap SampleStore.caller_ds
    SampleStore.body_file true SampleStore.written /\
  exists f,
    In (LAdd SiteDataset f) (log SampleStore.written) /\
    In (LDone SiteDataset f) (log SampleStore.written) /\
    Datastore.mkKey "/mem/dataset.json/dataset:/mem/body.csv/a,b"
    = address SampleStore.C f.
Proof.
  split; [exact written_is_reachable |].
  destruct (top_level_document_is_added_last SampleStore.C None SampleStore.caller_heap
              SampleStore.caller_ds SampleStore.body_file true SampleStore.written
              written_is_reachable) as (_ & _ & Hret & _).
  apply Hret. vm_compute. reflexivity.
Defined.

End WriteFacts.

(* --------------------------------------------------------------------- *)
(** ** The write engine: what it writes to *)

Module FrameFacts.
Import Dsfs WriteInvariants HeapFacts.

Section WithCollaborators.
Context {X : Externals} {D : Documents}.
Variable C : Collaborators X D.

Lemma script_path_apart_refl (o : obj X D) : script_path_apart o o.
Proof. left. reflexivity. Qed.

Lemma apart_transform (o : obj X D) (t : Transform D) (p : string) :
  script_path_apart o (OTransform X t) ->
  script_path_apart o (OTransform X (set_tf_ScriptPath p t)).
Proof.
  intros [E | [(t0 & p0 & E1 & E2) | (v & p0 & E1 & E2)]].
  - right. left. exists t, p. split; [symmetry; exact E | reflexivity].
  - right. left. exists t0, p. split; [exact E1 |].
    injection E2 as ->. reflexivity.
  - discriminate E2.
Qed.

Lemma apart_viz (o : obj X D) (v : Viz D) (p : string) :
  script_path_apart o (OViz X v) ->
  script_path_apart o (OViz X (set_viz_ScriptPath p v)).
Proof.
  intros [E | [(t0 & p0 & E1 & E2) | (v0 & p0 & E1 & E2)]].
  - right. right. exists v, p. split; [symmetry; exact E | reflexivity].
  - discriminate E2.
  - right. right. exists v0, p. split; [exact E1 |].
    injection E2 as ->. reflexivity.
Qed.

Lemma lookup_lt (h : heap X D) (l : loc) (o : obj X D) :
  h !! l = Some o -> (l < length h)%nat.
Proof. unfold heap, loc in *. apply lookup_lt_Some. Qed.

(** Merging into a nil slot copies the pointer, and writes nothing. *)
Lemma assign_slot_nil {T} (inj : T -> obj X D) (proj : obj X D -> option T)
    (merge : T -> T -> T) (h : heap X D) (theirs : option loc) :
  assign_slot inj proj merge h None theirs = (h, slot_of proj h theirs).
Proof.
  unfold assign_slot, slot_of.
  destruct theirs as [l2 |]; [| reflexivity].
  destruct (deref proj h l2); reflexivity.
Qed.

(** Merging a dataset into a zero dataset writes the copy of the
    argument over the zero dataset, and nothing else. *)
Lemma Dataset_assign1_zero (h : heap X D) (l : loc) (d : Dataset D) :
  deref (@as_dataset X D) h l = Some (Dataset_zero D) ->
  Dataset_assign1 h l d = <[l := ODataset X (copy_of h d)]> h.
Proof.
  intros Hz. unfold Dataset_assign1. rewrite Hz. simpl.
  rewrite !assign_slot_nil. reflexivity.
Qed.

(** The heap the call starts with: the caller's heap, and after it the
    copy the local [ds] points to. *)
Lemma copy_heap (h : heap X D) (ds : option loc) :
  let h1 := snd (alloc h (ODataset X (Dataset_zero D))) in
  Dataset_Assign h1 (length h) [ds] = h1 \/
  exists d, Dataset_Assign h1 (length h) [ds]
            = <[length h := ODataset X (copy_of h1 d)]> h1.
Proof.
  intros h1. unfold Dataset_Assign. simpl.
  destruct ds as [l2 |]; [| left; reflexivity].
  destruct (deref (@as_dataset X D) h1 l2) as [d |]; [| left; reflexivity].
  right. exists d. apply Dataset_assign1_zero.
  unfold deref, h1. pose proof (lookup_alloc_new h (ODataset X (Dataset_zero D))) as E.
  rewrite fst_alloc in E. rewrite E. reflexivity.
Qed.

(** *** The invariant of the heap *)

Lemma shared_same (h0 : heap X D) (st st' : WState X D) :
  w_heap st' = w_heap st -> w_ds st' = w_ds st -> shared h0 st -> shared h0 st'.
Proof.
  intros Hh Hd [f1 f2]. constructor.
  - rewrite Hh. exact f1.
  - rewrite Hd. exact f2.
Qed.

Lemma shared_write_ds (h0 : heap X D) (o : obj X D) (st : WState X D) :
  shared h0 st -> shared h0 (with_heap (<[w_ds st := o]> (w_heap st)) st).
Proof.
  intros [f1 f2]. constructor; simpl; [| exact f2].
  intros l o0 Hl. pose proof (lookup_lt h0 l o0 Hl) as Llt.
  rewrite lookup_write_other by lia. apply f1. exact Hl.
Qed.

Lemma shared_update_ds (h0 : heap X D) (f : Dataset D -> Dataset D) (st : WState X D) :
  shared h0 st -> shared h0 (update_ds f st).
Proof.
  intros Hsh. unfold update_ds.
  destruct (the_ds st) as [d |]; [| exact Hsh].
  apply shared_write_ds. exact Hsh.
Qed.

Lemma shared_alloc (h0 : heap X D) (o : obj X D) (st : WState X D) :
  shared h0 st -> shared h0 (with_heap (snd (alloc (w_heap st) o)) st).
Proof.
  intros [f1 f2]. constructor; simpl; [| exact f2].
  intros l o0 Hl. destruct (f1 l o0 Hl) as (o' & Ho' & Ha).
  exists o'. split; [| exact Ha].
  pose proof (lookup_alloc_old (w_heap st) o l (lookup_lt _ _ _ Ho')) as E.
  etransitivity; [exact E | exact Ho'].
Qed.

Lemma shared_set_ref (h0 : heap X D) (o : obj X D)
    (set : option loc -> Dataset D -> Dataset D) (st : WState X D) :
  shared h0 st -> shared h0 (set_ref o set st).
Proof.
  intros Hsh. unfold set_ref.
  change (alloc (w_heap st) o) with (length (w_heap st), snd (alloc (w_heap st) o)).
  cbv iota beta.
  apply shared_update_ds. apply shared_alloc. exact Hsh.
Qed.

(** Writing a script path through a slot of the local [ds]: the object
    written to may be one of the caller's, and only its script path
    changes. *)
Lemma shared_write_script {T} (proj : obj X D -> option T) (inj : T -> obj X D)
    (set : T -> T) (h0 : heap X D) (st : WState X D) (l : loc) (v : T) :
  (forall o, proj o = Some v -> o = inj v) ->
  (forall o, script_path_apart o (inj v) -> script_path_apart o (inj (set v))) ->
  deref proj (w_heap st) l = Some v ->
  shared h0 st ->
  shared h0 (with_heap (<[l := inj (set v)]> (w_heap st)) st).
Proof.
  intros Hinj Hset Hv [f1 f2]. constructor; simpl; [| exact f2].
  intros l0 o0 Hl0. destruct (f1 l0 o0 Hl0) as (o' & Ho' & Ha).
  destruct (Nat.eq_dec l l0) as [-> | Hne].
  - exists (inj (set v)). split.
    + apply lookup_write_same. apply (lookup_lt _ _ _ Ho').
    + apply Hset. unfold deref in Hv. unfold heap, loc in *. rewrite Ho' in Hv.
      rewrite <- (Hinj o' Hv). exact Ha.
  - exists o'. split; [| exact Ha].
    rewrite lookup_write_other by exact Hne. exact Ho'.
Qed.

Ltac same_heap H :=
  match type of H with
  | shared ?h0 ?st => apply (shared_same h0 st); [reflexivity | reflexivity | exact H]
  end.

Lemma shared_on_transform_script (h0 : heap X D) (ao : AddedFile) (st : WState X D) :
  shared h0 st -> shared h0 (settle (on_transform_script C ao st)).
Proof.
  intros Hsh. unfold on_transform_script, panic, send_done.
  destruct (the_ds st) as [ds |] eqn:Hds; [| same_heap Hsh].
  destruct (Transform_ ds) as [l |] eqn:Hl; [| same_heap Hsh].
  destruct (deref (@as_transform X D) (w_heap st) l) as [t |] eqn:Ht; [| same_heap Hsh].
  assert (Hsh' : shared h0
            (with_heap (<[l := OTransform X
                                  (set_tf_ScriptPath (Datastore.String (AddedPath ao)) t)]>
                          (w_heap st)) st)).
  { apply (shared_write_script (@as_transform X D) (@OTransform X D)
             (set_tf_ScriptPath (Datastore.String (AddedPath ao))) h0 st l t);
      try assumption.
    - intros o Ho. destruct o; try discriminate. injection Ho as ->. reflexivity.
    - intros o. apply apart_transform. }
  destruct (marshalTransform C _) as [tfdata | msg]; simpl;
    same_heap Hsh'.
Qed.

Lemma shared_on_viz_script (h0 : heap X D) (ao : AddedFile) (st : WState X D) :
  shared h0 st -> shared h0 (settle (on_viz_script C ao st)).
Proof.
  intros Hsh. unfold on_viz_script, panic, send_done.
  destruct (the_ds st) as [ds |] eqn:Hds; [| same_heap Hsh].
  destruct (Viz_ ds) as [l |] eqn:Hl; [| same_heap Hsh].
  destruct (deref (@as_viz X D) (w_heap st) l) as [v |] eqn:Hv; [| same_heap Hsh].
  assert (Hsh' : shared h0
            (with_heap (<[l := OViz X
                                  (set_viz_ScriptPath (Datastore.String (AddedPath ao)) v)]>
                          (w_heap st)) st)).
  { apply (shared_write_script (@as_viz X D) (@OViz X D)
             (set_viz_ScriptPath (Datastore.String (AddedPath ao))) h0 st l v);
      try assumption.
    - intros o Ho. destruct o; try discriminate. injection Ho as ->. reflexivity.
    - intros o. apply apart_viz. }
  destruct (marshalViz C _) as [vizdata | msg]; simpl;
    same_heap Hsh'.
Qed.

Lemma shared_on_name (h0 : heap X D) (ao : AddedFile) (st : WState X D) :
  shared h0 st -> shared h0 (settle (on_name C ao st)).
Proof.
  intros Hsh. unfold on_name.
  destruct (String.eqb (Name ao) PackageFileStructure).
  { simpl. apply shared_set_ref. exact Hsh. }
  destruct (String.eqb (Name ao) PackageFileTransform).
  { simpl. apply shared_set_ref. exact Hsh. }
  destruct (String.eqb (Name ao) PackageFileMeta).
  { simpl. apply shared_set_ref. exact Hsh. }
  destruct (String.eqb (Name ao) PackageFileCommit).
  { simpl. apply shared_set_ref. exact Hsh. }
  destruct (String.eqb (Name ao) PackageFileViz).
  { simpl. apply shared_set_ref. exact Hsh. }
  destruct (String.eqb (Name ao) (w_dataFileName st)).
  { simpl. apply shared_update_ds. exact Hsh. }
  destruct (String.eqb (Name ao) transformScriptFilename).
  { apply shared_on_transform_script. exact Hsh. }
  destruct (String.eqb (Name ao) vizScriptFilename).
  { apply shared_on_viz_script. exact Hsh. }
  exact Hsh.
Qed.

Lemma shared_on_settled (h0 : heap X D) (cerr : option string) (st : WState X D) :
  shared h0 st -> shared h0 (settle (on_settled C cerr st)).
Proof.
  intros Hsh. unfold on_settled, panic, send_done, Close.
  destruct (negb (addedDataset st)).
  - destruct (the_ds st) as [ds |]; [| same_heap Hsh].
    destruct (marshalDataset C _ ds) as [dsdata | msg]; [| same_heap Hsh].
    simpl. destruct cerr; simpl; same_heap Hsh.
  - simpl. destruct cerr; simpl; same_heap Hsh.
Qed.

Lemma shared_on_added (h0 : heap X D) (cerr : option string) (ao : AddedFile)
    (st : WState X D) :
  shared h0 st -> shared h0 (settle (on_added C cerr ao st)).
Proof.
  intros Hsh. unfold on_added.
  assert (Hsh0 : shared h0 (with_path (AddedPath ao) st)) by same_heap Hsh.
  pose proof (shared_on_name h0 ao (with_path (AddedPath ao) st) Hsh0) as H.
  destruct (on_name C ao (with_path (AddedPath ao) st)) as [st1 | st1]; simpl in *.
  - destruct (wrap64 (fileTasks st1 - 1) =? 0).
    + apply (shared_on_settled h0 cerr (with_fileTasks (wrap64 (fileTasks st1 - 1)) st1)).
      same_heap H.
    + same_heap H.
  - exact H.
Qed.

Lemma shared_step (h0 : heap X D) (st st' : WState X D) :
  shared h0 st -> step C st st' -> shared h0 st'.
Proof.
  intros Hsh Hstep. destruct Hstep as [st site f pre post cerr Hr Hp
                                      | st site f pre post Hr Hc Hp
                                      | st Hr Hc Hp].
  - apply shared_on_added. same_heap Hsh.
  - same_heap Hsh.
  - same_heap Hsh.
Qed.

(** The blocks of the straight-line part do not write to the heap. *)
Lemma blocks_keep_heap (st : WState X D) :
  (forall nerr pin, w_heap (settle (NewAdder nerr pin st)) = w_heap st /\
                    w_ds (settle (NewAdder nerr pin st)) = w_ds st) /\
  (w_heap (settle (add_meta C st)) = w_heap st /\
   w_ds (settle (add_meta C st)) = w_ds st) /\
  (w_heap (settle (add_transform C st)) = w_heap st /\
   w_ds (settle (add_transform C st)) = w_ds st) /\
  (w_heap (settle (add_commit C st)) = w_heap st /\
   w_ds (settle (add_commit C st)) = w_ds st) /\
  (w_heap (settle (add_structure C st)) = w_heap st /\
   w_ds (settle (add_structure C st)) = w_ds st) /\
  (w_heap (settle (add_viz C st)) = w_heap st /\
   w_ds (settle (add_viz C st)) = w_ds st).
Proof.
  unfold NewAdder, add_meta, add_transform, add_commit, add_structure, add_viz,
    panic, fail.
  repeat split;
    repeat match goal with
           | |- context [match ?x with _ => _ end] => destruct x
           end; reflexivity.
Qed.

Lemma shared_block (h0 : heap X D) (st : WState X D)
    (r : result (WState X D) (WState X D)) :
  w_heap (settle r) = w_heap st /\ w_ds (settle r) = w_ds st ->
  shared h0 st ->
  match r with
  | Ok st' => shared h0 st'
  | Err st' => shared h0 st'
  end.
Proof.
  intros [Hh Hd] Hsh. destruct r as [st' | st']; simpl in *;
    apply (shared_same h0 st st'); assumption.
Qed.

(** The straight-line part of [WriteDataset] leaves the caller's heap as
    it is. *)
Lemma shared_begin (nerr : option string) (h : heap X D) (ds : option loc)
    (dataFile : File) (pin : bool) :
  shared h (settle (WriteDataset_begin C nerr h ds dataFile pin)).
Proof.
  unfold WriteDataset_begin.
  pose proof (copy_heap h ds) as Hcopy.
  change (alloc h (ODataset X (Dataset_zero D)))
    with (length h, snd (alloc h (ODataset X (Dataset_zero D)))).
  cbv iota beta.
  set (h1 := snd (alloc h (ODataset X (Dataset_zero D)))) in *.
  set (st0 := mkWState (Dataset_Assign h1 (length h) [ds]) (length h) (FileName dataFile)
                0 false Datastore.zero [] false [] None).
  assert (F0 : shared h st0).
  { constructor; simpl; [| lia].
    intros l o Hl. exists o. split; [| apply script_path_apart_refl].
    pose proof (lookup_lt h l o Hl) as Llt.
    assert (E1 : h1 !! l = Some o).
    { unfold h1. rewrite lookup_alloc_old by exact Llt. exact Hl. }
    simpl in Hcopy. destruct Hcopy as [-> | [d ->]]; [exact E1 |].
    rewrite lookup_write_other by lia. exact E1. }
  destruct (the_ds st0) as [d |]; [| same_heap F0].
  destruct (Dataset_IsEmpty d); [same_heap F0 |].
  pose proof (shared_block h st0 (NewAdder nerr pin st0)
                (proj1 (blocks_keep_heap st0) nerr pin) F0) as F1.
  destruct (NewAdder nerr pin st0) as [st1 | st1]; simpl rbind; [| exact F1].
  pose proof (shared_block h st1 (add_meta C st1)
                (proj1 (proj2 (blocks_keep_heap st1))) F1) as F2.
  destruct (add_meta C st1) as [st2 | st2]; simpl rbind; [| exact F2].
  set (st3 := AddFile SiteBody dataFile (incrTasks st2)).
  assert (F3 : shared h st3) by (apply (shared_same h st2); [reflexivity .. | exact F2]).
  pose proof (shared_block h st3 (add_transform C st3)
                (proj1 (proj2 (proj2 (blocks_keep_heap st3)))) F3) as F4.
  destruct (add_transform C st3) as [st4 | st4]; simpl rbind; [| exact F4].
  pose proof (shared_block h st4 (add_commit C st4)
                (proj1 (proj2 (proj2 (proj2 (blocks_keep_heap st4))))) F4) as F5.
  destruct (add_commit C st4) as [st5 | st5]; simpl rbind; [| exact F5].
  pose proof (shared_block h st5 (add_structure C st5)
                (proj1 (proj2 (proj2 (proj2 (proj2 (blocks_keep_heap st5)))))) F5) as F6.
  destruct (add_structure C st5) as [st6 | st6]; simpl rbind; [| exact F6].
  pose proof (shared_block h st6 (add_viz C st6)
                (proj2 (proj2 (proj2 (proj2 (proj2 (blocks_keep_heap st6)))))) F6) as F7.
  destruct (add_viz C st6) as [st7 | st7]; simpl rbind; exact F7.
Qed.

(** In every state a call of [WriteDataset] goes through, every object
    of the caller's heap is what it was when the call started, save for
    the script path of a transform or a viz. *)
Lemma caller_objects_keep_all_but_script_paths
    nerr (h : heap X D) ds dataFile pin (st : WState X D) :
  reachable C nerr h ds dataFile pin st ->
  forall (l : loc) (o : obj X D), h !! l = Some o ->
    exists o', w_heap st !! l = Some o' /\ script_path_apart o o'.
Proof.
  intros Hreach.
  assert (Hsh : shared h st).
  { unfold reachable in Hreach.
    apply (@rtc_ind_r _ (step C) (fun st => shared h st)
             (settle (WriteDataset_begin C nerr h ds dataFile pin))); [| | exact Hreach].
    - apply shared_begin.
    - intros st1 st2 _ Hstep IH. exact (shared_step h st1 st2 IH Hstep). }
  destruct Hsh as [F _]. exact F.
Qed.

(** The dataset object the caller passes in is never written to; its
    meta, structure and commit documents are not either. *)
Lemma caller_dataset_object_is_untouched
    nerr (h : heap X D) ds dataFile pin (st : WState X D) :
  reachable C nerr h ds dataFile pin st ->
  forall (l : loc) (o : obj X D), h !! l = Some o ->
    as_transform o = None -> as_viz o = None ->
    w_heap st !! l = Some o.
Proof.
  intros Hreach l o Hl Ht Hv.
  destruct (caller_objects_keep_all_but_script_paths nerr h ds dataFile pin st Hreach l o Hl)
    as (o' & Ho' & [-> | [(t & p & -> & _) | (v & p & -> & _)]]);
    [exact Ho' | discriminate Ht | discriminate Hv].
Qed.

End WithCollaborators.

(** C6.  A dataset whose transform and viz carry a script is written
    with success, and when the call returns the caller's own transform
    and viz objects hold the addresses the store gave the scripts where
    they held none: the copy [WriteDataset] works on shares its
    sub-documents with the caller's dataset, and the script paths are
    written through it. *)
Theorem caller_script_paths_are_overwritten :
  reachable SampleStore.C None SampleStore.caller_heap SampleStore.caller_ds
    SampleStore.body_file true SampleStore.written /\
  ret SampleStore.written
  = Some (Datastore.mkKey "/mem/dataset.json/dataset:/mem/body.csv/a,b", None) /\
  option_map (@tf_ScriptPath SampleStore.D)
    (deref (@as_transform Sample.X SampleStore.D) SampleStore.caller_heap 3%nat)
  = Some "" /\
  option_map (@tf_ScriptPath SampleStore.D)
    (deref (@as_transform Sample.X SampleStore.D) (w_heap SampleStore.written) 3%nat)
  = Some "/mem/transform_script/select * from a" /\
  option_map (@viz_ScriptPath SampleStore.D)
    (deref (@as_viz Sample.X SampleStore.D) SampleStore.caller_heap 5%nat)
  = Some "" /\
  option_map (@viz_ScriptPath SampleStore.D)
    (deref (@as_viz Sample.X SampleStore.D) (w_heap SampleStore.written) 5%nat)
  = Some "/mem/viz_script/<html></html>".
Proof.
  split; [exact WriteFacts.written_is_reachable |].
  repeat (split; [vm_compute; reflexivity |]). vm_compute. reflexivity.
Qed.

End FrameFacts.

(* --------------------------------------------------------------------- *)
(** ** The write engine: the resources of a transform *)

Module ResourceFacts.
Import Dsfs WriteInvariants HeapFacts FrameFacts.

Section WithCollaborators.
Context {X : Externals} {D : Documents}.
Variable C : Collaborators X D.

Lemma first_unbound_some (rs : list (string * TransformResource)) k r :
  In (k, r) rs -> Path r = "" ->
  exists key r', first_unbound rs = Some key /\ In (key, r') rs /\ Path r' = "".
Proof.
  induction rs as [| [k' r'] rs IH]; simpl; intros Hin Hp; [contradiction |].
  destruct (String.eqb (Path r') "") eqn:E.
  - exists k', r'. apply String.eqb_eq in E. auto.
  - destruct Hin as [Heq | Hin].
    + injection Heq as -> ->. rewrite Hp in E. discriminate.
    + destruct (IH Hin Hp) as (key & r'' & H1 & H2 & H3). exists key, r''. auto.
Qed.

(** The copy [WriteDataset] starts with: the local [ds] points to a
    dataset that shares the caller's transform, and whose meta, if any,
    is a meta object. *)
Lemma copy_has_transform (h : heap X D) (ds lt : loc) (d0 : Dataset D) (t0 : Transform D) :
  h !! ds = Some (ODataset X d0) ->
  Transform_ d0 = Some lt ->
  h !! lt = Some (OTransform X t0) ->
  exists d',
    deref (@as_dataset X D)
      (Dataset_Assign (snd (alloc h (ODataset X (Dataset_zero D)))) (length h) [Some ds])
      (length h) = Some d' /\
    Transform_ d' = Some lt /\
    deref (@as_transform X D)
      (Dataset_Assign (snd (alloc h (ODataset X (Dataset_zero D)))) (length h) [Some ds])
      lt = Some t0 /\
    (forall lm, Meta d' = Some lm ->
       exists m,
         deref (@as_meta X D)
           (Dataset_Assign (snd (alloc h (ODataset X (Dataset_zero D)))) (length h)
              [Some ds]) lm = Some m).
Proof.
  intros Hds Ht Hlt.
  pose proof (lookup_lt h ds _ Hds) as Lds.
  pose proof (lookup_lt h lt _ Hlt) as Llt.
  set (h1 := snd (alloc h (ODataset X (Dataset_zero D)))).
  assert (L1 : length h1 = S (length h)) by apply length_alloc.
  assert (Hds1 : deref (@as_dataset X D) h1 ds = Some d0).
  { unfold deref, h1. rewrite lookup_alloc_old by exact Lds. rewrite Hds. reflexivity. }
  assert (Hcp : deref (@as_dataset X D) h1 (length h) = Some (Dataset_zero D)).
  { unfold deref, h1. pose proof (lookup_alloc_new h (ODataset X (Dataset_zero D))) as E.
    rewrite fst_alloc in E. rewrite E. reflexivity. }
  assert (Hlt1 : deref (@as_transform X D) h1 lt = Some t0).
  { unfold deref, h1. rewrite lookup_alloc_old by exact Llt. rewrite Hlt. reflexivity. }
  unfold Dataset_Assign. simpl fold_left. rewrite Hds1.
  rewrite (Dataset_assign1_zero h1 (length h) d0 Hcp).
  exists (copy_of h1 d0). split; [| split; [| split]].
  - unfold deref. rewrite lookup_write_same by lia. reflexivity.
  - simpl. rewrite Ht. unfold slot_of. rewrite Hlt1. reflexivity.
  - unfold deref. rewrite lookup_write_other by lia. exact Hlt1.
  - simpl. intros lm Hlm. unfold slot_of in Hlm.
    destruct (Meta d0) as [lm0 |]; [| discriminate].
    destruct (deref (@as_meta X D) h1 lm0) as [m |] eqn:Hm; [| discriminate].
    injection Hlm as <-. exists m.
    assert (Hne : length h <> lm0).
    { intros <-. unfold deref in Hm, Hcp. unfold heap, loc in *.
      destruct (h1 !! length h) as [o |]; [| discriminate Hm].
      destruct o; discriminate. }
    unfold deref. rewrite lookup_write_other by exact Hne. exact Hm.
Qed.

Lemma nonempty_with_transform (d : Dataset D) l :
  Transform_ d = Some l -> Dataset_IsEmpty d = false.
Proof.
  intros H. unfold Dataset_IsEmpty. rewrite H. simpl.
  rewrite andb_false_r. reflexivity.
Qed.


End WithCollaborators.



End ResourceFacts.

(* ===================================================================== *)
(** * Part III: more of the code *)

(* --------------------------------------------------------------------- *)
(** ** Abstract names *)

Module AbstractionFacts.
Import Abstraction.

(** A property checked for every index below [n] holds below [n]. *)
Lemma checked_below (P : Z -> bool) (n : nat) :
  forallb P (map Z.of_nat (seq 0 n)) = true ->
  forall k, 0 <= k < Z.of_nat n -> P k = true.
Proof.
  intros H k Hk. rewrite forallb_forall in H. apply H.
  apply in_map_iff. exists (Z.to_nat k). split; [lia |].
  apply in_seq. lia.
Qed.

Lemma base26_cols_zero n : base26_cols n 0 = [].
Proof. destruct n; reflexivity. Qed.

(** Once the fuel exceeds the number of binary digits of [d], more fuel
    changes nothing: the loop has ended. *)
Lemma base26_cols_fuel (fuel : nat) :
  forall d n, Z.abs d < 2 ^ Z.of_nat fuel -> (fuel <= n)%nat ->
              base26_cols n d = base26_cols fuel d.
Proof.
  induction fuel as [| fuel IH]; intros d n Hd Hn.
  - assert (d = 0) by (change (2 ^ Z.of_nat 0) with 1 in Hd; lia). subst d.
    rewrite !base26_cols_zero. reflexivity.
  - destruct n as [| n]; [lia |]. cbn [base26_cols].
    destruct (Z.eqb_spec d 0) as [E | E]; [reflexivity |].
    f_equal. apply IH; [| lia].
    rewrite Nat2Z.inj_succ, Z.pow_succ_r in Hd by lia.
    Z.to_euclidean_division_equations. lia.
Qed.

(** The first loop of [base26] ends within 64 rounds on a Go [int]. *)
Lemma base26_cols_enough (d : Z) (n : nat) :
  in_int d -> (64 <= n)%nat -> base26_cols n d = base26_cols 64 d.
Proof.
  intros Hd Hn. apply base26_cols_fuel; [| exact Hn].
  unfold in_int, int_min, int_max in Hd. change (2 ^ Z.of_nat 64) with (2 ^ 64). lia.
Qed.

(** The columns of a number that is not negative are digits in base 26. *)
Lemma base26_cols_digits (fuel : nat) :
  forall d, 0 <= d -> Forall (fun c => 0 <= c < 26) (base26_cols fuel d).
Proof.
  induction fuel as [| fuel IH]; intros d Hd; cbn [base26_cols]; [constructor |].
  destruct (Z.eqb_spec d 0) as [E | E]; [constructor |].
  constructor.
  - Z.to_euclidean_division_equations. lia.
  - apply IH. Z.to_euclidean_division_equations. lia.
Qed.

Lemma base26_cols_nonempty (fuel : nat) (d : Z) :
  d <> 0 -> base26_cols (S fuel) d <> [].
Proof.
  intros E. cbn [base26_cols]. destruct (Z.eqb_spec d 0); [contradiction | discriminate].
Qed.

Lemma byte_at_letter (k : Z) :
  0 <= k < 26 ->
  exists ch, byte_at b26chars k = Ok ch /\ lowercase_byte ch = true.
Proof.
  intros Hk.
  pose (P := fun k => match byte_at b26chars k with
                      | Ok ch => lowercase_byte ch
                      | Err _ => false
                      end).
  assert (H : P k = true).
  { apply (checked_below P 26); [vm_compute; reflexivity | exact Hk]. }
  unfold P in H. destruct (byte_at b26chars k) as [ch | e]; [| discriminate].
  exists ch. split; [reflexivity | exact H].
Qed.

Lemma base26_letters_digits (hi : list Z) :
  Forall (fun c => 0 <= c < 26) hi ->
  exists s, base26_letters hi = Ok s /\
            String.length s = length hi /\ lowercase s = true.
Proof.
  induction 1 as [| c rest Hc Hrest IH]; simpl.
  - exists "". auto.
  - destruct IH as (s & Hs & Hlen & Hlow).
    set (k := if negb (length rest =? 0)%nat && (c >? 0) then c - 1 else c).
    assert (Hk : 0 <= k < 26).
    { unfold k. destruct (negb (length rest =? 0)%nat); simpl; [| lia].
      destruct (Z.gtb_spec c 0); lia. }
    destruct (byte_at_letter k Hk) as (ch & Hch & Hl).
    rewrite Hch. simpl. rewrite Hs. simpl.
    exists (String.String ch s). split; [reflexivity |]. split.
    + simpl. rewrite Hlen. reflexivity.
    + simpl. rewrite Hl, Hlow. reflexivity.
Qed.

(** X1.  The column name of an index that is not negative is a word of one or
    more of the letters [a] to [z]; the indexing into [b26chars] stays in
    range. *)
Theorem base26_gives_a_lowercase_word (d : Z) :
  0 <= d ->
  exists s, base26 d = Ok s /\ s <> "" /\ lowercase s = true.
Proof.
  intros Hd. unfold base26.
  destruct (Z.eqb_spec d 0) as [E | E].
  - exists "a". split; [reflexivity |]. split; [discriminate | reflexivity].
  - pose proof (base26_cols_digits 64 d Hd) as Hdig.
    pose proof (base26_cols_nonempty 63 d E) as Hne.
    destruct (base26_letters_digits (rev (base26_cols 64 d))) as (s & Hs & Hlen & Hlow).
    { apply Forall_rev. exact Hdig. }
    exists s. split; [exact Hs |]. split; [| exact Hlow].
    intros ->. rewrite length_rev in Hlen.
    destruct (base26_cols 64 d); [contradiction | discriminate Hlen].
Qed.

Lemma base26_gives_a_lowercase_word_witness :
  exists s, base26 27 = Ok s /\ s <> "" /\ lowercase s = true.
Proof. apply (base26_gives_a_lowercase_word 27). lia. Defined.

(** The last column of a negative number is negative. *)
Lemma base26_cols_negative (fuel : nat) :
  forall d, d < 0 -> Z.abs d < 2 ^ Z.of_nat fuel ->
            exists l c, base26_cols fuel d = l ++ [c] /\ c < 0.
Proof.
  induction fuel as [| fuel IH]; intros d Hd Hb.
  - change (2 ^ Z.of_nat 0) with 1 in Hb. lia.
  - cbn [base26_cols]. destruct (Z.eqb_spec d 0) as [E | E]; [lia |].
    rewrite Nat2Z.inj_succ, Z.pow_succ_r in Hb by lia.
    destruct (Z.eqb_spec (Z.quot d 26) 0) as [Q | Q].
    + rewrite Q, base26_cols_zero. exists [], (Z.rem d 26).
      split; [reflexivity |]. Z.to_euclidean_division_equations. lia.
    + destruct (IH (Z.quot d 26)) as (l & c & Hl & Hc).
      * Z.to_euclidean_division_equations. lia.
      * Z.to_euclidean_division_equations. lia.
      * rewrite Hl. exists (Z.rem d 26 :: l), c. split; [reflexivity | exact Hc].
Qed.

(** X2.  A negative index makes [base26] panic: the first byte it looks up
    in [b26chars] is at a negative offset. *)
Theorem base26_panics_below_zero (d : Z) :
  in_int d -> d < 0 -> exists i, i < 0 /\ base26 d = Err (IndexOutOfRange i).
Proof.
  intros Hin Hd. unfold base26.
  destruct (Z.eqb_spec d 0) as [E | E]; [lia |].
  destruct (base26_cols_negative 64 d Hd) as (l & c & Hl & Hc).
  { unfold in_int, int_min, int_max in Hin. change (2 ^ Z.of_nat 64) with (2 ^ 64). lia. }
  rewrite Hl, rev_app_distr. simpl.
  exists c. split; [exact Hc |].
  assert (Hk : (if negb (length (rev l) =? 0)%nat && (c >? 0) then c - 1 else c) = c).
  { destruct (Z.gtb_spec c 0); [lia |]. rewrite andb_false_r. reflexivity. }
  rewrite Hk. unfold byte_at.
  destruct (Z.leb_spec 0 c); [lia |]. reflexivity.
Qed.

Lemma base26_panics_below_zero_witness :
  exists i, i < 0 /\ base26 (-1) = Err (IndexOutOfRange i).
Proof.
  apply (base26_panics_below_zero (-1)); unfold in_int, int_min, int_max; lia.
Defined.

Lemma distinct_map_inj {A} (f : A -> string) (l : list A) :
  distinct (map f l) = true ->
  forall i j, In i l -> In j l -> f i = f j -> i = j.
Proof.
  induction l as [| a l IH]; simpl; intros Hd i j Hi Hj Hf; [contradiction |].
  apply andb_true_iff in Hd. destruct Hd as [Ha Hd].
  apply negb_true_iff in Ha.
  assert (Hnot : forall x, In x l -> f a <> f x).
  { intros x Hx E.
    assert (T : existsb (String.eqb (f a)) (map f l) = true).
    { apply existsb_exists. exists (f x). split; [apply in_map; exact Hx |].
      apply String.eqb_eq. exact E. }
    congruence. }
  destruct Hi as [<- | Hi], Hj as [<- | Hj].
  - reflexivity.
  - exfalso. exact (Hnot j Hj Hf).
  - exfalso. exact (Hnot i Hi (eq_sym Hf)).
  - exact (IH Hd i j Hi Hj Hf).
Qed.

(** X3.  The names of the first 676 columns, the one-letter and two-letter
    names, are pairwise different. *)
Theorem column_names_differ_below_676 (i j : Z) :
  0 <= i < 676 -> 0 <= j < 676 -> i <> j ->
  AbstractColumnName i <> AbstractColumnName j.
Proof.
  intros Hi Hj Hne E. apply Hne. unfold AbstractColumnName in E.
  assert (D : distinct (column_names 676) = true) by (vm_compute; reflexivity).
  unfold column_names in D.
  assert (N : Z.to_nat i = Z.to_nat j).
  { apply (distinct_map_inj _ _ D).
    - apply in_seq. lia.
    - apply in_seq. lia.
    - rewrite !Z2Nat.id by lia. rewrite E. reflexivity. }
  lia.
Qed.

Lemma column_names_differ_below_676_witness :
  AbstractColumnName 25 <> AbstractColumnName 26.
Proof. apply (column_names_differ_below_676 25 26); lia. Defined.

(** X4.  From index 676 on the names repeat: a digit 0 and a digit 1 in the
    middle column are both written [a], so the 26 columns from 676 have
    the names of the 26 columns from 702. *)
Theorem column_names_repeat_from_676 (c : Z) :
  0 <= c < 26 ->
  exists s, AbstractColumnName (676 + c) = Ok s /\ AbstractColumnName (702 + c) = Ok s.
Proof.
  intros Hc. unfold AbstractColumnName.
  pose (P := fun c => match base26 (676 + c), base26 (702 + c) with
                      | Ok s, Ok t => String.eqb s t
                      | _, _ => false
                      end).
  assert (H : P c = true).
  { apply (checked_below P 26); [vm_compute; reflexivity | exact Hc]. }
  unfold P in H.
  destruct (base26 (676 + c)) as [s | e]; [| discriminate].
  destruct (base26 (702 + c)) as [t | e]; [| discriminate].
  apply String.eqb_eq in H. subst t. exists s. split; reflexivity.
Qed.

Lemma column_names_repeat_from_676_witness :
  exists s, AbstractColumnName (676 + 0) = Ok s /\ AbstractColumnName (702 + 0) = Ok s.
Proof. apply (column_names_repeat_from_676 0). lia. Defined.

Lemma to_int_not_nil (z : Z) :
  Z.to_int z <> Decimal.Pos Decimal.Nil /\ Z.to_int z <> Decimal.Neg Decimal.Nil.
Proof.
  pose proof (DecimalZ.to_of (Z.to_int z)) as H. rewrite DecimalZ.of_to in H.
  split; intros E; rewrite E in H; discriminate H.
Qed.

Lemma decimal_inj (a b : Z) : decimal a = decimal b -> a = b.
Proof.
  unfold decimal. intros E.
  destruct (to_int_not_nil a) as [A1 A2], (to_int_not_nil b) as [B1 B2].
  pose proof (NilZero.isi _ A1 A2) as Ia. pose proof (NilZero.isi _ B1 B2) as Ib.
  rewrite E in Ia. rewrite Ia in Ib. injection Ib as Ib.
  apply DecimalZ.to_int_inj. exact Ib.
Qed.

(** X5.  Table names are pairwise different over the whole range of a Go
    [int], the wrap-around of [i+1] at the largest [int] included. *)
Theorem table_names_differ (i j : Z) :
  in_int i -> in_int j -> i <> j -> AbstractTableName i <> AbstractTableName j.
Proof.
  unfold AbstractTableName, in_int, int_min, int_max. intros Hi Hj Hne E.
  apply Hne.
  simpl in E. injection E as E. apply decimal_inj in E.
  unfold wrap64 in E.
  assert (M : (i + 1 + 2 ^ 63) mod 2 ^ 64 = (j + 1 + 2 ^ 63) mod 2 ^ 64) by lia.
  clear E.
  destruct (Z.eq_dec i (2 ^ 63 - 1)) as [Ei | Ei];
    destruct (Z.eq_dec j (2 ^ 63 - 1)) as [Ej | Ej].
  - lia.
  - subst i. replace (2 ^ 63 - 1 + 1 + 2 ^ 63) with (2 ^ 64) in M by lia.
    rewrite Z.mod_same in M by lia. rewrite Z.mod_small in M by lia. lia.
  - subst j. replace (2 ^ 63 - 1 + 1 + 2 ^ 63) with (2 ^ 64) in M by lia.
    rewrite Z.mod_same in M by lia. rewrite Z.mod_small in M by lia. lia.
  - rewrite !Z.mod_small in M by lia. lia.
Qed.

Lemma table_names_differ_witness :
  AbstractTableName 0 <> AbstractTableName (2 ^ 63 - 1).
Proof.
  apply (table_names_differ 0 (2 ^ 63 - 1)); unfold in_int, int_min, int_max; lia.
Defined.

Example table_name_of_0 : AbstractTableName 0 = "t1".
Proof. reflexivity. Qed.

End AbstractionFacts.
(* --------------------------------------------------------------------- *)
(** ** Schemas *)

Module SchemaFacts.
Import Schema.

Section WithExternals.
Variable T : SchemaExternals.

Lemma find_field_spec (name : string) (l : list (option (Field T))) :
  match find_field T name l with
  | Ok (Some f) =>
      Name f = name /\
      exists pre post, l = pre ++ Some f :: post /\ Forall (other_name name) pre
  | Ok None => Forall (other_name name) l
  | Err NilPointer =>
      exists pre post, l = pre ++ None :: post /\ Forall (other_name name) pre
  end.
Proof.
  induction l as [| o l IH]; simpl.
  - constructor.
  - destruct o as [f |].
    + destruct (String.eqb_spec (Name f) name) as [E | E].
      * split; [exact E |]. exists [], l. split; [reflexivity | constructor].
      * assert (Hf : other_name name (Some f)) by (exists f; auto).
        destruct (find_field T name l) as [[g |] | []].
        -- destruct IH as (Hg & pre & post & -> & Hpre).
           split; [exact Hg |]. exists (Some f :: pre), post.
           split; [reflexivity | constructor; assumption].
        -- constructor; assumption.
        -- destruct IH as (pre & post & -> & Hpre).
           exists (Some f :: pre), post. split; [reflexivity | constructor; assumption].
    + exists [], l. split; [reflexivity | constructor].
Qed.

(** X6.  [FieldForName] gives the first field with the name, and nil when no
    field has it; it panics when, and only when, a nil pointer comes
    before any field with the name. *)
Theorem FieldForName_gives_the_first_match (s : Schema T) (name : string) :
  match FieldForName s name with
  | Ok (Some f) =>
      Name f = name /\
      exists pre post,
        fields_list s = pre ++ Some f :: post /\ Forall (other_name name) pre
  | Ok None => Forall (other_name name) (fields_list s)
  | Err NilPointer =>
      exists pre post,
        fields_list s = pre ++ None :: post /\ Forall (other_name name) pre
  end.
Proof. unfold FieldForName. apply find_field_spec. Qed.

Lemma each_field_spec {A} (get : Field T -> A) (l : list (option (Field T))) :
  match each_field T get l with
  | Ok out => map (option_map get) l = map Some out
  | Err NilPointer => In None l
  end.
Proof.
  induction l as [| o l IH]; simpl; [reflexivity |].
  destruct o as [f |]; [| left; reflexivity].
  destruct (each_field T get l) as [out | []].
  - simpl. rewrite IH. reflexivity.
  - right. exact IH.
Qed.

Lemma each_field_total {A B} (g1 : Field T -> A) (g2 : Field T -> B)
    (l : list (option (Field T))) (out : list A) :
  each_field T g1 l = Ok out ->
  exists out2, each_field T g2 l = Ok out2 /\ length out2 = length l /\
               length out = length l.
Proof.
  revert out. induction l as [| o l IH]; simpl; intros out H.
  - injection H as <-. exists []. auto.
  - destruct o as [f |]; [| discriminate].
    destruct (each_field T g1 l) as [out1 |]; [| discriminate].
    injection H as <-.
    destruct (IH out1 eq_refl) as (out2 & H2 & L2 & L1). rewrite H2.
    exists (g2 f :: out2). simpl. auto.
Qed.

Lemma FieldNames_map (s : Schema T) (names : list string) :
  FieldNames s = Ok names ->
  map (option_map Name) (fields_list s) = map Some names.
Proof.
  unfold FieldNames, fields_list. intros H.
  destruct (Fields s) as [l |].
  - pose proof (each_field_spec Name l) as S1. rewrite H in S1. exact S1.
  - injection H as <-. reflexivity.
Qed.

(** X7.  When [FieldNames] returns, so does [FieldTypeStrings], both with one
    entry per field, in the order of the fields. *)
Theorem one_name_and_one_type_per_field (s : Schema T) (names : list string) :
  FieldNames s = Ok names ->
  exists types,
    FieldTypeStrings s = Ok types /\
    length names = length (fields_list s) /\
    length types = length (fields_list s) /\
    map (option_map Name) (fields_list s) = map Some names /\
    map (option_map (fun f => Type_String T (Type_ f))) (fields_list s) = map Some types.
Proof.
  unfold FieldNames, FieldTypeStrings, fields_list. intros H.
  destruct (Fields s) as [l |].
  - destruct (each_field_total Name (fun f => Type_String T (Type_ f)) l names H)
      as (types & Ht & Lt & Ln).
    exists types. split; [exact Ht |]. split; [exact Ln |]. split; [exact Lt |].
    pose proof (each_field_spec Name l) as S1. rewrite H in S1.
    pose proof (each_field_spec (fun f => Type_String T (Type_ f)) l) as S2.
    rewrite Ht in S2. split; assumption.
  - injection H as <-. exists []. simpl. auto.
Qed.

(** [FieldNames] panics exactly when one of the field pointers is
    nil. *)
Theorem FieldNames_panics_on_a_nil_field (s : Schema T) :
  FieldNames s = Err NilPointer <-> In None (fields_list s).
Proof.
  unfold FieldNames, fields_list.
  destruct (Fields s) as [l |]; [| split; [discriminate | contradiction]].
  pose proof (each_field_spec Name l) as S.
  split.
  - intros H. rewrite H in S. exact S.
  - intros H. destruct (each_field T Name l) as [out | []]; [| reflexivity].
    exfalso. apply (in_map (option_map Name)) in H. rewrite S in H.
    apply in_map_iff in H. destruct H as (x & Hx & _). discriminate.
Qed.

(** X8.  A name is among [FieldNames] exactly when [FieldForName] finds a
    field for it, and the field found carries the name. *)
Theorem FieldForName_agrees_with_FieldNames (s : Schema T) (names : list string)
    (name : string) :
  FieldNames s = Ok names ->
  (In name names <-> exists f, FieldForName s name = Ok (Some f) /\ Name f = name) /\
  (~ In name names <-> FieldForName s name = Ok None).
Proof.
  intros H.
  pose proof (FieldNames_map s names H) as Hmap.
  pose proof (find_field_spec name (fields_list s)) as Hfind.
  fold (FieldForName s name) in Hfind.
  assert (Hin : In name names <-> In (Some name) (map (option_map Name) (fields_list s))).
  { rewrite Hmap. split.
    - apply in_map.
    - intros Hi. apply in_map_iff in Hi. destruct Hi as (x & Hx & Hi). congruence. }
  assert (Hother : Forall (other_name name) (fields_list s) ->
                   ~ In (Some name) (map (option_map Name) (fields_list s))).
  { intros Hall Hi. apply in_map_iff in Hi. destruct Hi as (o & Ho & Hi).
    rewrite List.Forall_forall in Hall. destruct (Hall o Hi) as (g & -> & Hg).
    simpl in Ho. congruence. }
  assert (Hnone : ~ In None (fields_list s)).
  { intros Hi. apply (in_map (option_map Name)) in Hi. rewrite Hmap in Hi.
    apply in_map_iff in Hi. destruct Hi as (x & Hx & _). discriminate. }
  destruct (FieldForName s name) as [[f |] | []].
  - destruct Hfind as (Hf & pre & post & Hl & Hpre).
    assert (Hi : In name names).
    { apply Hin. rewrite Hl, map_app. apply in_or_app. right. left.
      simpl. rewrite Hf. reflexivity. }
    split; split.
    + intros _. exists f. auto.
    + intros _. exact Hi.
    + intros Hn. contradiction.
    + discriminate.
  - split; split.
    + intros Hi. exfalso. apply (Hother Hfind). apply Hin. exact Hi.
    + intros (f & Hf & _). discriminate.
    + reflexivity.
    + intros _ Hi. apply (Hother Hfind). apply Hin. exact Hi.
  - exfalso. destruct Hfind as (pre & post & Hl & _). apply Hnone.
    rewrite Hl. apply in_or_app. right. left. reflexivity.
Qed.

(** X9.  Decoding the encoding of a field gives the field back, when its
    name, format, title and description are UTF-8, its type and
    constraints survive their own codecs, and its missing value is nil or
    a value that [json.Marshal] writes as a document other than [null]
    and [json.Unmarshal] reads into an [interface{}] as the same value. *)
Theorem field_round_trip (f : Field T) :
  field_carried f ->
  exists j, Field_MarshalJSON f = Ok j /\ Field_UnmarshalJSON T j = Ok f.
Proof.
  intros [(Hn & Hfo & Hti0 & Hde) Hc Hm Ht].
  destruct f as [name type missing format constraints title description]; simpl in *.
  unfold Field_MarshalJSON; simpl.
  unfold GoJSON.field_string_omitempty, GoJSON.field_string, GoJSON.field_codec,
    GoJSON.field_any_omitempty, GoJSON.marshal_any, GoJSON.absent, GoJSON.present.
  rewrite (CodecFacts.coerce_valid name Hn), (CodecFacts.coerce_valid format Hfo),
    (CodecFacts.coerce_valid title Hti0), (CodecFacts.coerce_valid description Hde).
  destruct constraints as [c |];
    [destruct Hc as (jc & Hcm & Hcn & Hcu); rewrite Hcm |].
  all: destruct (String.eqb_spec description "") as [-> | Hd].
  all: destruct (String.eqb_spec format "") as [-> | Hf].
  all: destruct missing as [mv |];
    [destruct Hm as (jm & Hmm & Hmn & Hmu); rewrite Hmm |].
  all: destruct (String.eqb_spec title "") as [-> | Hti].
  all: destruct (Type_eqb T type (Type_zero T)) eqn:Ety;
    [subst type | destruct Ht as (jt & Htm & Htu); rewrite Htm].
  all: simpl; eexists; (split; [reflexivity |]).
  all: unfold Field_UnmarshalJSON, GoJSON.get_any, GoJSON.unmarshal_any,
         GoJSON.get_string, GoJSON.get_codec, GoJSON.get_pointer, GoJSON.member; simpl.
  all: rewrite ?Htu; simpl.
  all: try (destruct jc; try congruence; rewrite Hcu; simpl).
  all: try (destruct jm; try congruence; rewrite Hmu; simpl).
  all: reflexivity.
Qed.

End WithExternals.

Lemma one_name_and_one_type_per_field_witness :
  exists types,
    FieldTypeStrings people = Ok types /\
    length ["name"; "age"] = length (fields_list people) /\
    length types = length (fields_list people) /\
    map (option_map Name) (fields_list people) = map Some ["name"; "age"] /\
    map (option_map (fun f => Type_String sample_externals (Type_ f))) (fields_list people)
    = map Some types.
Proof.
  apply (one_name_and_one_type_per_field sample_externals people ["name"; "age"]).
  reflexivity.
Defined.

Lemma FieldForName_agrees_with_FieldNames_witness :
  (In "age" ["name"; "age"] <->
   exists f, FieldForName people "age" = Ok (Some f) /\ Name f = "age") /\
  (~ In "age" ["name"; "age"] <-> FieldForName people "age" = Ok None).
Proof.
  apply (FieldForName_agrees_with_FieldNames sample_externals people ["name"; "age"] "age").
  reflexivity.
Defined.

Lemma field_round_trip_witness :
  exists j, Field_MarshalJSON described_field = Ok j /\
            Field_UnmarshalJSON sample_externals j = Ok described_field.
Proof.
  apply (field_round_trip sample_externals described_field).
  constructor; simpl.
  - repeat split; reflexivity.
  - eexists. split; [reflexivity |]. split; [discriminate | reflexivity].
  - eexists. split; [reflexivity |]. split; [discriminate | reflexivity].
  - eexists. split; reflexivity.
Defined.

(** A missing value given as a Go [int] is not given back: it is written
    with the digits a [float64] is written with, and [json.Unmarshal]
    reads a number into an [interface{}] as a [float64]. *)
Example int_missing_value_reads_back_as_float :
  exists j d,
    Field_MarshalJSON counted_field = Ok j /\
    Field_UnmarshalJSON sample_externals j = Ok d /\
    MissingValue counted_field = Some (Sample.VInt 0) /\
    MissingValue d = Some (Sample.VFloat 0) /\
    d <> counted_field.
Proof.
  eexists. eexists.
  split; [reflexivity |]. split; [reflexivity |]. split; [reflexivity |].
  split; [reflexivity |]. discriminate.
Qed.

(** A name that is not UTF-8 is not given back: the byte 255 is written
    as U+FFFD. *)
Example invalid_name_is_rewritten :
  exists j d,
    Field_MarshalJSON misnamed_field = Ok j /\
    Field_UnmarshalJSON sample_externals j = Ok d /\
    Name d = UTF8.replacement /\
    d <> misnamed_field.
Proof.
  eexists. eexists.
  split; [reflexivity |]. split; [reflexivity |]. split; [reflexivity |].
  discriminate.
Qed.

(** A schema whose second field pointer is nil: the first field is
    still found by name, and listing the names panics. *)
Example nil_field_after_the_match :
  (exists f, FieldForName broken "name" = Ok (Some f)) /\
  FieldForName broken "age" = Err NilPointer /\
  FieldNames broken = Err NilPointer.
Proof. split; [eexists; reflexivity | split; reflexivity]. Qed.

End SchemaFacts.
(* --------------------------------------------------------------------- *)
(** ** Data formats: the two codecs *)

Module DataFormatCodecFacts.
Import DataFormat.

(** X10.  [ParseDataFormatString] accepts the text [String] gives for a
    defined format and, for every format but the unknown one, that text
    after a dot; it accepts nothing else. *)
Theorem ParseDataFormatString_inverts_String (s : string) (f : DataFormat) :
  ParseDataFormatString s = (f, None)
  <-> defined f /\
      (s = String f \/ (f <> UnknownDataFormat /\ s = ("." ++ String f)%string)).
Proof.
  split.
  - unfold ParseDataFormatString, parse_table, assoc.
    repeat match goal with
           | |- context [String.eqb s ?k] =>
               destruct (String.eqb_spec s k) as [-> | ?]
           end;
      intros H; try discriminate H; injection H as <-;
      (split; [unfold defined; simpl; tauto |]);
      first [left; reflexivity | right; split; [discriminate | reflexivity]].
  - unfold defined. simpl.
    intros [H [-> | [Hne ->]]];
      repeat (destruct H as [<- | H]; [first [reflexivity | contradiction] |]);
      contradiction.
Qed.

(** X11.  The JSON form of a format: the unknown format has none (the encoder
    returns no bytes), a defined format is a string that decodes to the
    format, and a number outside the [const] block is the empty string,
    which decodes to the unknown format. *)
Theorem format_json_form (f : DataFormat) :
  match MarshalJSON f with
  | None => f = UnknownDataFormat
  | Some j =>
      f <> UnknownDataFormat /\
      (defined f -> UnmarshalJSON j = Ok f) /\
      (~ defined f -> j = JStr "" /\ UnmarshalJSON j = Ok UnknownDataFormat)
  end.
Proof.
  unfold MarshalJSON.
  destruct (Z.eqb_spec f UnknownDataFormat) as [E | E]; [exact E |].
  split; [exact E |]. split.
  - unfold defined. simpl.
    intros H; repeat (destruct H as [<- | H]; [first [reflexivity | contradiction] |]);
      contradiction.
  - intros Hn.
    assert (S : String f = "").
    { unfold String, string_table, assoc.
      repeat match goal with
             | |- context [Z.eqb f ?k] =>
                 destruct (Z.eqb_spec f k) as [-> | ?]
             end; try reflexivity;
        exfalso; apply Hn; unfold defined; simpl; tauto. }
    rewrite S. split; reflexivity.
Qed.

End DataFormatCodecFacts.

(* --------------------------------------------------------------------- *)
(** ** Structure: merging, abstracting, encoding *)

Module StructureMoreFacts.
Import Structure Abstraction.

Section WithExternals.
Variable X : Externals.

Lemma assign1_assoc (s a b : Structure X) :
  assign1 X (assign1 X s a) b = assign1 X s (assign1 X a b).
Proof.
  destruct s, a, b. unfold assign1. simpl.
  f_equal;
    repeat match goal with
           | |- context [if ?c then _ else _] => destruct c eqn:?; simpl in *
           end;
    congruence.
Qed.

(** X12.  Merging is associative: merging [b] into the result of merging [a]
    into [s] is merging into [s] the result of merging [b] into [a]. *)
Theorem Assign_is_associative (s a b : Structure X) :
  Assign X (Assign X s [Some a]) [Some b] = Assign X s [Some (Assign X a [Some b])].
Proof. simpl. apply assign1_assoc. Qed.

(** Merging a structure into itself leaves it as it is. *)
Theorem Assign_is_idempotent (s : Structure X) :
  Assign X s [Some s] = s.
Proof.
  destruct s. simpl. unfold assign1. simpl.
  f_equal;
    repeat match goal with
           | |- context [if ?c then _ else _] => destruct c eqn:?; simpl in *
           end;
    congruence.
Qed.

Lemma IsEmpty_assign1 (s a : Structure X) :
  IsEmpty (assign1 X s a) = IsEmpty s && IsEmpty a.
Proof.
  destruct s as [p1 c1 m1 e1 n1 f1 g1 k1 l1 h1], a as [p2 c2 m2 e2 n2 f2 g2 k2 l2 h2].
  unfold IsEmpty, assign1. simpl.
  destruct (String.eqb c2 "") eqn:E1; simpl;
  destruct (Compression_eqb X m2 (CompressionNone X)) eqn:E2; simpl;
  destruct (String.eqb e2 "") eqn:E3; simpl;
  destruct (n2 =? 0) eqn:E4; simpl;
  destruct (f2 =? DataFormat.UnknownDataFormat) eqn:E5; simpl;
  destruct g2 as [g2 |]; simpl;
  destruct (l2 =? 0) eqn:E6; simpl;
  destruct h2 as [h2 |]; simpl;
  rewrite ?E1, ?E2, ?E3, ?E4, ?E5, ?E6; simpl;
  rewrite ?andb_false_r, ?andb_true_r; reflexivity.
Qed.

(** X13.  The result of a merge is empty exactly when the receiver and every
    argument that is not nil are empty. *)
Theorem Assign_is_empty_when_all_are (s : Structure X)
    (args : list (option (Structure X))) :
  IsEmpty (Assign X s args)
  = IsEmpty s
    && forallb (fun o => match o with None => true | Some a => IsEmpty a end) args.
Proof.
  unfold Assign. revert s.
  induction args as [| o args IH]; intros s; simpl.
  - rewrite andb_true_r. reflexivity.
  - rewrite IH. destruct o as [a |].
    + rewrite IsEmpty_assign1. rewrite andb_assoc. reflexivity.
    + reflexivity.
Qed.

(** X14.  With a compression test that holds of [compression.None] alone, the
    zero structure is neutral for merging, on either side. *)
Theorem zero_is_neutral_for_Assign (s : Structure X) :
  (forall c, Compression_eqb X c (CompressionNone X) = true <-> c = CompressionNone X) ->
  Assign X s [Some (zero X)] = s /\ Assign X (zero X) [Some s] = s.
Proof.
  intros Hc.
  assert (Hn : Compression_eqb X (CompressionNone X) (CompressionNone X) = true)
    by (apply Hc; reflexivity).
  destruct s as [p c m e n f g k l h]. simpl. unfold assign1, zero. simpl.
  rewrite Hn. simpl. split; [reflexivity |].
  f_equal;
    repeat match goal with
           | |- context [if ?c then _ else _] => destruct c eqn:?; simpl in *
           end;
    try reflexivity;
    try (symmetry; first [apply String.eqb_eq | apply Z.eqb_eq | apply Hc]; assumption).
  - apply negb_false_iff in Heqb. apply String.eqb_eq in Heqb.
    destruct p as [ps]. simpl in Heqb. subst ps. reflexivity.
  - apply negb_false_iff in Heqb. apply String.eqb_eq in Heqb. congruence.
  - apply negb_false_iff in Heqb. apply Hc in Heqb. congruence.
  - apply negb_false_iff in Heqb. apply String.eqb_eq in Heqb. congruence.
  - apply negb_false_iff in Heqb. apply Z.eqb_eq in Heqb. congruence.
  - apply negb_false_iff in Heqb. apply Z.eqb_eq in Heqb. congruence.
  - destruct g; [discriminate | reflexivity].
  - apply negb_false_iff in Heqb. apply String.eqb_eq in Heqb. congruence.
  - apply negb_false_iff in Heqb. apply Z.eqb_eq in Heqb. congruence.
  - destruct h; [discriminate | reflexivity].
Qed.

Lemma bind_reference (st : Structure X) (p : Datastore.Key) :
  Datastore.String p <> "" ->
  KindStructure X <> "" ->
  Compression_eqb X (CompressionNone X) (CompressionNone X) = true ->
  Assign X st [Some (NewStructureRef X p)]
  = mkStructure X p (Checksum st) (Compression st) (Encoding st) (Entries st)
      (Format st) (FormatConfig st) (KindStructure X) (Length st) (Schema st).
Proof.
  intros Hp Hk Hc. destruct st. simpl. unfold assign1, NewStructureRef. simpl.
  rewrite Hc. simpl.
  destruct (String.eqb_spec (Datastore.String p) ""); [contradiction |].
  destruct (String.eqb_spec (KindStructure X) ""); [contradiction |].
  reflexivity.
Qed.

(** X15.  What the dereference engine does with a structure it has loaded:
    merging a reference made by [NewStructureRef] into it sets the
    address and the kind tag, and nothing else. *)
Theorem Assign_of_a_reference_binds_the_address (st : Structure X) (p : Datastore.Key) :
  Datastore.String p <> "" ->
  KindStructure X <> "" ->
  Compression_eqb X (CompressionNone X) (CompressionNone X) = true ->
  Assign X st [Some (NewStructureRef X p)]
  = mkStructure X p (Checksum st) (Compression st) (Encoding st) (Entries st)
      (Format st) (FormatConfig st) (KindStructure X) (Length st) (Schema st).
Proof. apply bind_reference. Qed.

(** X16.  A structure in the object form whose format is the unknown one
    cannot be encoded: the format encoder returns no bytes, which
    [json.Marshal] rejects. *)
Theorem object_with_unknown_format_is_not_encoded (s : Structure X) :
  encodes_as_reference s = false ->
  Format s = DataFormat.UnknownDataFormat ->
  exists e, MarshalJSON s = Err e.
Proof.
  intros G Hf. unfold MarshalJSON. fold (encodes_as_reference s). rewrite G.
  unfold marshal_structure. simpl. rewrite Hf. simpl.
  unfold GoJSON.field_string_omitempty, GoJSON.field_int_omitempty,
    GoJSON.field_codec, GoJSON.absent, GoJSON.present.
  destruct (String.eqb (Checksum s) ""); simpl;
    destruct (Compression_eqb X (Compression s) (CompressionNone X)); simpl;
    try (destruct (Compression_marshal X (Compression s)); simpl);
    try (eexists; reflexivity);
    destruct (String.eqb (Encoding s) ""); simpl;
    destruct (Entries s =? 0); simpl; eexists; reflexivity.
Qed.


End WithExternals.

Lemma zero_is_neutral_for_Assign_witness :
  Assign Sample.X Sample.loaded_structure [Some (zero Sample.X)] = Sample.loaded_structure /\
  Assign Sample.X (zero Sample.X) [Some Sample.loaded_structure] = Sample.loaded_structure.
Proof.
  apply (zero_is_neutral_for_Assign Sample.X Sample.loaded_structure).
  intros c. simpl. apply Z.eqb_eq.
Defined.

Lemma Assign_of_a_reference_binds_the_address_witness :
  Assign Sample.X Sample.literal_structure
    [Some (NewStructureRef Sample.X (Datastore.mkKey "/ipfs/QmStructure"))]
  = mkStructure Sample.X (Datastore.mkKey "/ipfs/QmStructure") "" 0 "utf-8" 0
      DataFormat.CsvDataFormat None "qri:st:0" 0 None.
Proof.
  apply (Assign_of_a_reference_binds_the_address Sample.X Sample.literal_structure
           (Datastore.mkKey "/ipfs/QmStructure")).
  - simpl. discriminate.
  - simpl. discriminate.
  - reflexivity.
Defined.

Lemma object_with_unknown_format_is_not_encoded_witness :
  exists e,
    MarshalJSON (mkStructure Sample.X Datastore.zero "" 0 "utf-8" 0
                   DataFormat.UnknownDataFormat None "" 0 None) = Err e.
Proof.
  apply (object_with_unknown_format_is_not_encoded Sample.X); reflexivity.
Defined.


End StructureMoreFacts.
(* --------------------------------------------------------------------- *)
(** ** The commit title: what happens to the text *)

Module CommitTitleFacts.
Import Strings CommitMsg.

Lemma take_drop (n : nat) (s : string) : (take n s ++ drop n s)%string = s.
Proof.
  revert s. induction n as [| n IH]; intros s; simpl; [reflexivity |].
  destruct s as [| c s]; simpl; [reflexivity |]. rewrite IH. reflexivity.
Qed.

Lemma append_assoc (a b c : string) : ((a ++ b) ++ c)%string = (a ++ (b ++ c))%string.
Proof. induction a as [| x a IH]; simpl; [reflexivity |]. rewrite IH. reflexivity. Qed.

Lemma Index_newline_ge s : -1 <= Index s newline.
Proof.
  induction s as [| c s IH]; cbn [Index].
  - simpl. lia.
  - destruct (has_prefix newline (String.String c s)); [lia |].
    destruct (Z.ltb_spec (Index s newline) 0); lia.
Qed.

(** A string splits at the offset [Index] gives for the line break. *)
Lemma Index_newline_split (s : string) :
  0 <= Index s newline ->
  s = (take (Z.to_nat (Index s newline)) s ++ newline
       ++ drop (Z.to_nat (Index s newline + 1)) s)%string.
Proof.
  induction s as [| c s IH]; cbn [Index].
  - simpl. lia.
  - destruct (has_prefix newline (String.String c s)) eqn:P.
    + intros _. unfold newline in P. cbn [has_prefix] in P.
      rewrite andb_true_r in P.
      apply Ascii.eqb_eq in P. subst c. reflexivity.
    + destruct (Z.ltb_spec (Index s newline) 0) as [L | L]; [lia |].
      intros _. specialize (IH L).
      replace (Z.to_nat (Index s newline + 1)) with (S (Z.to_nat (Index s newline))) by lia.
      replace (Z.to_nat (Index s newline + 1 + 1))
        with (S (Z.to_nat (Index s newline + 1))) by lia.
      cbn [take drop]. simpl. f_equal. exact IH.
Qed.

(** The step that cuts the title at the line break moves text from the
    title to the message and loses none. *)
Lemma newline_step_keeps_text (st sm : string) :
  let r := if Index st newline >? 0
           then (slice_to st (Index st newline),
                 (slice_from st (Index st newline + 1) ++ newline ++ sm)%string)
           else (st, sm) in
  (fst r ++ newline ++ snd r)%string = (st ++ newline ++ sm)%string.
Proof.
  simpl. destruct (Z.gtb_spec (Index st newline) 0) as [G | G]; simpl; [| reflexivity].
  unfold slice_to, slice_from.
  pose proof (Index_newline_split st ltac:(lia)) as S.
  set (a := take (Z.to_nat (Index st newline)) st) in *.
  set (b := drop (Z.to_nat (Index st newline + 1)) st) in *.
  clearbody a b. rewrite S. rewrite !append_assoc. reflexivity.
Qed.

(** X19.  No text of a title is lost: the title and the message handed back,
    joined by a line break, are the title and the message that came in,
    joined by a line break; a title of more than 70 bytes is cut at an
    offset of at most 67 with [...] put on both sides of the cut. *)
Theorem title_and_message_keep_the_text (sTitle sMsg diffDescription : string) :
  sTitle <> "" ->
  exists cut,
    0 <= cut <= 67 /\
    (fst (cleanTitleAndMessage sTitle sMsg diffDescription) ++ newline
     ++ snd (cleanTitleAndMessage sTitle sMsg diffDescription))%string
    = if len sTitle >? 70
      then (slice_to sTitle cut ++ "..." ++ newline ++ "..."
            ++ slice_from sTitle cut ++ newline ++ sMsg)%string
      else (sTitle ++ newline ++ sMsg)%string.
Proof.
  intros Hne. unfold cleanTitleAndMessage.
  destruct (String.eqb_spec sTitle "") as [E | _]; [contradiction |]. simpl andb. cbv iota.
  set (cut := if LastIndex (slice_to sTitle 67) " " >? 0
              then LastIndex (slice_to sTitle 67) " " + 1 else 66).
  assert (Hcut : 0 <= cut <= 67).
  { unfold cut.
    pose proof (CommitMsgFacts.LastIndex_space_lt (slice_to sTitle 67)) as H1.
    pose proof (CommitMsgFacts.len_take 67 sTitle) as H2. unfold slice_to in *.
    change (Z.to_nat 67) with 67%nat in *.
    destruct (Z.gtb_spec (LastIndex (take 67 sTitle) " ") 0); lia. }
  exists cut. split; [exact Hcut |].
  destruct (len sTitle >? 70).
  - rewrite (newline_step_keeps_text (slice_to sTitle cut ++ "...")
               ("..." ++ slice_from sTitle cut ++ newline ++ sMsg)).
    rewrite !append_assoc. reflexivity.
  - apply (newline_step_keeps_text sTitle sMsg).
Qed.

Lemma title_and_message_keep_the_text_witness :
  exists cut,
    0 <= cut <= 67 /\
    (fst (cleanTitleAndMessage ("fix" ++ newline ++ "typo") "body" "") ++ newline
     ++ snd (cleanTitleAndMessage ("fix" ++ newline ++ "typo") "body" ""))%string
    = if len ("fix" ++ newline ++ "typo") >? 70
      then (slice_to ("fix" ++ newline ++ "typo") cut ++ "..." ++ newline ++ "..."
            ++ slice_from ("fix" ++ newline ++ "typo") cut ++ newline ++ "body")%string
      else (("fix" ++ newline ++ "typo") ++ newline ++ "body")%string.
Proof.
  apply (title_and_message_keep_the_text ("fix" ++ newline ++ "typo") "body" "").
  discriminate.
Defined.

(** An empty title is replaced by the diff description or, when there
    is none, by the message, which then is emptied; from there on it is
    treated as a title the caller gave. *)
Theorem empty_title_falls_back (sMsg diffDescription : string) :
  cleanTitleAndMessage "" sMsg diffDescription
  = if String.eqb diffDescription ""
    then cleanTitleAndMessage sMsg "" ""
    else cleanTitleAndMessage diffDescription sMsg diffDescription.
Proof.
  unfold cleanTitleAndMessage.
  destruct (String.eqb_spec diffDescription "") as [-> | Hd]; simpl.
  - destruct (String.eqb_spec sMsg "") as [-> | Hm]; reflexivity.
  - destruct (String.eqb_spec diffDescription "") as [E | _]; [contradiction |].
    reflexivity.
Qed.

End CommitTitleFacts.

(* --------------------------------------------------------------------- *)
(** ** The shape analyser: what it reports *)

Module AnalysisSummaryFacts.
Import Analysis AnalysisSummary.

(** X20.  [getDepth] adds to the depth it is handed the number of objects and
    arrays anywhere in the value, siblings included; it is the length of
    the longest chain of nested ones only when no container has a
    sibling container. *)
Theorem getDepth_adds_up_the_containers (x : json) (d : Z) :
  in_int d -> in_int (d + containers x) -> getDepth x d = d + containers x.
Proof. apply AnalysisFacts.getDepth_counts_containers. Qed.

Lemma getDepth_adds_up_the_containers_witness :
  getDepth (JObj [("a", JArr []); ("b", JArr [])]) 1 = 1 + 3.
Proof.
  apply (getDepth_adds_up_the_containers (JObj [("a", JArr []); ("b", JArr [])]) 1);
    unfold in_int, int_min, int_max; simpl; lia.
Defined.

Lemma scan_from (ents : list Entry) :
  forall n m,
    0 <= n -> in_int (n + Z.of_nat (length ents)) ->
    Forall (fun e => in_int (1 + containers (Value e))) ents ->
    fold_left
      (fun st ent =>
         match st with
         | (entries, depth) =>
             let d := getDepth (Value ent) 1 in
             (wrap64 (entries + 1), if d >? depth then d else depth)
         end)
      ents (n, m)
    = (n + Z.of_nat (length ents),
       fold_left (fun m e => Z.max m (1 + containers (Value e))) ents m).
Proof.
  induction ents as [| e ents IH]; intros n m Hn Hlen Hall.
  - simpl. f_equal. lia.
  - inversion Hall as [| e' ents' He Hrest]; subst.
    cbn [fold_left]. cbv zeta.
    assert (H1 : in_int 1) by (unfold in_int, int_min, int_max; lia).
    rewrite (AnalysisFacts.getDepth_counts_containers (Value e) 1 H1 He).
    assert (Hn1 : in_int (n + 1)).
    { unfold in_int, int_min, int_max in *. cbn [length] in Hlen. lia. }
    rewrite (wrap64_id _ Hn1).
    rewrite IH.
    + cbn [length]. f_equal; [lia |]. f_equal.
      destruct (Z.gtb_spec (1 + containers (Value e)) m); lia.
    + lia.
    + cbn [length] in Hlen. replace (n + 1 + Z.of_nat (length ents))
        with (n + Z.of_nat (S (length ents))) by lia. exact Hlen.
    + exact Hrest.
Qed.

Lemma scan_counts (ents : list Entry) :
  in_int (Z.of_nat (length ents)) ->
  Forall (fun e => in_int (1 + containers (Value e))) ents ->
  scan ents = (Z.of_nat (length ents), deepest ents).
Proof.
  intros Hlen Hall. unfold scan, deepest.
  exact (scan_from ents 0 1 ltac:(lia) Hlen Hall).
Qed.

(** X21.  What the analyser sends back for a body within the range of a Go
    [int]: when the reader ends with [EOF], the number of entries and one
    more than the largest number of objects and arrays in an entry;
    when it ends with another error, that error with the number of
    entries read before it. *)
Theorem setDepthAndEntryCount_outcome (r : EntryReader) :
  in_int (Z.of_nat (length (read_entries r))) ->
  Forall (fun e => in_int (1 + containers (Value e))) (read_entries r) ->
  setDepthAndEntryCount (Ok r)
  = if String.eqb (read_end r) "EOF"
    then Ok (Z.of_nat (length (read_entries r)), deepest (read_entries r))
    else Err (ErrReadingEntry (Z.of_nat (length (read_entries r))) (read_end r)).
Proof.
  intros Hlen Hall. unfold setDepthAndEntryCount.
  rewrite (scan_counts (read_entries r) Hlen Hall).
  destruct (String.eqb (read_end r) "EOF"); reflexivity.
Qed.

Lemma setDepthAndEntryCount_outcome_witness :
  setDepthAndEntryCount (Ok torn_body)
  = if String.eqb (read_end torn_body) "EOF"
    then Ok (Z.of_nat (length (read_entries torn_body)), deepest (read_entries torn_body))
    else Err (ErrReadingEntry (Z.of_nat (length (read_entries torn_body)))
                (read_end torn_body)).
Proof.
  apply (setDepthAndEntryCount_outcome torn_body).
  - unfold in_int, int_min, int_max. simpl. lia.
  - repeat constructor; unfold in_int, int_min, int_max; simpl; lia.
Defined.

End AnalysisSummaryFacts.
(* --------------------------------------------------------------------- *)
(** ** The dereference engine *)

Module DerefFacts.
Import Dsfs Deref HeapFacts.

Section WithLoaders.
Context {X : Externals} {D : Documents}.
Variable L : Loaders X D.

Section Slot.
Context {T : Type}.
Variable inj : T -> obj X D.
Variable proj : obj X D -> option T.
Variable slot : Dataset D -> option loc.
Variable set : option loc -> Dataset D -> Dataset D.
Variable isEmpty : T -> bool.
Variable path : T -> Datastore.Key.
Variable load : Datastore.Key -> result string T.
Variable bind : T -> Datastore.Key -> T.
Variable wrap : string -> error.

Let slot_deref := deref_slot inj proj slot set isEmpty path load bind wrap.

Lemma deref_lt {A} (pr : obj X D -> option A) (h : heap X D) (l : loc) (v : A) :
  deref pr h l = Some v -> (l < length h)%nat.
Proof.
  unfold deref. destruct (h !! l) as [o |] eqn:E; [| discriminate].
  intros _. unfold heap, loc in *. apply lookup_lt_Some in E. exact E.
Qed.

(** A slot that is nil or holds a hydrated document is left alone. *)
Lemma deref_slot_hydrated (h : heap X D) (ds : loc) (d : Dataset D) :
  deref (@as_dataset X D) h ds = Some d ->
  hydrated proj isEmpty path h (slot d) ->
  slot_deref h ds = (h, None).
Proof.
  intros Hd Hy. unfold slot_deref, deref_slot. rewrite Hd.
  unfold hydrated in Hy. destruct (slot d) as [l |]; [| reflexivity].
  destruct Hy as (v & Hv & Hne). rewrite Hv, Hne. reflexivity.
Qed.

(** Whatever happens, the heap only grows, and of the objects that were
    there only the dataset is written to. *)
Lemma deref_slot_frame (h h' : heap X D) (ds : loc) (e : option error) :
  slot_deref h ds = (h', e) ->
  (length h <= length h')%nat /\
  (forall k, (k < length h)%nat -> k <> ds -> h' !! k = h !! k) /\
  (e <> None -> h' = h).
Proof.
  unfold slot_deref, deref_slot.
  destruct (deref (@as_dataset X D) h ds) as [d |];
    [| intros H; injection H as <- <-; auto].
  destruct (slot d) as [l |]; [| intros H; injection H as <- <-; split; [lia | auto]].
  destruct (deref proj h l) as [v |]; [| intros H; injection H as <- <-; auto].
  destruct (isEmpty v && negb (String.eqb (Datastore.String (path v)) ""));
    [| intros H; injection H as <- <-; split; [lia | auto]].
  destruct (load (path v)) as [loaded | msg]; [| intros H; injection H as <- <-; auto].
  change (alloc h (inj (bind loaded (path v))))
    with (length h, snd (alloc h (inj (bind loaded (path v))))).
  cbv iota beta. intros H. injection H as <- <-.
  split; [| split].
  - rewrite length_write. unfold heap, loc in *. rewrite length_app. simpl. lia.
  - intros k Hk Hne. rewrite lookup_write_other by congruence.
    unfold heap, loc in *. apply lookup_app_l. exact Hk.
  - intros C. contradiction.
Qed.

(** A slot that holds a bare reference: a failing load is reported and
    changes nothing; a successful one puts the loaded document, bound to
    the address of the reference, into a new object and points the slot
    at it. *)
Lemma deref_slot_reference (h : heap X D) (ds l : loc) (d : Dataset D) (v : T) :
  (forall x, proj (inj x) = Some x) ->
  (forall o x, proj o = Some x -> @as_dataset X D o = None) ->
  deref (@as_dataset X D) h ds = Some d ->
  slot d = Some l ->
  deref proj h l = Some v ->
  isEmpty v = true ->
  Datastore.String (path v) <> "" ->
  match load (path v) with
  | Err msg => slot_deref h ds = (h, Some (wrap msg))
  | Ok loaded =>
      exists h',
        slot_deref h ds = (h', None) /\
        deref (@as_dataset X D) h' ds = Some (set (Some (length h)) d) /\
        deref proj h' (length h) = Some (bind loaded (path v)) /\
        deref proj h' l = Some v
  end.
Proof.
  intros Hproj Hkind Hd Hs Hv He Hp. unfold slot_deref, deref_slot.
  rewrite Hd, Hs, Hv, He.
  destruct (String.eqb_spec (Datastore.String (path v)) ""); [contradiction |].
  simpl andb. cbv iota.
  destruct (load (path v)) as [loaded | msg]; [| reflexivity].
  change (alloc h (inj (bind loaded (path v))))
    with (length h, snd (alloc h (inj (bind loaded (path v))))).
  cbv iota beta.
  pose proof (deref_lt _ _ _ _ Hd) as Lds.
  pose proof (deref_lt _ _ _ _ Hv) as Ll.
  assert (Hne : ds <> l).
  { intros ->. unfold deref in Hd, Hv. destruct (h !! l) as [o |]; [| discriminate].
    rewrite (Hkind o v Hv) in Hd. discriminate. }
  eexists. split; [reflexivity |].
  split; [| split].
  - unfold deref. rewrite lookup_write_same by (rewrite length_alloc; lia). reflexivity.
  - unfold deref. rewrite lookup_write_other by lia.
    pose proof (lookup_alloc_new h (inj (bind loaded (path v)))) as E.
    rewrite fst_alloc in E. unfold heap, loc in *. rewrite E. apply Hproj.
  - unfold deref. rewrite lookup_write_other by exact Hne.
    rewrite lookup_alloc_old by exact Ll. exact Hv.
Qed.

(** A second call after a successful one changes nothing, when what the
    loader returns is not itself empty once bound. *)
Lemma deref_slot_twice (h h' : heap X D) (ds : loc) :
  (forall x, proj (inj x) = Some x) ->
  (forall o x, proj o = Some x -> @as_dataset X D o = None) ->
  (forall o d, slot (set o d) = o) ->
  (forall k x p, load k = Ok x -> isEmpty (bind x p) = false) ->
  slot_deref h ds = (h', None) ->
  slot_deref h' ds = (h', None).
Proof.
  intros Hproj Hkind Hslot Hfull H. pose proof H as H0.
  unfold slot_deref, deref_slot in H0.
  destruct (deref (@as_dataset X D) h ds) as [d |] eqn:Hd; [| discriminate].
  destruct (slot d) as [l |] eqn:Hs; [| injection H0 as <-; exact H].
  destruct (deref proj h l) as [v |] eqn:Hv; [| discriminate].
  destruct (isEmpty v && negb (String.eqb (Datastore.String (path v)) "")) eqn:Hc;
    [| injection H0 as <-; exact H].
  destruct (load (path v)) as [loaded | msg] eqn:Hl; [| discriminate].
  pose proof (deref_lt _ _ _ _ Hd) as Lds.
  injection H0 as <-.
  apply (deref_slot_hydrated _ _ (set (Some (length h)) d)).
  - unfold deref. rewrite lookup_write_same; [reflexivity |].
    unfold heap, loc in *. rewrite length_app. simpl. lia.
  - unfold hydrated. rewrite Hslot.
    exists (bind loaded (path v)). split.
    + unfold deref. rewrite lookup_write_other by lia.
      unfold heap, loc in *. rewrite lookup_app_r by lia.
      rewrite Nat.sub_diag. simpl. apply Hproj.
    + rewrite (Hfull _ _ _ Hl). reflexivity.
Qed.

End Slot.

Lemma and_then_frame (h0 : heap X D) (ds : loc) (r : heap X D * option error)
    (k : heap X D -> heap X D * option error) :
  ((length h0 <= length (fst r))%nat /\
   forall i, (i < length h0)%nat -> i <> ds -> fst r !! i = h0 !! i) ->
  (forall h1 h2 e, k h1 = (h2, e) ->
     (length h1 <= length h2)%nat /\
     forall i, (i < length h1)%nat -> i <> ds -> h2 !! i = h1 !! i) ->
  (length h0 <= length (fst (and_then r k)))%nat /\
  forall i, (i < length h0)%nat -> i <> ds -> fst (and_then r k) !! i = h0 !! i.
Proof.
  intros [L1 F1] Hk. destruct r as [h1 [e |]]; simpl in *; [auto |].
  destruct (k h1) as [h2 e2] eqn:E. destruct (Hk h1 h2 e2 E) as [L2 F2]. simpl.
  split; [lia |]. intros i Hi Hne. rewrite F2 by lia. apply F1; assumption.
Qed.

Lemma slot_frame {T} (f : heap X D -> loc -> heap X D * option error)
    (inj : T -> obj X D) proj slot set isEmpty path load bind wrap :
  f = deref_slot inj proj slot set isEmpty path load bind wrap ->
  forall (ds : loc) (h1 h2 : heap X D) (e : option error),
    f h1 ds = (h2, e) ->
    (length h1 <= length h2)%nat /\
    forall i, (i < length h1)%nat -> i <> ds -> h2 !! i = h1 !! i.
Proof.
  intros -> ds h1 h2 e H.
  destruct (deref_slot_frame inj proj slot set isEmpty path load bind wrap h1 h2 ds e H)
    as (A & B & _).
  split; assumption.
Qed.

(** X22.  [DerefDataset] writes to the dataset it is given and to objects it
    makes; every other object of the heap, the references it resolves
    among them, is left as it is, whether it fails or not. *)
Theorem DerefDataset_writes_to_the_dataset_only (h h' : heap X D) (ds : loc)
    (e : option error) :
  DerefDataset L h ds = (h', e) ->
  (length h <= length h')%nat /\
  forall i, (i < length h)%nat -> i <> ds -> h' !! i = h !! i.
Proof.
  intros H.
  assert (G : (length h <= length (fst (DerefDataset L h ds)))%nat /\
              forall i, (i < length h)%nat -> i <> ds ->
                        fst (DerefDataset L h ds) !! i = h !! i).
  { unfold DerefDataset.
    apply and_then_frame.
    { destruct (DerefDatasetMeta L h ds) as [h1 e1] eqn:E.
      exact (slot_frame _ _ _ _ _ _ _ _ _ _ eq_refl ds h h1 e1 E). }
    intros h1 h2 e2 E2.
    assert (G2 : (length h1 <= length (fst (h2, e2)))%nat /\
                 forall i, (i < length h1)%nat -> i <> ds -> fst (h2, e2) !! i = h1 !! i).
    { rewrite <- E2. apply and_then_frame.
      { destruct (DerefDatasetStructure L h1 ds) as [h3 e3] eqn:E.
        exact (slot_frame _ _ _ _ _ _ _ _ _ _ eq_refl ds h1 h3 e3 E). }
      intros h3 h4 e4 E4.
      assert (G4 : (length h3 <= length (fst (h4, e4)))%nat /\
                   forall i, (i < length h3)%nat -> i <> ds ->
                             fst (h4, e4) !! i = h3 !! i).
      { rewrite <- E4. apply and_then_frame.
        { destruct (DerefDatasetTransform L h3 ds) as [h5 e5] eqn:E.
          exact (slot_frame _ _ _ _ _ _ _ _ _ _ eq_refl ds h3 h5 e5 E). }
        intros h5 h6 e6 E6.
        assert (G6 : (length h5 <= length (fst (h6, e6)))%nat /\
                     forall i, (i < length h5)%nat -> i <> ds ->
                               fst (h6, e6) !! i = h5 !! i).
        { rewrite <- E6. apply and_then_frame.
          { destruct (DerefDatasetViz L h5 ds) as [h7 e7] eqn:E.
            exact (slot_frame _ _ _ _ _ _ _ _ _ _ eq_refl ds h5 h7 e7 E). }
          intros h7 h8 e8 E8.
          exact (slot_frame _ _ _ _ _ _ _ _ _ _ eq_refl ds h7 h8 e8 E8). }
        exact G6. }
      exact G4. }
    exact G2. }
  rewrite H in G. exact G.
Qed.

(** X23.  On a dataset whose sub-documents are nil or hydrated [DerefDataset]
    returns no error and changes nothing. *)
Theorem DerefDataset_leaves_a_hydrated_dataset (h : heap X D) (ds : loc) (d : Dataset D) :
  deref (@as_dataset X D) h ds = Some d ->
  hydrated (@as_meta X D) (Meta_IsEmpty L) (Meta_Path L) h (Meta d) ->
  hydrated (@as_structure X D) (@Structure.IsEmpty X) (@Structure.Path X) h (Structure d) ->
  hydrated (@as_transform X D) (Transform_IsEmpty L) (@tf_path D) h (Transform_ d) ->
  hydrated (@as_viz X D) (Viz_IsEmpty L) (@viz_path D) h (Viz_ d) ->
  hydrated (@as_commit X D) (Commit_IsEmpty L) (Commit_Path L) h (Commit d) ->
  DerefDataset L h ds = (h, None).
Proof.
  intros Hd Hm Hs Ht Hv Hc. unfold DerefDataset.
  unfold DerefDatasetMeta. rewrite (deref_slot_hydrated _ _ _ _ _ _ _ _ _ h ds d Hd Hm).
  simpl and_then.
  unfold DerefDatasetStructure.
  rewrite (deref_slot_hydrated _ _ _ _ _ _ _ _ _ h ds d Hd Hs). simpl and_then.
  unfold DerefDatasetTransform.
  rewrite (deref_slot_hydrated _ _ _ _ _ _ _ _ _ h ds d Hd Ht). simpl and_then.
  unfold DerefDatasetViz.
  rewrite (deref_slot_hydrated _ _ _ _ _ _ _ _ _ h ds d Hd Hv). simpl and_then.
  unfold DerefDatasetCommit.
  apply (deref_slot_hydrated _ _ _ _ _ _ _ _ _ h ds d Hd Hc).
Qed.

(** X24.  [DerefDatasetStructure] on a bare reference: a failing load is
    returned as the structure error and changes nothing; a successful
    one leaves the reference where it was and points the dataset at a new
    structure, which is the loaded one with the address of the reference
    and the kind tag [KindStructure]. *)
Theorem DerefDatasetStructure_resolves_a_reference (h : heap X D) (ds l : loc)
    (d : Dataset D) (s : Structure.Structure X) :
  deref (@as_dataset X D) h ds = Some d ->
  Structure d = Some l ->
  deref (@as_structure X D) h l = Some s ->
  Structure.IsEmpty s = true ->
  Datastore.String (Structure.Path s) <> "" ->
  KindStructure X <> "" ->
  Compression_eqb X (CompressionNone X) (CompressionNone X) = true ->
  match loadStructure L (Structure.Path s) with
  | Err msg => DerefDatasetStructure L h ds = (h, Some (ErrLoadStructure msg))
  | Ok st =>
      exists h',
        DerefDatasetStructure L h ds = (h', None) /\
        deref (@as_dataset X D) h' ds = Some (set_Structure (Some (length h)) d) /\
        deref (@as_structure X D) h' (length h)
        = Some (Structure.mkStructure X (Structure.Path s)
                  (Structure.Checksum st) (Structure.Compression st)
                  (Structure.Encoding st) (Structure.Entries st)
                  (Structure.Format st) (Structure.FormatConfig st)
                  (KindStructure X) (Structure.Length st) (Structure.Schema st)) /\
        deref (@as_structure X D) h' l = Some s
  end.
Proof.
  intros Hd Hs Hv He Hp Hk Hc.
  pose proof (deref_slot_reference (@OStructure X D) (@as_structure X D) (@Structure D)
                (@set_Structure D) (@Structure.IsEmpty X) (@Structure.Path X)
                (loadStructure L)
                (fun st p => Structure.Assign X st [Some (Structure.NewStructureRef X p)])
                ErrLoadStructure h ds l d s) as R.
  fold (DerefDatasetStructure L) in R.
  specialize (R ltac:(reflexivity)
                ltac:(intros o x Ho; destruct o; try discriminate; reflexivity)
                Hd Hs Hv He Hp).
  destruct (loadStructure L (Structure.Path s)) as [st | msg]; [| exact R].
  destruct R as (h' & R1 & R2 & R3 & R4).
  exists h'. split; [exact R1 |]. split; [exact R2 |]. split; [| exact R4].
  rewrite R3. f_equal.
  apply (StructureMoreFacts.bind_reference X st (Structure.Path s) Hp Hk Hc).
Qed.

(** X25.  Dereferencing the structure twice is dereferencing it once, when the
    structures the store holds are not empty. *)
Theorem DerefDatasetStructure_twice (h h' : heap X D) (ds : loc) :
  (forall k st, loadStructure L k = Ok st -> Structure.IsEmpty st = false) ->
  DerefDatasetStructure L h ds = (h', None) ->
  DerefDatasetStructure L h' ds = (h', None).
Proof.
  intros Hfull H.
  apply (deref_slot_twice (@OStructure X D) (@as_structure X D) (@Structure D)
           (@set_Structure D) (@Structure.IsEmpty X) (@Structure.Path X)
           (loadStructure L)
           (fun st p => Structure.Assign X st [Some (Structure.NewStructureRef X p)])
           ErrLoadStructure h h' ds).
  - reflexivity.
  - intros o x Ho; destruct o; try discriminate; reflexivity.
  - intros o d. reflexivity.
  - intros k x p Hl. simpl. rewrite StructureMoreFacts.IsEmpty_assign1.
    rewrite (Hfull k x Hl). reflexivity.
  - exact H.
Qed.

End WithLoaders.

Lemma DerefDataset_writes_to_the_dataset_only_witness :
  (length SampleLoaders.loaded_heap
   <= length (fst (DerefDataset SampleLoaders.L SampleLoaders.loaded_heap 0%nat)))%nat /\
  fst (DerefDataset SampleLoaders.L SampleLoaders.loaded_heap 0%nat) !! 1%nat
  = SampleLoaders.loaded_heap !! 1%nat.
Proof.
  destruct (DerefDataset_writes_to_the_dataset_only SampleLoaders.L
              SampleLoaders.loaded_heap
              (fst (DerefDataset SampleLoaders.L SampleLoaders.loaded_heap 0%nat))
              0%nat
              (snd (DerefDataset SampleLoaders.L SampleLoaders.loaded_heap 0%nat)))
    as [A B].
  - destruct (DerefDataset SampleLoaders.L SampleLoaders.loaded_heap 0%nat). reflexivity.
  - split; [exact A |]. apply B; simpl; lia.
Defined.

Lemma DerefDataset_leaves_a_hydrated_dataset_witness :
  DerefDataset SampleLoaders.L SampleStore.caller_heap 0%nat
  = (SampleStore.caller_heap, None).
Proof.
  apply (DerefDataset_leaves_a_hydrated_dataset SampleLoaders.L SampleStore.caller_heap
           0%nat
           (@mkDataset SampleStore.D Datastore.zero "" "" ""
              (Some 1%nat) (Some 2%nat) (Some 3%nat) (Some 4%nat) (Some 5%nat))).
  - reflexivity.
  - eexists. split; reflexivity.
  - eexists. split; reflexivity.
  - eexists. split; reflexivity.
  - eexists. split; reflexivity.
  - eexists. split; reflexivity.
Defined.

Lemma DerefDatasetStructure_resolves_a_reference_witness :
  exists h',
    DerefDatasetStructure SampleLoaders.L SampleLoaders.loaded_heap 0%nat = (h', None) /\
    deref (@as_dataset Sample.X SampleStore.D) h' 0%nat
    = Some (set_Structure (Some 2%nat)
              (@mkDataset SampleStore.D (Datastore.mkKey "/mem/QmDataset") "/mem/QmBody"
                 "" "" None (Some 1%nat) None None None)) /\
    deref (@as_structure Sample.X SampleStore.D) h' 2%nat
    = Some (Structure.mkStructure Sample.X (Datastore.mkKey "/ipfs/QmStructure")
              "" 0 "utf-8" 0 DataFormat.CsvDataFormat None "qri:st:0" 0 None) /\
    deref (@as_structure Sample.X SampleStore.D) h' 1%nat = Some Sample.structure_ref.
Proof.
  apply (DerefDatasetStructure_resolves_a_reference SampleLoaders.L
           SampleLoaders.loaded_heap 0%nat 1%nat
           (@mkDataset SampleStore.D (Datastore.mkKey "/mem/QmDataset") "/mem/QmBody"
              "" "" None (Some 1%nat) None None None)
           Sample.structure_ref).
  - reflexivity.
  - reflexivity.
  - reflexivity.
  - reflexivity.
  - simpl. discriminate.
  - simpl. discriminate.
  - reflexivity.
Defined.

Lemma DerefDatasetStructure_twice_witness :
  DerefDatasetStructure SampleLoaders.L
    (fst (DerefDatasetStructure SampleLoaders.L SampleLoaders.loaded_heap 0%nat)) 0%nat
  = (fst (DerefDatasetStructure SampleLoaders.L SampleLoaders.loaded_heap 0%nat), None).
Proof.
  apply (DerefDatasetStructure_twice SampleLoaders.L SampleLoaders.loaded_heap
           (fst (DerefDatasetStructure SampleLoaders.L SampleLoaders.loaded_heap 0%nat))
           0%nat).
  - intros k st. simpl.
    destruct (String.eqb (Datastore.String k) "/ipfs/QmStructure"); intros H;
      [injection H as <-; reflexivity | discriminate].
  - reflexivity.
Defined.

End DerefFacts.
(* --------------------------------------------------------------------- *)
(** ** The write engine: the log of a call *)

Module WriteLogFacts.
Import Dsfs WriteInvariants WriteFacts.

#[local] Arguments count_sites : simpl never.
#[local] Arguments owed : simpl never.

Section WithCollaborators.
Context {X : Externals} {D : Documents}.
Variable C : Collaborators X D.

Lemma count_sites_nil (p : Site -> bool) : count_sites p [] = 0.
Proof. reflexivity. Qed.

Lemma no_top_count (l : list LogEntry) :
  (forall f, ~ In (LAdd SiteDataset f) l) ->
  count_sites is_top_site (adds l) = 0.
Proof.
  induction l as [| e l IH]; intros H; [reflexivity |].
  change (e :: l) with ([e] ++ l). rewrite adds_app, count_sites_app, IH.
  - destruct e as [pin wrap | s f | s f | s f |]; try reflexivity.
    change (adds [LAdd s f]) with [(s, f)]. rewrite count_sites_one.
    destruct s; try reflexivity.
    exfalso. apply (H f). left. reflexivity.
  - intros f Hf. apply (H f). right. exact Hf.
Qed.

(** X26.  The top-level document is added at most once in a call, though the
    flag [addedDataset] that guards the addition is never set. *)
Theorem top_level_document_is_added_at_most_once
    nerr (h : heap X D) ds dataFile pin (st : WState X D) :
  reachable C nerr h ds dataFile pin st ->
  count_sites is_top_site (adds (log st)) <= 1.
Proof.
  intros Hreach.
  destruct (reachable_invariant C _ _ _ _ _ _ Hreach) as (_ & _ & [Hb | Ha]).
  - destruct Hb as [Htop _ _ _ _]. rewrite (no_top_count (log st) Htop). lia.
  - assert (G : forall pre f tail,
              log st = pre ++ tail -> settled_log pre ->
              adds tail = [(SiteDataset, f)] ->
              count_sites is_top_site (adds (log st)) <= 1).
    { intros pre f tail Hl (_ & _ & _ & Hpre) Ht.
      rewrite Hl, adds_app, count_sites_app, Ht, count_sites_one.
      rewrite (no_top_count pre Hpre). simpl. lia. }
    destruct Ha as [pre f H1 H2 | pre f H1 H2 | pre f H1 H2 | pre f p msg H1 H2];
      apply (G pre f _ H1 H2); reflexivity.
Qed.

(** X27.  A call that returns without error has left nothing unfinished: the
    files it added are the files that finished, none failed, and every
    script has had its document written after it. *)
Theorem success_leaves_nothing_pending
    nerr (h : heap X D) ds dataFile pin (st : WState X D) (p : Datastore.Key) :
  reachable C nerr h ds dataFile pin st ->
  ret st = Some (p, None) ->
  Permutation (adds (log st)) (dones (log st)) /\
  fails (log st) = [] /\
  owed (log st) = 0.
Proof.
  intros Hreach Hret.
  destruct (reachable_invariant C _ _ _ _ _ _ Hreach) as (_ & _ & [Hb | Ha]).
  - destruct Hb as [_ _ _ _ Hbret].
    destruct (Hbret p None Hret) as (e' & He & _). discriminate.
  - destruct Ha as [pre f H1 H2 H3 | pre f H1 H2 H3 | pre f H1 H2 H3 | pre f q msg H1 H2 H3];
      try congruence.
    destruct H2 as (Hperm & Hfails & Howed & _).
    rewrite H1, adds_app, dones_app, fails_app, owed_app, Hfails, Howed.
    split; [| split].
    + apply Permutation_app; [exact Hperm | reflexivity].
    + reflexivity.
    + reflexivity.
Qed.

End WithCollaborators.

Lemma top_level_document_is_added_at_most_once_witness :
  count_sites is_top_site (adds (log SampleStore.written)) <= 1.
Proof.
  apply (top_level_document_is_added_at_most_once SampleStore.C None
           SampleStore.caller_heap SampleStore.caller_ds SampleStore.body_file true
           SampleStore.written).
  exact written_is_reachable.
Defined.

Lemma success_leaves_nothing_pending_witness :
  Permutation (adds (log SampleStore.written)) (dones (log SampleStore.written)) /\
  fails (log SampleStore.written) = [] /\
  owed (log SampleStore.written) = 0.
Proof.
  apply (success_leaves_nothing_pending SampleStore.C None
           SampleStore.caller_heap SampleStore.caller_ds SampleStore.body_file true
           SampleStore.written
           (Datastore.mkKey "/mem/dataset.json/dataset:/mem/body.csv/a,b")).
  - exact written_is_reachable.
  - vm_compute. reflexivity.
Defined.

End WriteLogFacts.
(* --------------------------------------------------------------------- *)
(** ** Transform: merging and the round trip *)

Module TransformCodecFacts.
Import Transform TransformCodec.

Section WithExternals.
Variable X : Externals.

Lemma map_merge_nil {V} (mine theirs : gomap V) :
  is_nil (map_merge mine theirs) = is_nil mine && is_nil theirs.
Proof. destruct mine, theirs; reflexivity. Qed.

Lemma Transform_IsEmpty_assign1 (q q2 : Transform X) :
  IsEmpty (assign1 q q2) = IsEmpty q && IsEmpty q2.
Proof.
  destruct q as [p1 k1 s1 a1 d1 t1 c1 r1], q2 as [p2 k2 s2 a2 d2 t2 c2 r2].
  unfold IsEmpty, assign1. simpl. rewrite !map_merge_nil.
  destruct (String.eqb d2 "") eqn:E1; simpl;
  destruct (String.eqb s2 "") eqn:E2; simpl;
  destruct (String.eqb a2 "") eqn:E3; simpl;
  destruct t2 as [t2 |]; simpl;
  destruct r2 as [r2 |]; simpl;
  destruct c2 as [c2 |]; simpl;
  rewrite ?E1, ?E2, ?E3; simpl;
  rewrite ?andb_false_r, ?andb_true_r; reflexivity.
Qed.

(** X28.  The result of merging transforms is empty exactly when the receiver
    and every argument that is not nil are empty. *)
Theorem Transform_Assign_is_empty_when_all_are (q : Transform X)
    (qs : list (option (Transform X))) :
  IsEmpty (Assign q qs)
  = IsEmpty q
    && forallb (fun o => match o with None => true | Some q2 => IsEmpty q2 end) qs.
Proof.
  unfold Assign. revert q.
  induction qs as [| o qs IH]; intros q; simpl.
  - rewrite andb_true_r. reflexivity.
  - rewrite IH. destruct o as [q2 |].
    + rewrite Transform_IsEmpty_assign1. rewrite andb_assoc. reflexivity.
    + reflexivity.
Qed.

Lemma nested_structure_round_trip (st : Structure.Structure X) :
  Structure.is_reference st \/ Structure.is_object st ->
  exists j,
    Structure.MarshalJSON st = Ok j /\ j <> JNull /\
    Structure.UnmarshalJSON X j = Ok (Structure.read_back st).
Proof.
  intros [Hr | Ho].
  - destruct (StructureFacts.reference_round_trip X st Hr) as (Hm & Hu & _).
    eexists. split; [exact Hm |]. split; [discriminate | exact Hu].
  - destruct (StructureFacts.object_round_trip X st Ho) as (j & Hm & Hu).
    exists j. split; [exact Hm |]. split; [| exact Hu].
    destruct Ho as [G _].
    unfold Structure.MarshalJSON in Hm. fold (Structure.encodes_as_reference st) in Hm.
    rewrite G in Hm. unfold Structure.marshal_structure in Hm.
    match type of Hm with
    | match ?o with _ => _ end = _ => destruct o as [kvs | e]; [| discriminate]
    end.
    injection Hm as <-. discriminate.
Qed.

(** X29.  Decoding the encoding of a transform gives the transform back, up to
    what the encoding does not hold, when its address and texts are UTF-8
    and its configuration values and resources are read as they were
    written: a reference comes back as the address [datastore.NewKey]
    makes of its address, and nothing else; the object form comes back
    without the address, with an unset kind tag read as [KindTransform],
    with the nested structure as it reads back, and with the same two
    maps. *)
Theorem transform_round_trip (q : Transform X) :
  carried q ->
  exists j, MarshalJSON q = Ok j /\ UnmarshalJSON X j = Ok (read_back q).
Proof.
  intros [(Hp & Hsy & Hap & Hda) Hcfg Hres (jk & Hkm & Hku) Hst].
  unfold MarshalJSON, read_back.
  destruct (negb (String.eqb (Datastore.String (path q)) "") && IsEmpty q).
  { eexists. split; [reflexivity |].
    unfold Datastore.MarshalJSON. rewrite (CodecFacts.coerce_valid _ Hp). reflexivity. }
  unfold MarshalJSONObject, marshal_transform.
  set (kind := if String.eqb (Qri q) "" then KindTransform X else Qri q) in *.
  clearbody kind.
  destruct q as [p k0 syn app dat st cfg rs]; simpl in *.
  unfold GoJSON.field_string_omitempty, GoJSON.field_map_omitempty, GoJSON.field_codec,
    GoJSON.absent, GoJSON.present, marshal_resources.
  rewrite Hkm.
  rewrite (CodecFacts.coerce_valid syn Hsy), (CodecFacts.coerce_valid app Hap),
    (CodecFacts.coerce_valid dat Hda).
  destruct (String.eqb_spec app "") as [-> | Happ].
  all: destruct cfg as [cfg |];
    [destruct Hcfg as (Hcne & Hcs);
     destruct (CodecFacts.map_round_trip _ _ cfg Hcs) as (ckvs & Hcm & Hcu & _);
     destruct cfg as [| c0 cfg0]; [congruence |];
     cbv beta iota; rewrite Hcm |].
  all: destruct (String.eqb_spec dat "") as [-> | Hdat].
  all: destruct (String.eqb_spec kind "") as [Ek | Ek].
  all: destruct rs as [rs |];
    [destruct Hres as (Hne & Hrs);
     destruct (CodecFacts.map_round_trip _ _ rs Hrs) as (kvs & Hrm & Hru & _);
     destruct rs as [| r0 rs0]; [congruence |];
     cbv beta iota; rewrite Hrm |].
  all: destruct st as [st |];
    [destruct (nested_structure_round_trip st Hst) as (js & Hsm & Hsn & Hsu);
     rewrite Hsm |].
  all: destruct (String.eqb_spec syn "") as [-> | Hsyn].
  all: simpl; eexists; (split; [reflexivity |]).
  all: unfold UnmarshalJSON, unmarshal_transform, get_resources, GoJSON.get_string,
         GoJSON.get_codec, GoJSON.get_map, GoJSON.get_pointer, GoJSON.member; simpl.
  all: repeat (first [rewrite Hcu | rewrite Hku | rewrite Hru]; simpl).
  all: try (destruct js; try congruence; rewrite Hsu; simpl).
  all: try (subst kind); reflexivity.
Qed.

End WithExternals.

Lemma transform_round_trip_witness :
  exists j, MarshalJSON SampleTransforms.query = Ok j /\
            UnmarshalJSON Sample.X j = Ok (read_back SampleTransforms.query).
Proof.
  apply (transform_round_trip Sample.X SampleTransforms.query).
  constructor; simpl.
  - repeat split; reflexivity.
  - split; [discriminate |]. split.
    + constructor; [simpl; intros [] | constructor].
    + constructor; [| constructor].
      split; [reflexivity |]. eexists. split; reflexivity.
  - split; [discriminate |]. split.
    + constructor; [simpl; intros [] | constructor].
    + constructor; [| constructor].
      split; [reflexivity |]. eexists. split; reflexivity.
  - eexists. split; reflexivity.
  - right. exact StructureFacts.literal_structure_is_object.
Defined.

(** A configuration value given as a Go [int] is not given back: it is
    read as a [float64]. *)
Example int_config_value_reads_back_as_float :
  exists j d,
    MarshalJSON SampleTransforms.counted = Ok j /\
    UnmarshalJSON Sample.X j = Ok d /\
    Config SampleTransforms.counted = Some [("limit", Some (Sample.VInt 10))] /\
    Config d = Some [("limit", Some (Sample.VFloat 10))].
Proof.
  eexists. eexists.
  split; [reflexivity |]. split; [reflexivity |]. split; reflexivity.
Qed.

(** The entries of a map are written in the order of their keys,
    whatever the order they are listed in. *)
Example map_entries_are_written_in_key_order :
  GoJSON.marshal_map (Transform.marshal_resource Sample.X)
    [("b", "/ipfs/QmB"); ("a", "/ipfs/QmA")]
  = Ok [("a", JStr "/ipfs/QmA"); ("b", JStr "/ipfs/QmB")].
Proof. reflexivity. Qed.

(** X30.  The encoder of the earlier revision gives the bare address exactly
    for a transform with a bound address, no data and no resources: its
    syntax, application version, configuration and structure are not
    looked at, and are not in what is encoded. *)
Theorem earlier_transform_reference_iff (X : Externals) (q : TransformV0.Transform X) :
  (exists k, TransformV0Codec.MarshalJSON q = Ok (JStr k))
  <-> Datastore.String (TransformV0.path X q) <> "" /\
      TransformV0.Data q = "" /\ TransformV0.Resources q = None.
Proof.
  unfold TransformV0Codec.MarshalJSON, TransformV0.IsEmpty. split.
  - intros [k Hk].
    destruct (String.eqb_spec (Datastore.String (TransformV0.path X q)) "") as [E | E];
      destruct (String.eqb_spec (TransformV0.Data q) "") as [Ed | Ed];
      destruct (TransformV0.Resources q) as [rs |]; simpl in Hk;
      try (split; [exact E | split; [exact Ed | reflexivity]]);
      exfalso; unfold TransformV0Codec.marshal_transform in Hk;
      match type of Hk with
      | match ?o with _ => _ end = _ => destruct o; discriminate
      end.
  - intros (Hp & Hd & Hr). rewrite Hd, Hr.
    destruct (String.eqb_spec (Datastore.String (TransformV0.path X q)) "") as [E | E];
      [contradiction |].
    simpl. eexists. reflexivity.
Qed.

(** A bound transform of the earlier revision with a syntax and an
    application version: encoded, it is its address and nothing more. *)
Example earlier_transform_drops_its_syntax :
  TransformV0Codec.MarshalJSON SampleTransforms.bound_v0 = Ok (JStr "/ipfs/QmTransform").
Proof. reflexivity. Qed.

End TransformCodecFacts.
